(** * The Whisper inference driver of CTranslate2

    A shallow embedding of [src/models/whisper.cc]: prompt analysis
    ([get_sot_index], [get_prompt_length], [check_prompts]), the two logits
    processors ([GetNoSpeechProbs], [ApplyTimestampRules]), and the two
    entry points of the replica ([WhisperReplica::generate],
    [WhisperReplica::detect_language]).

    Tensors, the encoder, the decoder, the beam decoder and the vocabulary
    live in other files of the repository; they appear here as the
    operations of type classes, so every statement holds for any
    implementation of them, and what a statement needs of them is among its
    hypotheses. The definitions come first, the facts after them. *)

From stdpp Require Import prelude strings sorting.
From Stdlib Require Import ZArith.

Local Open Scope Z_scope.

(** ** Machine integers

    [size_t] is a 64-bit unsigned integer: a value is a [Z] in
    [0, size_modulus) and arithmetic wraps around. *)
Module SizeT.

Definition size_modulus : Z := 2 ^ 64.
Definition SIZE_MAX : Z := size_modulus - 1.

Definition wrap (z : Z) : Z := z `mod` size_modulus.
Definition add (a b : Z) : Z := wrap (a + b).
Definition sub (a b : Z) : Z := wrap (a - b).

Definition in_range (z : Z) : Prop := 0 ≤ z < size_modulus.

End SizeT.

(** ** Outcomes of a call

    A C++ function returns, throws, has undefined behaviour (an index or an
    iterator out of bounds, a division by zero), or runs for ever. *)
Inductive exception : Type :=
  | invalid_argument (what : string)
  | runtime_error (what : string).

Inductive outcome (A : Type) : Type :=
  | Ok (a : A)
  | Throw (e : exception)
  | Undefined
  | Diverges.
Arguments Ok {A} a.
Arguments Throw {A} e.
Arguments Undefined {A}.
Arguments Diverges {A}.

Global Instance outcome_ret : MRet outcome := λ A a, Ok a.
Global Instance outcome_bind : MBind outcome := λ A B f m,
  match m with
  | Ok a => f a
  | Throw e => Throw e
  | Undefined => Undefined
  | Diverges => Diverges
  end.
Global Instance outcome_fmap : FMap outcome := λ A B f m,
  match m with
  | Ok a => Ok (f a)
  | Throw e => Throw e
  | Undefined => Undefined
  | Diverges => Diverges
  end.

(** [v[i]] and [v.begin() + i] read outside the vector are undefined. *)
Definition of_option {A} (o : option A) : outcome A :=
  match o with
  | Some a => Ok a
  | None => Undefined
  end.

Definition is_invalid_argument {A} (r : outcome A) : Prop :=
  ∃ what, r = Throw (invalid_argument what).

Definition is_runtime_error {A} (r : outcome A) : Prop :=
  ∃ what, r = Throw (runtime_error what).

(** The call does not throw. *)
Definition no_throw {A} (r : outcome A) : Prop := ∀ e, r ≠ Throw e.

(** A loop that calls a fallible body on every element, in order. *)
Fixpoint for_each {A B} (f : A → outcome B) (l : list A) : outcome (list B) :=
  match l with
  | [] => Ok []
  | x :: l' => y ← f x; ys ← for_each f l'; Ok (y :: ys)
  end.

(** A loop that threads a state through a fallible body. *)
Fixpoint for_fold {A S} (body : A → S → outcome S) (l : list A) (s : S) : outcome S :=
  match l with
  | [] => Ok s
  | x :: l' => s' ← body x s; for_fold body l' s'
  end.

(** [dim_t] is a 64-bit signed integer: a value is a [Z] in
    [[-2^63, 2^63)]. The conversion of a [size_t] keeps the value modulo
    [2^64], and a signed subtraction whose result is outside the range is
    undefined. *)
Module DimT.

Definition min_value : Z := - 2 ^ 63.
Definition max_value : Z := 2 ^ 63 - 1.

Definition of_size_t (z : Z) : Z := (z + 2 ^ 63) `mod` SizeT.size_modulus - 2 ^ 63.

Definition sub (a b : Z) : outcome Z :=
  if bool_decide (min_value ≤ a - b ≤ max_value) then Ok (a - b) else Undefined.

End DimT.

(** ** Prompt analysis *)
Module PromptAnalyzer.

(** [std::find(prompt.begin(), prompt.end(), x)] as a distance from
    [begin()]: the position of the first [x], or the size of the vector. *)
Fixpoint std_find (x : Z) (prompt : list Z) : nat :=
  match prompt with
  | [] => 0%nat
  | tok :: rest => if bool_decide (tok = x) then 0%nat else S (std_find x rest)
  end.

Definition get_sot_index (prompt : list Z) (sot_id : Z) : outcome nat :=
  let sot_it := std_find sot_id prompt in
  if bool_decide (sot_it = length prompt)
  then Throw (invalid_argument "<|startoftranscript|> token was not found in the prompt")
  else Ok sot_it.

(** The loop [while (index < prompt.size() && prompt[index] >= sot_id &&
    prompt[index] <= no_timestamps_id) index++], run on the tokens from
    [index] on. *)
Fixpoint skip_task_tokens (sot_id no_timestamps_id : Z) (from_index : list Z) (index : nat) : nat :=
  match from_index with
  | [] => index
  | tok :: rest =>
      if bool_decide (sot_id ≤ tok) && bool_decide (tok ≤ no_timestamps_id)
      then skip_task_tokens sot_id no_timestamps_id rest (S index)
      else index
  end.

Definition get_prompt_length (prompt : list Z) (sot_id no_timestamps_id : Z) : outcome nat :=
  index ← get_sot_index prompt sot_id;
  Ok (skip_task_tokens sot_id no_timestamps_id (drop index prompt) index).

Definition position_message : string :=
  "The generate method currently requires the <|startoftranscript|> token to be at the same position in all batches. To work around this limitation, simply adapt the number of previous text tokens in each batch.".

Definition task_tokens_message : string :=
  "The generate method currently requires each batch to have the same number of task tokens after <|startoftranscript|>.".

(** The body of [check_prompts]: [first], [sot_index] and [prompt_length]
    are the local flag and the two reference parameters. *)
Fixpoint check_prompts_from (prompts : list (list Z)) (sot_id no_timestamps_id : Z)
    (first : bool) (sot_index prompt_length : nat) : outcome (nat * nat) :=
  match prompts with
  | [] => Ok (sot_index, prompt_length)
  | prompt :: rest =>
      batch_sot_index ← get_sot_index prompt sot_id;
      batch_prompt_length ← get_prompt_length prompt sot_id no_timestamps_id;
      if first then
        check_prompts_from rest sot_id no_timestamps_id false batch_sot_index batch_prompt_length
      else if bool_decide (batch_sot_index ≠ sot_index) then
        Throw (invalid_argument position_message)
      else if bool_decide (batch_prompt_length ≠ prompt_length) then
        Throw (invalid_argument task_tokens_message)
      else
        check_prompts_from rest sot_id no_timestamps_id false sot_index prompt_length
  end.

Definition check_prompts (prompts : list (list Z)) (sot_id no_timestamps_id : Z)
    (sot_index prompt_length : nat) : outcome (nat * nat) :=
  check_prompts_from prompts sot_id no_timestamps_id true sot_index prompt_length.

(** What the data model calls the derived indices of one prompt. *)
Definition is_sot_index (prompt : list Z) (sot_id : Z) (i : nat) : Prop :=
  prompt !! i = Some sot_id ∧ ∀ k tok, (k < i)%nat → prompt !! k = Some tok → tok ≠ sot_id.

Definition task_token (sot_id no_timestamps_id tok : Z) : Prop :=
  sot_id ≤ tok ≤ no_timestamps_id.

(** [n] is the smallest index [>= sot_index] whose token is outside
    [[sot_id, no_timestamps_id]], or the length of the prompt when there is
    no such index. *)
Definition is_prompt_length (prompt : list Z) (sot_id no_timestamps_id : Z)
    (sot_index n : nat) : Prop :=
  (sot_index ≤ n ≤ length prompt)%nat
  ∧ (∀ k, (sot_index ≤ k < n)%nat →
       ∃ tok, prompt !! k = Some tok ∧ task_token sot_id no_timestamps_id tok)
  ∧ ((n < length prompt)%nat →
       ∃ tok, prompt !! n = Some tok ∧ ¬ task_token sot_id no_timestamps_id tok).

(** The two derived indices of a prompt, as the data model defines them. *)
Definition derived_indices (prompt : list Z) (sot_id no_timestamps_id : Z)
    (sot_index prompt_length : nat) : Prop :=
  is_sot_index prompt sot_id sot_index
  ∧ is_prompt_length prompt sot_id no_timestamps_id sot_index prompt_length.

(** The pair that the code computes for a prompt that has a SOT token. *)
Definition prompt_pair (prompt : list Z) (sot_id no_timestamps_id : Z) : nat * nat :=
  let i := std_find sot_id prompt in
  (i, skip_task_tokens sot_id no_timestamps_id (drop i prompt) i).

End PromptAnalyzer.

(** ** Tensors

    The tensor primitives that whisper.cc calls ([ops::SoftMax], [ops::LogSoftMax],
    [primitives<D>::max], [primitives<D>::logsumexp]) work on one row of
    floating-point numbers; they and the comparison [>] of two floats are
    operations of the class, not defined here. A two-dimensional
    [StorageView] is the list of its rows. *)
Class Numerics : Type := {
  float : Type;
  float_zero : float;
  minus_infinity : float;
  SoftMax : list float → list float;
  LogSoftMax : list float → list float;
  primitives_max : list float → float;
  primitives_logsumexp : list float → float;
  float_gt : float → float → bool;
}.

Module StorageView.

(** [view.dim(0)] *)
Definition dim0 {A} (view : list (list A)) : Z := Z.of_nat (length view).

(** [view.at<T>({i, j})]; an index outside the view is undefined. *)
Definition at2 {A} (view : list (list A)) (i j : Z) : outcome A :=
  if bool_decide (0 ≤ i ∧ 0 ≤ j)
  then of_option (row ← view !! Z.to_nat i; row !! Z.to_nat j)
  else Undefined.

(** [view[i]] on a vector, with an index of type [size_t]. *)
Definition at1 {A} (v : list A) (i : Z) : outcome A :=
  if bool_decide (0 ≤ i) then of_option (v !! Z.to_nat i) else Undefined.

(** Modelled from the spec: [ops::Gather] with [batch_dims = 1], which is
    not in whisper.cc (tensor primitive "gather (with axis and batch_dims)"):
    row [i] of the result holds the entries of row [i] of [data] at the
    columns listed in row [i] of [ids]. *)
Definition Gather {A} (data : list (list A)) (ids : list (list Z)) : outcome (list (list A)) :=
  for_each (λ '(row, columns), for_each (at1 row) columns) (zip data ids).

(** The same with one column per row: [ids] has shape [[N]] and so has the
    result. *)
Definition Gather1 {A} (data : list (list A)) (ids : list Z) : outcome (list A) :=
  for_each (λ '(row, column), at1 row column) (zip data ids).

End StorageView.

(** ** The accumulator of disabled tokens *)
Module DisableTokens.
Section defs.
Context `{!Numerics}.

(** Modelled from the spec: the class [DisableTokens] of decoding.h, which
    is not in whisper.cc: the per-row accumulator of forbidden ids for a
    step, applied to the logits by setting those positions to minus
    infinity. The model keeps every pair that was added, so that the ids
    disabled during a step can still be read after [apply]. *)
Record t : Type := { ids : list (Z * Z) }.

Definition empty : t := {| ids := [] |}.

Definition add (batch_id token_id : Z) (self : t) : t :=
  {| ids := (batch_id, token_id) :: ids self |}.

Definition disabled (self : t) (batch_id token_id : Z) : Prop :=
  (batch_id, token_id) ∈ ids self.

Global Instance disabled_dec self batch_id token_id :
  Decision (disabled self batch_id token_id).
Proof. unfold disabled. apply _. Defined.

Definition mask_row (self : t) (batch_id : Z) (row : list float) : list float :=
  imap (λ j x, if bool_decide (disabled self batch_id (Z.of_nat j))
               then minus_infinity else x) row.

Definition apply (self : t) (logits : list (list float)) : list (list float) :=
  imap (λ i row, mask_row self (Z.of_nat i) row) logits.

(** [for (i ...) disable_tokens.add(batch_id, i)] over the ids of a loop. *)
Definition add_all (batch_id : Z) (token_ids : list Z) (self : t) : t :=
  foldl (λ acc i, add batch_id i acc) self token_ids.

End defs.
End DisableTokens.

(** The ids visited by [for (size_t i = first; i < bound; ++i)]. *)
Definition ids_below (first bound : Z) : list Z := seqZ first (bound - first).

(** The ids visited by [for (size_t i = first; i <= last; ++i)]: the loop
    never ends when [last] is the largest [size_t]. *)
Definition ids_through (first last : Z) : outcome (list Z) :=
  if bool_decide (last = SizeT.SIZE_MAX) then Diverges
  else Ok (seqZ first (last - first + 1)).

(** [get_sample_begin] of decoding.h: the step at which generated output
    starts for a row. It is declared outside whisper.cc. *)
Class DecodingHelpers : Type := {
  get_sample_begin : Z → Z → list Z → option (list (list Z)) → Z;
}.

(** [get_no_speech_probs_from_logits]: softmax over each row, then the
    column [no_speech_id] of every row. The conversion to [float32] keeps
    the value of a [float16]. *)
Definition get_no_speech_probs_from_logits `{!Numerics}
    (logits : list (list float)) (no_speech_id : Z) : outcome (list float) :=
  let probs := SoftMax <$> logits in
  let gather_ids := replicate (length probs) no_speech_id in
  StorageView.Gather1 probs gather_ids.

(** ** The processor that reads the no-speech probability *)
Module GetNoSpeechProbs.
Section defs.
Context `{!Numerics}.

Record t : Type := {
  _no_speech_id : Z;
  _no_speech_probs : list float;
}.

Definition new (no_speech_id : Z) : t :=
  {| _no_speech_id := no_speech_id; _no_speech_probs := [] |}.

Definition get_no_speech_probs (self : t) : list float := _no_speech_probs self.

Definition apply_first (self : t) : bool := true.

(** [apply] returns the object after the call together with the logits and
    the accumulator it was given by reference. The product [i * beam_size]
    is at most [logits.dim(0)], so it does not wrap. *)
Definition apply (self : t) (step : Z) (logits : list (list float))
    (disable_tokens : DisableTokens.t) (sequences : list (list Z))
    (batch_offset : list Z) (prefix : option (list (list Z)))
    : outcome (t * list (list float) * DisableTokens.t) :=
  if bool_decide (step = 0) then
    no_speech_probs ← get_no_speech_probs_from_logits logits (_no_speech_id self);
    let batch_size := Z.of_nat (length batch_offset) in
    if bool_decide (batch_size = 0) then Undefined else
    let beam_size := StorageView.dim0 logits `div` batch_size in
    captured ← for_each (λ i, StorageView.at1 no_speech_probs (i * beam_size))
                        (seqZ 0 batch_size);
    Ok ({| _no_speech_id := _no_speech_id self;
           _no_speech_probs := _no_speech_probs self ++ captured |},
        logits, disable_tokens)
  else Ok (self, logits, disable_tokens).

End defs.
End GetNoSpeechProbs.

(** ** The processor that enforces the timestamp rules *)
Module ApplyTimestampRules.
Section defs.
Context `{!Numerics} `{!DecodingHelpers}.

Record t : Type := {
  _eot_id : Z;
  _no_timestamps_id : Z;
  _timestamp_begin_id : Z;
  _timestamp_end_id : Z;
  _max_initial_timestamp_id : Z;
}.

(** The base class answers [false]; this class does not override it. *)
Definition apply_first (self : t) : bool := false.

(** [const size_t token = sequences.at<int32_t>({batch_id, t})] *)
Definition token_at (sequences : list (list Z)) (batch_id t : Z) : outcome Z :=
  SizeT.wrap <$> StorageView.at2 sequences batch_id t.

(** The loop [for (dim_t t = step - 1; t >= sample_begin; --t)] with
    [remaining] iterations left: on the first timestamp it disables the
    smaller timestamps and breaks. *)
Fixpoint forbid_decreasing (self : t) (sequences : list (list Z)) (batch_id : Z)
    (remaining : nat) (t : Z) (disable_tokens : DisableTokens.t) : outcome DisableTokens.t :=
  match remaining with
  | O => Ok disable_tokens
  | S remaining' =>
      token ← token_at sequences batch_id t;
      if bool_decide (_timestamp_begin_id self ≤ token) then
        Ok (DisableTokens.add_all batch_id
              (ids_below (_timestamp_begin_id self) token) disable_tokens)
      else forbid_decreasing self sequences batch_id remaining' (t - 1) disable_tokens
  end.

(** The body of the loop over [batch_id]; the state is the accumulator and
    [check_timestamps_prob_for_batch]. *)
Definition apply_row (self : t) (step : Z) (sequences : list (list Z))
    (batch_offset : list Z) (prefix : option (list (list Z))) (batch_size : Z)
    (batch_id : Z) (state : DisableTokens.t * list Z)
    : outcome (DisableTokens.t * list Z) :=
  let '(disable_tokens, check_timestamps_prob_for_batch) := state in
  let sample_begin := get_sample_begin batch_size batch_id batch_offset prefix in
  let disable_tokens := DisableTokens.add batch_id (_no_timestamps_id self) disable_tokens in
  if bool_decide (step = sample_begin) then
    let disable_tokens :=
      DisableTokens.add_all batch_id (ids_below 0 (_timestamp_begin_id self)) disable_tokens in
    late ← ids_through (SizeT.add (_max_initial_timestamp_id self) 1) (_timestamp_end_id self);
    Ok (DisableTokens.add_all batch_id late disable_tokens, check_timestamps_prob_for_batch)
  else if bool_decide (step > sample_begin) then
    last_token ← token_at sequences batch_id (step - 1);
    '(disable_tokens, check_timestamps_prob_for_batch) ←
      (if bool_decide (_timestamp_begin_id self ≤ last_token) then
         penultimate_token ←
           (if bool_decide (step - 1 > sample_begin)
            then token_at sequences batch_id (step - 2)
            else Ok last_token);
         if bool_decide (_timestamp_begin_id self ≤ penultimate_token) then
           timestamps ← ids_through (_timestamp_begin_id self) (_timestamp_end_id self);
           Ok (DisableTokens.add_all batch_id timestamps disable_tokens,
               check_timestamps_prob_for_batch)
         else
           Ok (DisableTokens.add_all batch_id (ids_below 0 (_eot_id self)) disable_tokens,
               check_timestamps_prob_for_batch ++ [batch_id])
       else Ok (disable_tokens, check_timestamps_prob_for_batch ++ [batch_id]));
    disable_tokens ←
      forbid_decreasing self sequences batch_id (Z.to_nat (step - sample_begin))
                        (step - 1) disable_tokens;
    Ok (disable_tokens, check_timestamps_prob_for_batch)
  else Ok (disable_tokens, check_timestamps_prob_for_batch).

(** [should_sample_timestamp]: the text log-probabilities are the first
    [_timestamp_begin_id] entries of the row, the timestamp ones are the
    [_timestamp_end_id - _timestamp_begin_id + 1] entries after them; the
    model gives no meaning to a read past the end of the row. *)
Definition should_sample_timestamp (self : t) (log_probs : list (list float))
    (batch_id : Z) : outcome bool :=
  let num_text_tokens := _timestamp_begin_id self in
  let num_timestamp_tokens :=
    SizeT.add (SizeT.sub (_timestamp_end_id self) (_timestamp_begin_id self)) 1 in
  row ← StorageView.at1 log_probs batch_id;
  if bool_decide (num_text_tokens + num_timestamp_tokens ≤ Z.of_nat (length row)) then
    let text_log_probs := take (Z.to_nat num_text_tokens) row in
    let timestamp_log_probs :=
      take (Z.to_nat num_timestamp_tokens) (drop (Z.to_nat num_text_tokens) row) in
    let max_text_token_log_prob := primitives_max text_log_probs in
    let timestamp_log_prob := primitives_logsumexp timestamp_log_probs in
    Ok (float_gt timestamp_log_prob max_text_token_log_prob)
  else Undefined.

(** The body of the loop over [check_timestamps_prob_for_batch]. *)
Definition check_row (self : t) (log_probs : list (list float)) (batch_id : Z)
    (disable_tokens : DisableTokens.t) : outcome DisableTokens.t :=
  sample_timestamp ← should_sample_timestamp self log_probs batch_id;
  if sample_timestamp : bool then
    Ok (DisableTokens.add_all batch_id (ids_below 0 (_timestamp_begin_id self)) disable_tokens)
  else Ok disable_tokens.

(** The state after the loop over the rows of the batch. *)
Definition apply_rows (self : t) (step : Z) (logits : list (list float))
    (disable_tokens : DisableTokens.t) (sequences : list (list Z))
    (batch_offset : list Z) (prefix : option (list (list Z)))
    : outcome (DisableTokens.t * list Z) :=
  let batch_size := StorageView.dim0 logits in
  for_fold (apply_row self step sequences batch_offset prefix batch_size)
           (ids_below 0 batch_size) (disable_tokens, []).

Definition apply (self : t) (step : Z) (logits : list (list float))
    (disable_tokens : DisableTokens.t) (sequences : list (list Z))
    (batch_offset : list Z) (prefix : option (list (list Z)))
    : outcome (t * list (list float) * DisableTokens.t) :=
  '(disable_tokens, check_timestamps_prob_for_batch) ←
    apply_rows self step logits disable_tokens sequences batch_offset prefix;
  if bool_decide (check_timestamps_prob_for_batch ≠ []) then
    let logits := DisableTokens.apply disable_tokens logits in
    let log_probs := LogSoftMax <$> logits in
    disable_tokens ←
      for_fold (check_row self log_probs) check_timestamps_prob_for_batch disable_tokens;
    Ok (self, logits, disable_tokens)
  else Ok (self, logits, disable_tokens).

End defs.
End ApplyTimestampRules.

(** ** The model, the decoder and the beam decoder *)

(** The vocabulary of the model ([Vocabulary], outside whisper.cc). *)
Class Vocabulary : Type := {
  vocabulary_size : Z;
  bos_id : Z;
  eos_id : Z;
  unk_id : Z;
  to_id : string → Z;
  to_token : Z → string;
}.

(** [vocabulary.to_tokens] and [vocabulary.to_ids] on a batch. *)
Definition to_tokens `{!Vocabulary} (batch_ids : list (list Z)) : list (list string) :=
  (λ ids : list Z, to_token <$> ids) <$> batch_ids.

Definition to_ids `{!Vocabulary} (batch_tokens : list (list string)) : list (list Z) :=
  (λ tokens : list string, to_id <$> tokens) <$> batch_tokens.

(** [_model->config], a JSON object: the three lists that whisper.cc reads. *)
Class ModelConfig : Type := {
  config_suppress_ids : list Z;
  config_suppress_ids_begin : list Z;
  config_lang_ids : list Z;
}.

(** The encoder and the decoder layers. [forward_prompt] returns the state
    it updated and the outputs it writes when the caller asks for them. *)
Class Layers `{!Numerics} : Type := {
  Features : Type;
  features_dim0 : Features → Z;
  EncoderOutput : Type;
  DecoderState : Type;
  DecoderOutputs : Type;
  encoder_forward : Features → EncoderOutput;
  initial_state : DecoderState;
  emplace_memory : EncoderOutput → DecoderState → DecoderState;
  forward_prompt : list (list Z) → DecoderState → DecoderState * DecoderOutputs;
  compute_logits_for_steps : DecoderOutputs → list Z → list (list float);
  decoder_forward : Z → list Z → DecoderState → DecoderState * list (list float);
}.

(** [std::sort] with a comparison function. *)
Class StdAlgorithm : Type := {
  std_sort : ∀ A : Type, (A → A → bool) → list A → list A;
}.
Arguments std_sort {_ A} comp l.

(** Modelled from the spec: [layers::make_sequence_inputs], which is not in
    whisper.cc: the batch of id sequences as one grid of shape
    [[batch_size, max_length]], the shorter rows padded with 0. *)
Definition make_sequence_inputs (ids : list (list Z)) : list (list Z) :=
  let max_length := foldr (λ row acc, Nat.max (length row) acc) 0%nat ids in
  (λ row, row ++ replicate (max_length - length row) 0) <$> ids.

(** [inputs.dim(1)] of such a grid. *)
Definition inputs_dim1 (inputs : list (list Z)) : Z :=
  match inputs with
  | [] => 0
  | row :: _ => Z.of_nat (length row)
  end.

Module WhisperOptions.
Section defs.
Context `{!Numerics}.
Record t : Type := {
  beam_size : Z;
  patience : float;
  length_penalty : float;
  repetition_penalty : float;
  no_repeat_ngram_size : Z;
  max_length : Z;
  sampling_topk : Z;
  sampling_temperature : float;
  num_hypotheses : Z;
  return_scores : bool;
  return_attention : bool;
  return_no_speech_prob : bool;
  max_initial_timestamp_index : Z;
  suppress_blank : bool;
  suppress_tokens : list Z;
}.
End defs.
End WhisperOptions.

(** The processors a decoding run can hold. *)
Inductive LogitsProcessor `{!Numerics} : Type :=
  | NoSpeechProcessor (p : GetNoSpeechProbs.t)
  | TimestampProcessor (p : ApplyTimestampRules.t).

Module DecodingOptions.
Section defs.
Context `{!Numerics}.
Record t : Type := {
  start_step : Z;
  beam_size : Z;
  patience : float;
  length_penalty : float;
  repetition_penalty : float;
  no_repeat_ngram_size : Z;
  max_length : Z;
  sampling_topk : Z;
  sampling_temperature : float;
  num_hypotheses : Z;
  return_scores : bool;
  return_attention : bool;
  include_eos_in_hypotheses : bool;
  disable_ids : list Z;
  disable_ids_begin : list Z;
  logits_processors : list LogitsProcessor;
}.
End defs.
End DecodingOptions.

(** The result of the beam decoder for one batch row and the result of
    [generate] for it. Their declarations are outside whisper.cc; the fields
    are those that [generate] reads and writes, with one entry per hypothesis in
    [hypotheses], [scores], [DecodingResult.token_scores] and [attention]. *)
Module DecodingResult.
Section defs.
Context `{!Numerics}.
Record t : Type := {
  hypotheses : list (list Z);
  scores : list float;
  token_scores : list (list float);
  attention : list (list (list float));
}.
End defs.
End DecodingResult.

Module WhisperGenerationResult.
Section defs.
Context `{!Numerics}.
Record t : Type := {
  sequences : list (list string);
  sequences_ids : list (list Z);
  scores : list float;
  token_scores : list float;
  attention : list (list (list float));
  no_speech_prob : float;
}.
End defs.
End WhisperGenerationResult.

(** The beam decoder [decode] of decoding.h. The processors are shared
    objects that it calls and changes during the run: it returns them, in
    the order of [logits_processors], as they are when it ends.
    [to_max_length] is the conversion of a [dim_t] to the type of the field
    [DecodingOptions::max_length], which decoding.h declares as well. *)
Class BeamDecoder `{!Numerics} `{!Layers} : Type := {
  decode : DecoderState → list (list Z) → Z → DecodingOptions.t →
           outcome (list DecodingResult.t * list LogitsProcessor);
  to_max_length : Z → Z;
}.

(** ** The replica *)
Module WhisperReplica.
Section defs.
Context `{!Numerics} `{!DecodingHelpers} `{!Vocabulary} `{!ModelConfig}
        `{!Layers} `{!BeamDecoder} `{!StdAlgorithm}.

Record t : Type := {
  _sot_id : Z;
  _eot_id : Z;
  _no_timestamps_id : Z;
  _no_speech_id : Z;
  _is_multilingual : bool;
}.

(** The constructor. *)
Definition new : t :=
  let no_speech_id := to_id "<|nospeech|>" in
  {| _sot_id := bos_id;
     _eot_id := eos_id;
     _no_timestamps_id := to_id "<|notimestamps|>";
     _no_speech_id :=
       if bool_decide (no_speech_id = unk_id) then to_id "<|nocaptions|>" else no_speech_id;
     _is_multilingual := bool_decide (vocabulary_size = 51865) |}.

Definition is_multilingual (self : t) : bool := _is_multilingual self.

(** [encode]: the move of the features to the device and type of the
    encoder keeps their values. *)
Definition encode (features : Features) : EncoderOutput := encoder_forward features.

(** [sot_index == prompt_length - 1] on two [size_t]. *)
Definition sot_is_start_token (sot_index prompt_length : nat) : bool :=
  bool_decide (Z.of_nat sot_index = SizeT.sub (Z.of_nat prompt_length) 1).

(** The two vectors built from [prompt.begin() + prompt_length - 1]; the
    iterator has to stay inside the prompt. *)
Definition split_prompt (prompt_length : nat) (prompt : list Z) : outcome (list Z * list Z) :=
  if bool_decide (1 ≤ prompt_length ≤ length prompt)%nat
  then Ok (take (prompt_length - 1) prompt, drop (prompt_length - 1) prompt)
  else Undefined.

(** What the prefill step of [generate] leaves behind. *)
Record Prefill : Type := {
  start_tokens : list (list Z);
  no_speech_probs : list float;
  start_step : Z;
  decoder_state : DecoderState;
}.

Definition prefill (self : t) (prompts : list (list Z)) (options : WhisperOptions.t)
    (sot_index prompt_length : nat) (state : DecoderState) : outcome Prefill :=
  if bool_decide (prompt_length = 1%nat) then
    Ok {| start_tokens := prompts; no_speech_probs := []; start_step := 0;
          decoder_state := state |}
  else
    halves ← for_each (split_prompt prompt_length) prompts;
    let prompt_tokens := halves.*1 in
    let start_tokens := halves.*2 in
    let inputs := make_sequence_inputs prompt_tokens in
    '(state, no_speech_probs) ←
      (if negb (WhisperOptions.return_no_speech_prob options)
          || sot_is_start_token sot_index prompt_length
       then Ok ((forward_prompt inputs state).1, [])
       else
         let '(state, outputs) := forward_prompt inputs state in
         let sot_index_batch := replicate (length inputs) (Z.of_nat sot_index) in
         let logits := compute_logits_for_steps outputs sot_index_batch in
         no_speech_probs ← get_no_speech_probs_from_logits logits (_no_speech_id self);
         Ok (state, no_speech_probs));
    Ok {| start_tokens := start_tokens; no_speech_probs := no_speech_probs;
          start_step := inputs_dim1 inputs; decoder_state := state |}.

(** The loop over [options.suppress_tokens]. *)
Definition expand_suppress_tokens (suppress_tokens : list Z) : list Z :=
  foldl (λ disable_ids id,
           if bool_decide (0 ≤ id) then disable_ids ++ [id]
           else if bool_decide (id = -1) then disable_ids ++ config_suppress_ids
           else disable_ids)
        [] suppress_tokens.

(** The processor built when the last prompt token is not
    [<|notimestamps|>]. *)
Definition timestamp_rules (self : t) (options : WhisperOptions.t) : ApplyTimestampRules.t :=
  let timestamp_begin_id := SizeT.add (_no_timestamps_id self) 1 in
  let timestamp_end_id := SizeT.sub vocabulary_size 1 in
  let max_initial_timestamp_id :=
    SizeT.add timestamp_begin_id (WhisperOptions.max_initial_timestamp_index options) in
  {| ApplyTimestampRules._eot_id := _eot_id self;
     ApplyTimestampRules._no_timestamps_id := _no_timestamps_id self;
     ApplyTimestampRules._timestamp_begin_id := timestamp_begin_id;
     ApplyTimestampRules._timestamp_end_id := timestamp_end_id;
     ApplyTimestampRules._max_initial_timestamp_id := max_initial_timestamp_id |}.

(** The token [prompts[0][prompt_length - 1]]. *)
Definition last_prompt_token (prompts : list (list Z)) (prompt_length : nat) : outcome Z :=
  prompt ← StorageView.at1 prompts 0;
  StorageView.at1 prompt (SizeT.sub (Z.of_nat prompt_length) 1).

Definition make_logits_processors (self : t) (prompts : list (list Z))
    (options : WhisperOptions.t) (sot_index prompt_length : nat)
    : outcome (list LogitsProcessor) :=
  let no_speech_probs_processor :=
    if WhisperOptions.return_no_speech_prob options
       && sot_is_start_token sot_index prompt_length
    then [NoSpeechProcessor (GetNoSpeechProbs.new (_no_speech_id self))]
    else [] in
  last ← last_prompt_token prompts prompt_length;
  if bool_decide (last ≠ _no_timestamps_id self)
  then Ok (no_speech_probs_processor ++ [TimestampProcessor (timestamp_rules self options)])
  else Ok no_speech_probs_processor.

(** [std::min(total_max_length / 2, total_max_length - start_step)], where
    [total_max_length] is [options.max_length], a [size_t], converted to
    [dim_t]; the division truncates. *)
Definition max_decoding_length (options : WhisperOptions.t) (start_step : Z) : outcome Z :=
  let total_max_length := DimT.of_size_t (WhisperOptions.max_length options) in
  remaining ← DimT.sub total_max_length start_step;
  Ok (Z.min (total_max_length `quot` 2) remaining).

Definition make_decoding_options (self : t) (prompts : list (list Z))
    (options : WhisperOptions.t) (sot_index prompt_length : nat) (start_step : Z)
    : outcome DecodingOptions.t :=
  max_length ← max_decoding_length options start_step;
  logits_processors ← make_logits_processors self prompts options sot_index prompt_length;
  Ok {| DecodingOptions.start_step := start_step;
        DecodingOptions.beam_size := WhisperOptions.beam_size options;
        DecodingOptions.patience := WhisperOptions.patience options;
        DecodingOptions.length_penalty := WhisperOptions.length_penalty options;
        DecodingOptions.repetition_penalty := WhisperOptions.repetition_penalty options;
        DecodingOptions.no_repeat_ngram_size := WhisperOptions.no_repeat_ngram_size options;
        DecodingOptions.max_length := to_max_length max_length;
        DecodingOptions.sampling_topk := WhisperOptions.sampling_topk options;
        DecodingOptions.sampling_temperature := WhisperOptions.sampling_temperature options;
        DecodingOptions.num_hypotheses := WhisperOptions.num_hypotheses options;
        DecodingOptions.return_scores := WhisperOptions.return_scores options;
        DecodingOptions.return_attention := WhisperOptions.return_attention options;
        DecodingOptions.include_eos_in_hypotheses := false;
        DecodingOptions.disable_ids :=
          expand_suppress_tokens (WhisperOptions.suppress_tokens options);
        DecodingOptions.disable_ids_begin :=
          if WhisperOptions.suppress_blank options then config_suppress_ids_begin else [];
        DecodingOptions.logits_processors := logits_processors |}.

(** The body of the loop that builds [final_results]. *)
Definition make_result (options : WhisperOptions.t) (no_speech_probs : list float)
    (i : nat) (result : DecodingResult.t) : outcome WhisperGenerationResult.t :=
  first_token_scores ← of_option (DecodingResult.token_scores result !! 0%nat);
  no_speech_prob ←
    (if WhisperOptions.return_no_speech_prob options
     then of_option (no_speech_probs !! i)
     else Ok float_zero);
  Ok {| WhisperGenerationResult.sequences := to_tokens (DecodingResult.hypotheses result);
        WhisperGenerationResult.sequences_ids := DecodingResult.hypotheses result;
        WhisperGenerationResult.scores := DecodingResult.scores result;
        WhisperGenerationResult.token_scores := first_token_scores;
        WhisperGenerationResult.attention := DecodingResult.attention result;
        WhisperGenerationResult.no_speech_prob := no_speech_prob |}.

Definition make_results (options : WhisperOptions.t) (no_speech_probs : list float)
    (results : list DecodingResult.t) : outcome (list WhisperGenerationResult.t) :=
  for_each (λ '(i, result), make_result options no_speech_probs i result)
           (imap pair results).

(** The probabilities read after [decode]: those of the processor when one
    was installed (it is the first of the list), else those of the prefill. *)
Definition read_no_speech_probs (installed : bool) (processors : list LogitsProcessor)
    (from_prefill : list float) : outcome (list float) :=
  if installed then
    match processors !! 0%nat with
    | Some (NoSpeechProcessor p) => Ok (GetNoSpeechProbs.get_no_speech_probs p)
    | _ => Undefined
    end
  else Ok from_prefill.

(** [generate] on token ids. The profiling scope, the device scope and
    [update_output_layer] change no value that is read here. *)
Definition generate (self : t) (features : Features) (prompts : list (list Z))
    (options : WhisperOptions.t) : outcome (list WhisperGenerationResult.t) :=
  match prompts with
  | [] => Ok []
  | _ =>
      '(sot_index, prompt_length) ←
        PromptAnalyzer.check_prompts prompts (_sot_id self) (_no_timestamps_id self) 0 0;
      let state := emplace_memory (encode features) initial_state in
      pre ← prefill self prompts options sot_index prompt_length state;
      decoding_options ←
        make_decoding_options self prompts options sot_index prompt_length (start_step pre);
      '(results, processors) ←
        decode (decoder_state pre) (start_tokens pre) (_eot_id self) decoding_options;
      no_speech_probs ←
        read_no_speech_probs
          (WhisperOptions.return_no_speech_prob options
           && sot_is_start_token sot_index prompt_length)
          processors (no_speech_probs pre);
      make_results options no_speech_probs results
  end.

(** The overload that takes the prompts as strings. *)
Definition generate_tokens (self : t) (features : Features) (prompts : list (list string))
    (options : WhisperOptions.t) : outcome (list WhisperGenerationResult.t) :=
  generate self features (to_ids prompts) options.

(** The comparison given to [std::sort]. *)
Definition by_probability (a b : string * float) : bool := float_gt a.2 b.2.

(** The pairs of one batch row before they are sorted. *)
Definition language_pairs (lang_ids : list Z) (lang_probs : list (list float)) (i : Z)
    : outcome (list (string * float)) :=
  for_each (λ j, lang_id ← StorageView.at1 lang_ids j;
                 prob ← StorageView.at2 lang_probs i j;
                 Ok (to_token (SizeT.wrap lang_id), prob))
           (ids_below 0 (Z.of_nat (length lang_ids))).

(** The probabilities of [detect_language]: one decoder step on [sot] for
    every batch row, the columns [lang_ids] of its logits, and a softmax
    over them. *)
Definition language_probs (features : Features) : outcome (list (list float)) :=
  let sot := bos_id in
  let batch_size := features_dim0 features in
  let start_ids := replicate (Z.to_nat batch_size) sot in
  let score_ids := replicate (Z.to_nat batch_size) config_lang_ids in
  let state := emplace_memory (encode features) initial_state in
  let logits := (decoder_forward 0 start_ids state).2 in
  gathered ← StorageView.Gather logits score_ids;
  Ok (SoftMax <$> (gathered : list (list float))).

Definition detect_language (self : t) (features : Features)
    : outcome (list (list (string * float))) :=
  if negb (is_multilingual self) then
    Throw (runtime_error "detect_language can only be called on multilingual models")
  else
    lang_probs ← language_probs features;
    for_each (λ i, result ← language_pairs config_lang_ids lang_probs i;
                   Ok (std_sort by_probability result))
             (ids_below 0 (features_dim0 features)).

(** ** What the steps of [generate] produce

    Names for the values that the facts below are stated with. *)

(** What one entry of [suppress_tokens] contributes to [disable_ids]. *)
Definition suppressed_by (id : Z) : list Z :=
  if bool_decide (0 ≤ id) then [id]
  else if bool_decide (id = -1) then config_suppress_ids
  else [].

(** The result built for the row [i] of the batch. *)
Definition result_of (options : WhisperOptions.t) (no_speech_probs : list float)
    (i : nat) (result : DecodingResult.t) : WhisperGenerationResult.t :=
  {| WhisperGenerationResult.sequences := to_tokens (DecodingResult.hypotheses result);
     WhisperGenerationResult.sequences_ids := DecodingResult.hypotheses result;
     WhisperGenerationResult.scores := DecodingResult.scores result;
     WhisperGenerationResult.token_scores :=
       default [] (DecodingResult.token_scores result !! 0%nat);
     WhisperGenerationResult.attention := DecodingResult.attention result;
     WhisperGenerationResult.no_speech_prob :=
       if WhisperOptions.return_no_speech_prob options
       then default float_zero (no_speech_probs !! i)
       else float_zero |}.

(** The logits of one batch row at the columns [lang_ids], which
    [detect_language] gives to the softmax. *)
Definition language_logits (row : list float) : list float :=
  (λ id, default float_zero (row !! Z.to_nat id)) <$> config_lang_ids.

(** The pairs are in the order of their probabilities, the largest first:
    no pair comes after a pair of smaller probability. *)
Definition descending_by_probability (result : list (string * float)) : Prop :=
  ∀ (i j : nat) a b,
    (i < j)%nat → result !! i = Some a → result !! j = Some b → float_gt b.2 a.2 = false.

(** What [generate] does with what [decode] returns: it reads the no-speech
    probabilities and builds the results. *)
Definition finish (options : WhisperOptions.t) (sot_index prompt_length : nat)
    (pre : Prefill) (decoded : list DecodingResult.t * list LogitsProcessor)
    : outcome (list WhisperGenerationResult.t) :=
  no_speech_probs ←
    read_no_speech_probs
      (WhisperOptions.return_no_speech_prob options
       && sot_is_start_token sot_index prompt_length)
      decoded.2 (no_speech_probs pre);
  make_results options no_speech_probs decoded.1.

(** The logits at the column [sot_index] of the prefill, one row per
    prompt. *)
Definition sot_logits (prompts : list (list Z)) (si pl : nat) (state : DecoderState)
    : list (list float) :=
  compute_logits_for_steps
    (forward_prompt (take (pl - 1) <$> prompts) state).2
    (replicate (length prompts) (Z.of_nat si)).

End defs.
End WhisperReplica.

(** ** The timestamp rules in the words of the specification

    What the rules say about one row of the batch, stated on the generated
    tokens of the row; the facts below compare it with what
    [ApplyTimestampRules.apply] adds to the accumulator. *)
Module TimestampRules.
Section defs.
Context `{!Numerics} `{!DecodingHelpers}.
Import ApplyTimestampRules.

Variables (self : t) (step : Z) (sequences : list (list Z)).

(** A token is a timestamp when it is at least [timestamp_begin_id]. *)
Definition is_timestamp (token : Z) : Prop := _timestamp_begin_id self ≤ token.

(** The last generated token of row [b]. *)
Definition last_token (b token : Z) : Prop :=
  token_at sequences b (step - 1) = Ok token.

(** The token before it, taken to be the last token itself when only one
    token was generated. *)
Definition penultimate_token (sample_begin b token : Z) : Prop :=
  if decide (step - 1 > sample_begin)
  then token_at sequences b (step - 2) = Ok token
  else token_at sequences b (step - 1) = Ok token.

(** The last two tokens are timestamps: a pair was just closed. *)
Definition closed_pair (sample_begin b : Z) : Prop :=
  ∃ last penultimate,
    last_token b last ∧ penultimate_token sample_begin b penultimate
    ∧ is_timestamp last ∧ is_timestamp penultimate.

(** The last token is a timestamp and the one before is not: a pair is
    open. *)
Definition open_pair (sample_begin b : Z) : Prop :=
  ∃ last penultimate,
    last_token b last ∧ penultimate_token sample_begin b penultimate
    ∧ is_timestamp last ∧ ¬ is_timestamp penultimate.

(** [token] is the most recent timestamp among the generated tokens
    [sequences[b, sample_begin .. step - 1]]. *)
Definition most_recent_timestamp (sample_begin b token : Z) : Prop :=
  ∃ t, sample_begin ≤ t < step
       ∧ token_at sequences b t = Ok token ∧ is_timestamp token
       ∧ ∀ t' token', t < t' < step → token_at sequences b t' = Ok token' →
                      ¬ is_timestamp token'.

(** The ids disabled at the first generated step. *)
Definition first_step_ids (i : Z) : Prop :=
  0 ≤ i < _timestamp_begin_id self
  ∨ SizeT.add (_max_initial_timestamp_id self) 1 ≤ i ≤ _timestamp_end_id self.

(** The ids disabled at a later step. *)
Definition later_step_ids (sample_begin b i : Z) : Prop :=
  (closed_pair sample_begin b ∧ _timestamp_begin_id self ≤ i ≤ _timestamp_end_id self)
  ∨ (open_pair sample_begin b ∧ 0 ≤ i < _eot_id self)
  ∨ (∃ token, most_recent_timestamp sample_begin b token
              ∧ _timestamp_begin_id self ≤ i < token).

(** The ids disabled for a row by the rules 1 to 3. *)
Definition row_ids (sample_begin b i : Z) : Prop :=
  i = _no_timestamps_id self
  ∨ (step = sample_begin ∧ first_step_ids i)
  ∨ (step > sample_begin ∧ later_step_ids sample_begin b i).

(** The rows marked for the log-probability mass check. *)
Definition marked (sample_begin b : Z) : Prop :=
  step > sample_begin ∧ ¬ closed_pair sample_begin b.

(** [M] and [S] of the mass check, on the log-probabilities of one row. *)
Definition max_text_log_prob (row : list float) : float :=
  primitives_max (take (Z.to_nat (_timestamp_begin_id self)) row).

Definition timestamp_log_prob (row : list float) : float :=
  primitives_logsumexp
    (take (Z.to_nat (_timestamp_end_id self - _timestamp_begin_id self + 1))
          (drop (Z.to_nat (_timestamp_begin_id self)) row)).

(** The mass check forces a timestamp for row [b]: [S > M] on the row of
    the log-probabilities. *)
Definition timestamp_mass_wins (log_probs : list (list float)) (b : Z) : Prop :=
  ∃ row, log_probs !! Z.to_nat b = Some row
         ∧ float_gt (timestamp_log_prob row) (max_text_log_prob row) = true.

(** The inputs on which a step of the processor is defined: the timestamp
    range is a range of [size_t] below the largest one, every row of the
    logits covers it, the log-softmax keeps the length of a row, and the
    generated tokens of every row are in [sequences]. *)
Definition well_formed (logits : list (list float)) (batch_offset : list Z)
    (prefix : option (list (list Z))) : Prop :=
  0 ≤ _timestamp_begin_id self ≤ _timestamp_end_id self + 1
  ∧ _timestamp_end_id self < SizeT.SIZE_MAX
  ∧ (∀ row, row ∈ logits → _timestamp_end_id self + 1 ≤ Z.of_nat (length row))
  ∧ (∀ row : list float, length (LogSoftMax row) = length row)
  ∧ (∀ b t, 0 ≤ b < StorageView.dim0 logits →
            get_sample_begin (StorageView.dim0 logits) b batch_offset prefix ≤ t < step →
            ∃ token, StorageView.at2 sequences b t = Ok token).

End defs.
End TimestampRules.

(** ** Contracts of the collaborators *)

(** What [std::sort] promises: no element is ordered before an earlier one. *)
Definition sorted_by {A} (comp : A → A → bool) (l : list A) : Prop :=
  StronglySorted (λ a b, comp b a = false) l.

(** What [std::sort] asks of its comparison: a strict weak ordering of the
    values that it sorts. [>] is one on floats that are not NaN. *)
Definition strict_weak_order_on {A} (comp : A → A → bool) (l : list A) : Prop :=
  (∀ a, a ∈ l → comp a a = false)
  ∧ (∀ a b c, a ∈ l → b ∈ l → c ∈ l →
              comp a b = true → comp b c = true → comp a c = true)
  ∧ (∀ a b c, a ∈ l → b ∈ l → c ∈ l →
              comp a c = true → comp a b = true ∨ comp b c = true).

Definition std_sort_contract `{!StdAlgorithm} : Prop :=
  ∀ (A : Type) (comp : A → A → bool) (l : list A),
    strict_weak_order_on comp l →
    std_sort comp l ≡ₚ l ∧ sorted_by comp (std_sort comp l).

(** Every row of the view has the column. *)
Definition has_column {A} (view : list (list A)) (column : Z) : Prop :=
  Forall (λ row, 0 ≤ column < Z.of_nat (length row)) view.

(** ** A small instance

    Integers in place of floats, with the maximum in place of the
    log-sum-exp, a vocabulary of fifteen tokens, and a decoder whose logits
    do not depend on the audio. It serves to run the definitions on
    concrete inputs. *)
Module Tiny.

Definition lowest : Z := -1000000.

Definition row_max (row : list Z) : Z := foldr Z.max lowest row.

Definition numerics : Numerics := {|
  float := Z;
  float_zero := 0;
  minus_infinity := lowest;
  SoftMax := λ row, (λ x, if bool_decide (x = row_max row) then 1 else 0) <$> row;
  LogSoftMax := λ row, (λ x, x - row_max row) <$> row;
  primitives_max := row_max;
  primitives_logsumexp := row_max;
  float_gt := Z.gtb;
|}.
#[local] Existing Instance numerics.

(** The length of the prefix of the row's batch, 0 without a prefix. *)
Definition helpers : DecodingHelpers := {|
  get_sample_begin := λ batch_size batch_id batch_offset prefix,
    match prefix with
    | None => 0
    | Some prefix =>
        let beam_size := batch_size `div` Z.of_nat (length batch_offset) in
        let original := default 0 (batch_offset !! Z.to_nat (batch_id `div` beam_size)) in
        Z.of_nat (length (default [] (prefix !! Z.to_nat original)))
    end;
|}.

Definition tokens : list string :=
  ["a"; "b"; "c"; "d"; "<|endoftext|>"; "<|startoftranscript|>"; "<|en|>"; "<|fr|>";
   "<|transcribe|>"; "<|nospeech|>"; "<|notimestamps|>";
   "<|0.00|>"; "<|0.02|>"; "<|0.04|>"; "<|0.06|>"].

Definition vocabulary : Vocabulary := {|
  vocabulary_size := Z.of_nat (length tokens);
  bos_id := 5;
  eos_id := 4;
  unk_id := 4;
  to_id := λ token,
    match list_find (λ t, t = token) tokens with
    | Some (i, _) => Z.of_nat i
    | None => 4
    end;
  to_token := λ id, default "<|endoftext|>" (tokens !! Z.to_nat id);
|}.

Definition config : ModelConfig := {|
  config_suppress_ids := [1; 2];
  config_suppress_ids_begin := [0; 4];
  config_lang_ids := [6; 7];
|}.

(** The features are a batch size; after a prompt every row of logits is
    [0, 1, ..., 14] with 20 at the column of [<|nospeech|>], and after one
    step it is [14, 13, ..., 0]. *)
Definition layers : @Layers numerics := {|
  Features := nat;
  features_dim0 := Z.of_nat;
  EncoderOutput := unit;
  DecoderState := list (list Z);
  DecoderOutputs := list (list Z);
  encoder_forward := λ _, ();
  initial_state := [];
  emplace_memory := λ _ state, state;
  forward_prompt := λ inputs state, (state ++ inputs, inputs);
  compute_logits_for_steps := λ outputs steps, (λ _, <[9%nat:=20]> (seqZ 0 15)) <$> steps;
  decoder_forward := λ step ids state, (state, (λ _, reverse (seqZ 0 15)) <$> ids);
|}.

(** One step of a greedy decoder: every processor is called once, at step
    0, on the logits of the start tokens; every row gets the hypothesis
    [[11]] and the score of each of its tokens. *)
Definition call_processor (logits : list (list Z)) (batch_offset : list Z)
    (processor : @LogitsProcessor numerics) : @LogitsProcessor numerics :=
  match processor with
  | NoSpeechProcessor p =>
      match @GetNoSpeechProbs.apply numerics p 0 logits DisableTokens.empty []
              batch_offset None with
      | Ok (p', _, _) => NoSpeechProcessor p'
      | _ => processor
      end
  | TimestampProcessor _ => processor
  end.

Definition beam_decoder : @BeamDecoder numerics layers := {|
  decode := λ state start_tokens end_id options,
    let logits := (λ _, reverse (seqZ 0 15)) <$> start_tokens in
    let batch_offset := seqZ 0 (Z.of_nat (length start_tokens)) in
    Ok ((λ _, @DecodingResult.Build_t numerics [[11]] [3] [[3]] []) <$> start_tokens,
        call_processor logits batch_offset
          <$> @DecodingOptions.logits_processors numerics options);
  to_max_length := SizeT.wrap;
|}.

(** Insertion of an element before the first one it is ordered before. *)
Fixpoint insert_by {A} (comp : A → A → bool) (x : A) (l : list A) : list A :=
  match l with
  | [] => [x]
  | y :: l' => if comp x y then x :: l else y :: insert_by comp x l'
  end.

Definition algorithm : StdAlgorithm := {|
  std_sort := λ A comp l, foldr (insert_by comp) [] l;
|}.

Definition replica : WhisperReplica.t := @WhisperReplica.new vocabulary.

(** Beam size 1, patience 1, both penalties 1, no n-gram blocking, at most
    448 tokens, greedy sampling at temperature 1, one hypothesis, with
    scores and the no-speech probability, without attention, the first
    timestamp at most one past the first, and the default suppressions. *)
Definition options : @WhisperOptions.t numerics :=
  @WhisperOptions.Build_t numerics 1 1 1 1 0 448 1 1 1 true false true 1 true [-1].

(** A replica of a multilingual model over the same vocabulary. *)
Definition multilingual_replica : WhisperReplica.t := {|
  WhisperReplica._sot_id := 5;
  WhisperReplica._eot_id := 4;
  WhisperReplica._no_timestamps_id := 10;
  WhisperReplica._no_speech_id := 9;
  WhisperReplica._is_multilingual := true;
|}.

(** The timestamp rules of [replica]: the timestamps are the ids 11 to 14
    and the first one is at most 12. *)
Definition rules : ApplyTimestampRules.t :=
  @WhisperReplica.timestamp_rules numerics vocabulary replica options.

(** Two prompts with SOT at position 1 and four task tokens. *)
Definition batch : list (list Z) := [[0; 5; 6; 8; 10; 1]; [2; 5; 7; 8; 10]].

(** One row of logits over the vocabulary. *)
Definition one_row : list (list Z) := [seqZ 0 15].

(** A decoding result with two hypotheses; [y] is the score of the only
    token of the second one. *)
Definition two_hypotheses (y : Z) : @DecodingResult.t numerics :=
  @DecodingResult.Build_t numerics [[11]; [12]] [3; 2] [[3]; [y]] [].

Definition generate (features : nat) (prompts : list (list Z))
    (options : @WhisperOptions.t numerics) :=
  @WhisperReplica.generate numerics vocabulary config layers beam_decoder
    replica features prompts options.

Definition detect_language (self : WhisperReplica.t) (features : nat) :=
  @WhisperReplica.detect_language numerics vocabulary config layers algorithm
    self features.

End Tiny.

(** ** The model class

    [WhisperModel] overrides two predicates on the names of the model
    variables; [Model::is_quantizable] is the predicate of the base class,
    declared outside whisper.cc. *)
Module WhisperModel.
Section defs.
Variable Model_is_quantizable : string → bool.

(** [variable_name.find(pattern) == std::string::npos]: [String.index 0]
    is the position of the first occurrence, as [find] is. *)
Definition not_found (pattern variable_name : string) : bool :=
  bool_decide (String.index 0 pattern variable_name = None).

(** [pattern] occurs somewhere in [variable_name]. *)
Definition occurs (pattern variable_name : string) : Prop :=
  ∃ before after, variable_name = before +:+ pattern +:+ after.

Definition is_quantizable (variable_name : string) : bool :=
  Model_is_quantizable variable_name && not_found "conv" variable_name.

Definition is_linear_weight (variable_name : string) : bool :=
  is_quantizable variable_name && not_found "embeddings" variable_name.

End defs.
End WhisperModel.

(** ** The Python binding

    The property [attention] of a result, in python/cpp/whisper.cc: the
    attention of the first hypothesis, copied row after row into a buffer
    of [dim1 * dim2] floats that becomes an array of that shape. *)
Module PythonBinding.
Section defs.
Context `{!Numerics}.

(** [it = std::copy(v1.begin(), v1.end(), it)]: the state is the buffer and
    the distance of [it] from its start; a write past the end of the buffer
    is undefined. *)
Definition copy_row (v1 : list float) (state : list float * nat)
    : outcome (list float * nat) :=
  let '(flattened, it) := state in
  if bool_decide (it + length v1 ≤ length flattened)%nat
  then Ok (take it flattened ++ v1 ++ drop (it + length v1) flattened,
           (it + length v1)%nat)
  else Undefined.

(** The shape and the data of the array that is returned. *)
Definition attention (result : WhisperGenerationResult.t)
    : outcome (nat * nat * list float) :=
  first ← of_option (WhisperGenerationResult.attention result !! 0%nat);
  first_row ← of_option (first !! 0%nat);
  let dim1 := length first in
  let dim2 := length first_row in
  let flattened := replicate (dim1 * dim2) float_zero in
  '(flattened, _) ← for_fold copy_row first (flattened, 0%nat);
  Ok (dim1, dim2, flattened).

(** The entry [[r, c]] of an array of shape [[dim1, dim2]] over [data]. *)
Definition array_at (array : nat * nat * list float) (r c : nat) : option float :=
  let '(dim1, dim2, data) := array in
  if bool_decide (r < dim1 ∧ c < dim2)%nat then data !! (r * dim2 + c)%nat else None.

End defs.
End PythonBinding.

(** ** Sequences that the timestamp rules let through

    The decoder calls the rules at every step with the tokens generated so
    far and samples a token among the ids that are left enabled. *)
Module SampledSequence.
Section defs.
Context `{!Numerics} `{!DecodingHelpers}.
Import ApplyTimestampRules.

(** [token] can be sampled at [step] for a row whose tokens so far are
    [history]: some call of the rules at that step, on a batch that holds
    the row, leaves it enabled. *)
Definition allowed (self : t) (sample_begin : Z) (history : list Z) (step token : Z)
    : Prop :=
  ∃ logits disable_tokens sequences batch_offset prefix b logits' disable_tokens',
    TimestampRules.well_formed self step sequences logits batch_offset prefix
    ∧ 0 ≤ b < StorageView.dim0 logits
    ∧ get_sample_begin (StorageView.dim0 logits) b batch_offset prefix = sample_begin
    ∧ sequences !! Z.to_nat b = Some history
    ∧ apply self step logits disable_tokens sequences batch_offset prefix
      = Ok (self, logits', disable_tokens')
    ∧ ¬ DisableTokens.disabled disable_tokens' b token.

(** Every token of [row] from [sample_begin] on is an id that was allowed
    when it was sampled. *)
Definition admissible (self : t) (sample_begin : Z) (row : list Z) : Prop :=
  ∀ step token,
    sample_begin ≤ step → row !! Z.to_nat step = Some token →
    SizeT.in_range token
    ∧ allowed self sample_begin (take (Z.to_nat step) row) step token.

End defs.
End SampledSequence.

(** * Properties *)

(** ** Machine integers *)
Module SizeTFacts.
Import SizeT.

Lemma wrap_in_range z : in_range (wrap z).
Proof. unfold in_range, wrap, size_modulus. apply Z.mod_pos_bound. lia. Qed.

Lemma wrap_small z : in_range z → wrap z = z.
Proof. unfold in_range, wrap. intros. by apply Z.mod_small. Qed.

Lemma sub_small a b : 0 ≤ b ≤ a → a < size_modulus → sub a b = a - b.
Proof. intros. unfold sub. apply wrap_small. unfold in_range. lia. Qed.

Lemma add_small a b : 0 ≤ a → 0 ≤ b → a + b < size_modulus → add a b = a + b.
Proof. intros. unfold add. apply wrap_small. unfold in_range. lia. Qed.

Lemma sub_zero_one : sub 0 1 = SIZE_MAX.
Proof. reflexivity. Qed.

End SizeTFacts.

(** ** Outcomes and loops *)

Lemma bind_Ok {A B} (m : outcome A) (f : A → outcome B) (b : B) :
  m ≫= f = Ok b ↔ ∃ a, m = Ok a ∧ f a = Ok b.
Proof.
  destruct m as [a| | |]; simpl; split; try (intros [a' []]); try done.
  - eauto.
  - by simplify_eq.
Qed.

Lemma of_option_Ok {A} (o : option A) (a : A) : of_option o = Ok a ↔ o = Some a.
Proof. destruct o; simpl; split; intros; by simplify_eq. Qed.

(** A loop whose body returns on every element returns the list of the
    results, one per element and in the same order. *)
Lemma for_each_Ok {A B} (f : A → outcome B) (g : A → B) (l : list A) :
  Forall (λ x, f x = Ok (g x)) l → for_each f l = Ok (g <$> l).
Proof.
  induction 1 as [|x l Hx _ IH]; simpl; [done|]. by rewrite Hx, IH.
Qed.

Lemma for_each_inv {A B} (f : A → outcome B) (l : list A) (ys : list B) :
  for_each f l = Ok ys → Forall2 (λ x y, f x = Ok y) l ys.
Proof.
  revert ys. induction l as [|x l IH]; simpl; intros ys Hys.
  - simplify_eq. constructor.
  - apply bind_Ok in Hys as (y & Hy & Hys).
    apply bind_Ok in Hys as (ys' & Hys' & Hys). simplify_eq.
    constructor; auto.
Qed.

Lemma for_each_not_Throw {A B} (f : A → outcome B) (l : list A) (e : exception) :
  (∀ x, f x ≠ Throw e) → for_each f l ≠ Throw e.
Proof.
  intros Hf. induction l as [|x l IH]; simpl; [done|].
  specialize (Hf x). destruct (f x); simpl; try done.
  - destruct (for_each f l); simpl; congruence.
  - intros [= ->]. by apply Hf.
Qed.

Lemma for_fold_app {A S} (body : A → S → outcome S) (l1 l2 : list A) (s : S) :
  for_fold body (l1 ++ l2) s = for_fold body l1 s ≫= for_fold body l2.
Proof.
  revert s. induction l1 as [|x l1 IH]; intros s; simpl; [done|].
  destruct (body x s); simpl; auto.
Qed.

(** ** Prompt analysis *)
Module PromptAnalyzerFacts.
Import PromptAnalyzer.

Lemma std_find_le x prompt : (std_find x prompt ≤ length prompt)%nat.
Proof. induction prompt; simpl; [lia|]. case_bool_decide; lia. Qed.

Lemma std_find_lt x prompt : (std_find x prompt < length prompt)%nat ↔ x ∈ prompt.
Proof.
  induction prompt as [|tok rest IH]; simpl.
  - split; [lia|]. by intros ?%elem_of_nil.
  - rewrite elem_of_cons. case_bool_decide; [split; [auto|lia]|].
    rewrite <- IH. split; [intros; right; lia|intros [->|]; [done|lia]].
Qed.

Lemma std_find_lookup x prompt : x ∈ prompt → prompt !! std_find x prompt = Some x.
Proof.
  induction prompt as [|tok rest IH]; simpl.
  - by intros ?%elem_of_nil.
  - intros [->|Hin]%elem_of_cons; case_bool_decide; simplify_eq/=; auto.
Qed.

Lemma std_find_first x prompt k tok :
  (k < std_find x prompt)%nat → prompt !! k = Some tok → tok ≠ x.
Proof.
  revert k. induction prompt as [|y rest IH]; simpl; intros k Hk Hlook; [lia|].
  case_bool_decide; [lia|]. destruct k as [|k]; simplify_eq/=; [done|].
  apply (IH k); [lia|done].
Qed.

(** The first position of [sot_id] is the only index that the data model
    accepts as [sot_index]. *)
Lemma is_sot_index_iff prompt sot_id i :
  is_sot_index prompt sot_id i ↔ sot_id ∈ prompt ∧ i = std_find sot_id prompt.
Proof.
  split.
  - intros [Hi Hfirst]. assert (sot_id ∈ prompt) as Hin by (by eapply list_elem_of_lookup_2).
    split; [done|].
    destruct (Nat.lt_total i (std_find sot_id prompt)) as [Hlt|[->|Hgt]]; [|done|].
    + by destruct (std_find_first _ _ _ _ Hlt Hi).
    + by destruct (Hfirst _ _ Hgt (std_find_lookup _ _ Hin)).
  - intros [Hin ->]. split; [by apply std_find_lookup|].
    intros k tok Hk Hlook. by eapply std_find_first.
Qed.

Lemma get_sot_index_found prompt sot_id :
  sot_id ∈ prompt → get_sot_index prompt sot_id = Ok (std_find sot_id prompt).
Proof.
  intros Hin%std_find_lt. unfold get_sot_index. case_bool_decide; [lia|done].
Qed.

Lemma get_sot_index_missing prompt sot_id :
  sot_id ∉ prompt → is_invalid_argument (get_sot_index prompt sot_id).
Proof.
  intros Hin. unfold get_sot_index. case_bool_decide; [by eexists|].
  destruct Hin. apply std_find_lt. pose proof (std_find_le sot_id prompt). lia.
Qed.

(** The loop of [get_prompt_length], on the tokens it has not read yet. *)
Lemma skip_task_tokens_spec sot_id no_timestamps_id rest index :
  let n := skip_task_tokens sot_id no_timestamps_id rest index in
  (index ≤ n ≤ index + length rest)%nat
  ∧ (∀ k, (index ≤ k < n)%nat →
       ∃ tok, rest !! (k - index)%nat = Some tok ∧ task_token sot_id no_timestamps_id tok)
  ∧ ((n < index + length rest)%nat →
       ∃ tok, rest !! (n - index)%nat = Some tok ∧ ¬ task_token sot_id no_timestamps_id tok).
Proof.
  revert index. induction rest as [|tok rest IH]; intros index; simpl.
  - repeat split; intros; lia.
  - destruct (bool_decide (sot_id ≤ tok) && bool_decide (tok ≤ no_timestamps_id)) eqn:Htask.
    + apply andb_prop in Htask as [?%bool_decide_eq_true ?%bool_decide_eq_true].
      destruct (IH (S index)) as (Hbound & Hin & Hout). split; [lia|]. split.
      * intros k Hk. destruct (decide (k = index)) as [->|].
        { rewrite Nat.sub_diag. exists tok. by split. }
        destruct (Hin k) as (tok' & Hlook & ?); [lia|]. exists tok'. split; [|done].
        by replace (k - index)%nat with (S (k - S index)) by lia.
      * intros Hlt. destruct Hout as (tok' & Hlook & ?); [lia|]. exists tok'. split; [|done].
        by replace (skip_task_tokens sot_id no_timestamps_id rest (S index) - index)%nat
          with (S (skip_task_tokens sot_id no_timestamps_id rest (S index) - S index)) by lia.
    + split; [lia|]. split; [intros; lia|]. intros _. rewrite Nat.sub_diag. exists tok.
      split; [done|]. unfold task_token. intros [? ?].
      apply andb_false_iff in Htask as [?%bool_decide_eq_false| ?%bool_decide_eq_false]; lia.
Qed.


Lemma is_prompt_length_skip prompt sot_id no_timestamps_id index :
  (index ≤ length prompt)%nat →
  is_prompt_length prompt sot_id no_timestamps_id index
    (skip_task_tokens sot_id no_timestamps_id (drop index prompt) index).
Proof.
  intros Hle.
  destruct (skip_task_tokens_spec sot_id no_timestamps_id (drop index prompt) index)
    as (Hbound & Hin & Hout).
  rewrite length_drop in Hbound, Hout. split; [lia|]. split.
  - intros k Hk. destruct (Hin k Hk) as (tok & Hlook & ?). exists tok. split; [|done].
    rewrite lookup_drop in Hlook. by replace (index + (k - index))%nat with k in Hlook by lia.
  - intros Hlt. destruct Hout as (tok & Hlook & ?); [lia|]. exists tok. split; [|done].
    rewrite lookup_drop in Hlook.
    by replace (index + (skip_task_tokens sot_id no_timestamps_id (drop index prompt) index
                         - index))%nat
      with (skip_task_tokens sot_id no_timestamps_id (drop index prompt) index)
      in Hlook by lia.
Qed.

Lemma is_prompt_length_unique prompt sot_id no_timestamps_id index n m :
  is_prompt_length prompt sot_id no_timestamps_id index n →
  is_prompt_length prompt sot_id no_timestamps_id index m → n = m.
Proof.
  intros (Hn & Hn_in & Hn_out) (Hm & Hm_in & Hm_out).
  destruct (Nat.lt_total n m) as [Hlt|[->|Hgt]]; [|done|].
  - destruct Hn_out as (tok & Hlook & Hno); [lia|].
    destruct (Hm_in n) as (tok' & Hlook' & ?); [lia|]. by simplify_eq.
  - destruct Hm_out as (tok & Hlook & Hno); [lia|].
    destruct (Hn_in m) as (tok' & Hlook' & ?); [lia|]. by simplify_eq.
Qed.

(** The pair computed by the code is the pair of the data model. *)
Lemma derived_indices_iff prompt sot_id no_timestamps_id i n :
  derived_indices prompt sot_id no_timestamps_id i n
  ↔ sot_id ∈ prompt ∧ prompt_pair prompt sot_id no_timestamps_id = (i, n).
Proof.
  unfold derived_indices, prompt_pair. rewrite is_sot_index_iff. split.
  - intros [[Hin ->] Hlen]. split; [done|]. f_equal.
    eapply is_prompt_length_unique; [|done].
    apply is_prompt_length_skip, std_find_le.
  - intros [Hin [= <- <-]]. split; [done|]. apply is_prompt_length_skip, std_find_le.
Qed.

Lemma get_prompt_length_found prompt sot_id no_timestamps_id :
  sot_id ∈ prompt →
  get_prompt_length prompt sot_id no_timestamps_id
  = Ok (prompt_pair prompt sot_id no_timestamps_id).2.
Proof. intros Hin. unfold get_prompt_length. by rewrite get_sot_index_found. Qed.

(** The loop of [check_prompts] after the first prompt: it returns the pair
    of the first prompt when every prompt has it, and throws otherwise. *)
Lemma check_prompts_from_rest prompts sot_id no_timestamps_id si pl :
  let r := check_prompts_from prompts sot_id no_timestamps_id false si pl in
  (r = Ok (si, pl)
   ∧ Forall (λ prompt, sot_id ∈ prompt
                       ∧ prompt_pair prompt sot_id no_timestamps_id = (si, pl)) prompts)
  ∨ (is_invalid_argument r
     ∧ Exists (λ prompt, sot_id ∉ prompt
                         ∨ prompt_pair prompt sot_id no_timestamps_id ≠ (si, pl)) prompts).
Proof.
  induction prompts as [|prompt rest IH]; simpl.
  - left. by split.
  - destruct (decide (sot_id ∈ prompt)) as [Hin|Hin].
    + rewrite get_sot_index_found, get_prompt_length_found by done. simpl.
      repeat case_bool_decide.
      * right. split; [by eexists|]. left. right. unfold prompt_pair. congruence.
      * right. split; [by eexists|]. left. right. unfold prompt_pair. congruence.
      * destruct IH as [[-> Hall]|[Hthrow Hex]].
        -- left. split; [done|]. constructor; [|done]. split; [done|].
           unfold prompt_pair. simpl. congruence.
        -- right. split; [done|]. by right.
    + right. destruct (get_sot_index_missing _ _ Hin) as [what ->]. simpl.
      split; [by eexists|]. left. by left.
Qed.

(** C5. Prompt analysis over a batch throws invalid-argument exactly when a
    prompt lacks the SOT token or a later prompt's [sot_index] or
    [prompt_length] differs from the first prompt's; otherwise it returns
    the pair common to all prompts, where [sot_index] is the position of
    the first SOT token and [prompt_length] is the smallest index
    [>= sot_index] whose token lies outside [[sot_id, no_timestamps_id]], or
    the prompt's length if there is no such index. On an empty batch it
    returns the two values it was given. *)
Theorem check_prompts_spec (prompts : list (list Z)) (sot_id no_timestamps_id : Z)
    (sot_index0 prompt_length0 : nat) :
  let r := check_prompts prompts sot_id no_timestamps_id sot_index0 prompt_length0 in
  let lacks_sot := Exists (λ prompt, sot_id ∉ prompt) prompts in
  let differs :=
    ∃ first rest si pl,
      prompts = first :: rest
      ∧ derived_indices first sot_id no_timestamps_id si pl
      ∧ Exists (λ prompt, ∃ si' pl',
                  derived_indices prompt sot_id no_timestamps_id si' pl'
                  ∧ (si' ≠ si ∨ pl' ≠ pl)) rest in
  (is_invalid_argument r ↔ lacks_sot ∨ differs)
  ∧ (¬ (lacks_sot ∨ differs) → ∀ first rest, prompts = first :: rest →
       ∃ si pl, r = Ok (si, pl)
                ∧ Forall (λ prompt, derived_indices prompt sot_id no_timestamps_id si pl)
                         prompts)
  ∧ (prompts = [] → r = Ok (sot_index0, prompt_length0)).
Proof.
  intros r lacks_sot differs. subst r lacks_sot differs.
  destruct prompts as [|first rest].
  { split; [|split; [intros _ ? ? [=]|done]]. split.
    - intros [what [=]].
    - intros [Hex%Exists_nil|(? & ? & ? & ? & [=] & _)]; done. }
  unfold check_prompts. simpl.
  destruct (decide (sot_id ∈ first)) as [Hin|Hin]; last first.
  { destruct (get_sot_index_missing _ _ Hin) as [what ->]. simpl.
    split; [|split; [|done]].
    - split; [intros _; left; by left|intros _; by eexists].
    - intros []. left. by left. }
  rewrite get_sot_index_found, get_prompt_length_found by done. simpl.
  set (si := std_find sot_id first).
  set (pl := skip_task_tokens sot_id no_timestamps_id (drop si first) si).
  assert (derived_indices first sot_id no_timestamps_id si pl) as Hfirst
    by (by apply derived_indices_iff).
  destruct (check_prompts_from_rest rest sot_id no_timestamps_id si pl)
    as [[-> Hall]|[Hthrow Hex]].
  - split; [|split; [|done]].
    + split; [intros [what [=]]|]. intros [Hlack|(f & r & si' & pl' & [= <- <-] & Hf & Hd)].
      * apply Exists_cons in Hlack as [?|Hlack]; [done|].
        apply Exists_exists in Hlack as (prompt & Hp & ?).
        rewrite Forall_forall in Hall. by destruct (Hall _ Hp).
      * apply derived_indices_iff in Hf as [_ Hf]. apply derived_indices_iff in Hfirst as [_ Hp].
        rewrite Hf in Hp. simplify_eq.
        apply Exists_exists in Hd as (prompt & Hp & si' & pl' & Hd & Hne).
        rewrite Forall_forall in Hall. destruct (Hall _ Hp) as [_ Heq].
        apply derived_indices_iff in Hd as [_ Hd]. rewrite Heq in Hd. simplify_eq.
        by destruct Hne.
    + intros _ f r [= <- <-]. exists si, pl. split; [done|]. constructor; [done|].
      eapply Forall_impl; [done|]. intros prompt ?. by apply derived_indices_iff.
  - assert (Exists (λ prompt, sot_id ∉ prompt) (first :: rest)
            ∨ ∃ f r si' pl', first :: rest = f :: r
                ∧ derived_indices f sot_id no_timestamps_id si' pl'
                ∧ Exists (λ prompt, ∃ si'' pl'',
                            derived_indices prompt sot_id no_timestamps_id si'' pl''
                            ∧ (si'' ≠ si' ∨ pl'' ≠ pl')) r) as Hbad.
    { destruct (decide (Exists (λ prompt, sot_id ∉ prompt) rest)) as [?|Hno].
      { left. by right. }
      right. exists first, rest, si, pl. split; [done|]. split; [done|].
      apply Exists_exists in Hex as (prompt & Hp & Hbad).
      apply Exists_exists. exists prompt. split; [done|].
      destruct Hbad as [Hlack|Hne].
      { destruct Hno. apply Exists_exists. eauto. }
      assert (sot_id ∈ prompt) as Hin'.
      { destruct (decide (sot_id ∈ prompt)); [done|]. destruct Hno.
        apply Exists_exists. eauto. }
      destruct (prompt_pair prompt sot_id no_timestamps_id) as [si' pl'] eqn:Hpair.
      exists si', pl'. split; [by apply derived_indices_iff|].
      destruct (decide (si' = si)) as [->|]; [|by left]. right. congruence. }
    split; [|split; [|done]].
    + split; [done|]. done.
    + intros Hgood. by destruct Hgood.
Qed.

End PromptAnalyzerFacts.

(** ** The accumulator of disabled tokens *)
Module DisableTokensFacts.
Section facts.
Context `{!Numerics}.
Import DisableTokens.

Lemma disabled_add batch_id token_id self b i :
  disabled (add batch_id token_id self) b i
  ↔ (b = batch_id ∧ i = token_id) ∨ disabled self b i.
Proof.
  unfold disabled, add. simpl. rewrite elem_of_cons. split.
  - intros [[= -> ->]|?]; auto.
  - intros [[-> ->]|?]; auto.
Qed.

Lemma disabled_add_all batch_id token_ids self b i :
  disabled (add_all batch_id token_ids self) b i
  ↔ (b = batch_id ∧ i ∈ token_ids) ∨ disabled self b i.
Proof.
  unfold add_all. revert self.
  induction token_ids as [|x l IH]; intros self; simpl.
  - split; [auto|]. by intros [[_ ?%elem_of_nil]|?].
  - rewrite IH, disabled_add, elem_of_cons. split.
    + intros [[-> ?]|[[-> ->]|?]]; auto.
    + intros [[-> [->|?]]|?]; auto.
Qed.

Lemma length_apply self (logits : list (list float)) :
  length (apply self logits) = length logits.
Proof. unfold apply. by rewrite length_imap. Qed.

(** [apply] writes minus infinity at the disabled positions and keeps the
    other entries. *)
Lemma lookup_apply self (logits : list (list float)) (b i : nat) :
  apply self logits !! b ≫= (.!! i)
  = (λ x, if bool_decide (disabled self (Z.of_nat b) (Z.of_nat i))
          then minus_infinity else x) <$> (logits !! b ≫= (.!! i)).
Proof.
  unfold apply, mask_row. rewrite list_lookup_imap.
  destruct (logits !! b) as [row|]; simpl; [|done].
  rewrite list_lookup_imap. by destruct (row !! i).
Qed.

Lemma length_apply_row self (logits : list (list float)) (b : nat) row :
  apply self logits !! b = Some row →
  ∃ row0, logits !! b = Some row0 ∧ length row = length row0.
Proof.
  unfold apply, mask_row. rewrite list_lookup_imap.
  destruct (logits !! b) as [row0|]; simpl; [|done].
  intros [= <-]. exists row0. by rewrite length_imap.
Qed.

End facts.
End DisableTokensFacts.

Lemma elem_of_ids_below first bound i : i ∈ ids_below first bound ↔ first ≤ i < bound.
Proof. unfold ids_below. rewrite elem_of_seqZ. lia. Qed.

Lemma ids_through_Ok first last :
  last < SizeT.SIZE_MAX →
  ∃ l, ids_through first last = Ok l ∧ ∀ i, i ∈ l ↔ first ≤ i ≤ last.
Proof.
  intros Hlast. unfold ids_through. case_bool_decide; [lia|].
  eexists. split; [done|]. intros i. rewrite elem_of_seqZ. lia.
Qed.

Lemma for_fold_cons {A S} (body : A → S → outcome S) (x : A) (l : list A) (s : S) :
  for_fold body (x :: l) s = body x s ≫= for_fold body l.
Proof. reflexivity. Qed.

(** Case analysis on the first test of the goal. *)
Ltac case_test :=
  match goal with
  | |- context [bool_decide ?P] =>
      destruct (decide P);
      [rewrite (bool_decide_eq_true_2 P) by done
      |rewrite (bool_decide_eq_false_2 P) by done]
  end.

(** ** The timestamp rules *)
Module ApplyTimestampRulesFacts.
Section facts.
Context `{!Numerics} `{!DecodingHelpers}.
Import ApplyTimestampRules TimestampRules DisableTokensFacts.

Variables (self : ApplyTimestampRules.t) (sequences : list (list Z)).

Lemma token_at_Ok b t token :
  StorageView.at2 sequences b t = Ok token →
  token_at sequences b t = Ok (SizeT.wrap token).
Proof. unfold token_at. by intros ->. Qed.

Lemma token_at_defined b t :
  (∃ token, StorageView.at2 sequences b t = Ok token) →
  ∃ token, token_at sequences b t = Ok token.
Proof. intros [token ?%token_at_Ok]. eauto. Qed.

Lemma closed_pair_iff step sample_begin b last penultimate :
  last_token step sequences b last →
  penultimate_token step sequences sample_begin b penultimate →
  closed_pair self step sequences sample_begin b
  ↔ is_timestamp self last ∧ is_timestamp self penultimate.
Proof.
  unfold closed_pair, last_token, penultimate_token. intros Hlast Hpen. split.
  - intros (last' & pen' & Hlast' & Hpen' & ? & ?).
    assert (last' = last) as -> by congruence.
    assert (pen' = penultimate) as ->
      by (destruct (decide (step - 1 > sample_begin)); congruence).
    done.
  - intros []. by exists last, penultimate.
Qed.

Lemma open_pair_iff step sample_begin b last penultimate :
  last_token step sequences b last →
  penultimate_token step sequences sample_begin b penultimate →
  open_pair self step sequences sample_begin b
  ↔ is_timestamp self last ∧ ¬ is_timestamp self penultimate.
Proof.
  unfold open_pair, last_token, penultimate_token. intros Hlast Hpen. split.
  - intros (last' & pen' & Hlast' & Hpen' & ? & ?).
    assert (last' = last) as -> by congruence.
    assert (pen' = penultimate) as ->
      by (destruct (decide (step - 1 > sample_begin)); congruence).
    done.
  - intros []. by exists last, penultimate.
Qed.

(** The scan from the newest token down: it adds the timestamps below the
    most recent timestamp of the window, and nothing when the window has no
    timestamp. *)
Lemma forbid_decreasing_spec b remaining t disable_tokens :
  (∀ t', t - Z.of_nat remaining < t' ≤ t →
         ∃ token, StorageView.at2 sequences b t' = Ok token) →
  ∃ disable_tokens',
    forbid_decreasing self sequences b remaining t disable_tokens = Ok disable_tokens'
    ∧ ∀ b' i,
        DisableTokens.disabled disable_tokens' b' i
        ↔ DisableTokens.disabled disable_tokens b' i
          ∨ (b' = b
             ∧ ∃ token,
                 most_recent_timestamp self (t + 1) sequences
                   (t + 1 - Z.of_nat remaining) b token
                 ∧ _timestamp_begin_id self ≤ i < token).
Proof.
  revert t. induction remaining as [|remaining IH]; intros t Hdef; simpl.
  - eexists. split; [done|]. intros b' i. split; [auto|].
    intros [?|[_ (token & (t0 & ? & _) & _)]]; [done|lia].
  - destruct (token_at_defined b t) as [token Htoken]; [apply Hdef; lia|].
    rewrite Htoken. simpl. case_bool_decide as Hts.
    + eexists. split; [done|]. intros b' i.
      rewrite disabled_add_all, elem_of_ids_below. split.
      * intros [[-> ?]|?]; [|by left]. right. split; [done|]. exists token. split; [|done].
        exists t. split; [lia|]. split; [done|]. split; [done|]. intros; lia.
      * intros [?|[-> (token' & (t0 & Ht0 & Htok0 & _ & Hnewer) & ?)]]; [by right|].
        left. split; [done|]. destruct (decide (t0 = t)) as [->|]; [by replace token with token' by congruence|].
        destruct (Hnewer t token); [lia|done|done].
    + destruct (IH (t - 1)) as (dt' & Hdt' & Hspec); [intros; apply Hdef; lia|].
      exists dt'. split; [done|]. intros b' i. rewrite Hspec.
      replace (t - 1 + 1) with t by lia.
      replace (t + 1 - Z.of_nat (S remaining)) with (t - Z.of_nat remaining) by lia.
      replace (t - 1 + 1 - Z.of_nat remaining) with (t - Z.of_nat remaining) by lia.
      split.
      * intros [?|[-> (token' & (t0 & Ht0 & Htok0 & ? & Hnewer) & ?)]]; [by left|].
        right. split; [done|]. exists token'. split; [|done].
        exists t0. split; [lia|]. split; [done|]. split; [done|].
        intros t' tok' Ht' Htok'. destruct (decide (t' = t)) as [->|].
        -- by replace tok' with token by congruence.
        -- apply (Hnewer t' tok'); [lia|done].
      * intros [?|[-> (token' & (t0 & Ht0 & Htok0 & ? & Hnewer) & ?)]]; [by left|].
        right. split; [done|]. exists token'. split; [|done].
        destruct (decide (t0 = t)) as [->|];
          [by replace token with token' in Hts by congruence|].
        exists t0. split; [lia|]. split; [done|]. split; [done|].
        intros t' tok' Ht' Htok'. apply (Hnewer t' tok'); [lia|done].
Qed.

(** One turn of the loop over the rows: what it adds is what the rules
    say for the row, and the row is pushed to the list of the mass check
    exactly when the rules mark it. *)
Lemma apply_row_spec step batch_offset prefix batch_size b sample_begin disable_tokens check :
  get_sample_begin batch_size b batch_offset prefix = sample_begin →
  _timestamp_end_id self < SizeT.SIZE_MAX →
  (∀ t, sample_begin ≤ t < step → ∃ token, StorageView.at2 sequences b t = Ok token) →
  ∃ disable_tokens' check',
    apply_row self step sequences batch_offset prefix batch_size b (disable_tokens, check)
    = Ok (disable_tokens', check')
    ∧ (∀ b' i,
         DisableTokens.disabled disable_tokens' b' i
         ↔ DisableTokens.disabled disable_tokens b' i
           ∨ (b' = b ∧ row_ids self step sequences sample_begin b i))
    ∧ ((marked self step sequences sample_begin b ∧ check' = check ++ [b])
       ∨ (¬ marked self step sequences sample_begin b ∧ check' = check)).
Proof.
  intros Hsb Hend Hdef. unfold apply_row. rewrite Hsb.
  case_test; [|case_test].
  - destruct (ids_through_Ok (SizeT.add (_max_initial_timestamp_id self) 1)
                (_timestamp_end_id self) Hend) as (late & -> & Hlate). simpl.
    eexists _, _. split; [done|]. split.
    + intros b' i. rewrite !disabled_add_all, disabled_add, elem_of_ids_below, Hlate.
      unfold row_ids, first_step_ids. intuition (subst; auto; lia).
    + right. split; [|done]. unfold marked. lia.
  - destruct (token_at_defined b (step - 1)) as [last Hlast]; [apply Hdef; lia|].
    rewrite Hlast. simpl.
    assert (∃ penultimate,
              (if bool_decide (step - 1 > sample_begin)
               then token_at sequences b (step - 2) else Ok last) = Ok penultimate
              ∧ penultimate_token step sequences sample_begin b penultimate)
      as (penultimate & Hpen_eq & Hpen).
    { unfold penultimate_token. case_bool_decide.
      - destruct (token_at_defined b (step - 2)) as [pen Hpen]; [apply Hdef; lia|].
        exists pen. split; [done|]. by rewrite decide_True by done.
      - exists last. split; [done|]. by rewrite decide_False by done. }
    pose proof (closed_pair_iff step sample_begin b last penultimate Hlast Hpen) as Hclosed.
    pose proof (open_pair_iff step sample_begin b last penultimate Hlast Hpen) as Hopen.
    destruct (ids_through_Ok (_timestamp_begin_id self) (_timestamp_end_id self) Hend)
      as (timestamps & Htimestamps & Hts).
    assert (∀ dt, ∃ dt',
              forbid_decreasing self sequences b (Z.to_nat (step - sample_begin))
                (step - 1) dt = Ok dt'
              ∧ ∀ b' i,
                  DisableTokens.disabled dt' b' i
                  ↔ DisableTokens.disabled dt b' i
                    ∨ (b' = b
                       ∧ ∃ token, most_recent_timestamp self step sequences sample_begin b token
                                  ∧ _timestamp_begin_id self ≤ i < token)) as Hscan.
    { intros dt.
      destruct (forbid_decreasing_spec b (Z.to_nat (step - sample_begin)) (step - 1) dt)
        as (dt' & Hdt' & Hspec); [intros; apply Hdef; lia|].
      exists dt'. split; [done|]. intros b' i. rewrite Hspec.
      replace (step - 1 + 1) with step by lia.
      by replace (step - Z.of_nat (Z.to_nat (step - sample_begin))) with sample_begin by lia. }
    unfold is_timestamp in *.
    case_test; [rewrite Hpen_eq; simpl; case_test|].
    + rewrite Htimestamps. simpl.
      edestruct Hscan as (dt' & -> & Hdt'). simpl. eexists _, _. split; [done|]. split.
      * intros b' i. rewrite Hdt', disabled_add_all, disabled_add, Hts.
        unfold row_ids, later_step_ids. rewrite Hclosed, Hopen.
        intuition (subst; auto; try lia).
      * right. split; [|done]. unfold marked. rewrite Hclosed. tauto.
    + simpl. edestruct Hscan as (dt' & -> & Hdt'). simpl. eexists _, _. split; [done|]. split.
      * intros b' i. rewrite Hdt', disabled_add_all, disabled_add, elem_of_ids_below.
        unfold row_ids, later_step_ids. rewrite Hclosed, Hopen.
        intuition (subst; auto; try lia).
      * left. split; [|done]. unfold marked. rewrite Hclosed. split; [lia|tauto].
    + simpl. edestruct Hscan as (dt' & -> & Hdt'). simpl. eexists _, _. split; [done|]. split.
      * intros b' i. rewrite Hdt', disabled_add.
        unfold row_ids, later_step_ids. rewrite Hclosed, Hopen.
        intuition (subst; auto; try lia).
      * left. split; [|done]. unfold marked. rewrite Hclosed. split; [lia|tauto].
  - eexists _, _. split; [done|]. split.
    + intros b' i. rewrite disabled_add. unfold row_ids. intuition (subst; auto; lia).
    + right. split; [|done]. unfold marked. lia.
Qed.

(** The loop over the rows. *)
Lemma apply_rows_from step batch_offset prefix batch_size rows disable_tokens check :
  _timestamp_end_id self < SizeT.SIZE_MAX →
  (∀ b t, b ∈ rows →
          get_sample_begin batch_size b batch_offset prefix ≤ t < step →
          ∃ token, StorageView.at2 sequences b t = Ok token) →
  ∃ disable_tokens' check',
    for_fold (apply_row self step sequences batch_offset prefix batch_size) rows
             (disable_tokens, check)
    = Ok (disable_tokens', check')
    ∧ (∀ b i,
         DisableTokens.disabled disable_tokens' b i
         ↔ DisableTokens.disabled disable_tokens b i
           ∨ (b ∈ rows
              ∧ row_ids self step sequences
                  (get_sample_begin batch_size b batch_offset prefix) b i))
    ∧ (∀ b, b ∈ check'
            ↔ b ∈ check
              ∨ (b ∈ rows
                 ∧ marked self step sequences
                     (get_sample_begin batch_size b batch_offset prefix) b)).
Proof.
  intros Hend. revert disable_tokens check.
  induction rows as [|row rows IH]; intros disable_tokens check Hdef.
  - eexists _, _. split; [done|]. split.
    + intros b i. split; [auto|]. by intros [?|[?%elem_of_nil _]].
    + intros b. split; [auto|]. by intros [?|[?%elem_of_nil _]].
  - rewrite for_fold_cons. destruct (apply_row_spec step batch_offset prefix batch_size row _ disable_tokens check
                eq_refl Hend) as (dt1 & check1 & -> & Hdt1 & Hcheck1).
    { intros t Ht. apply Hdef; [by left|done]. }
    simpl. destruct (IH dt1 check1) as (dt2 & check2 & -> & Hdt2 & Hcheck2).
    { intros b t Hb Ht. apply Hdef; [by right|done]. }
    eexists _, _. split; [done|]. split.
    + intros b i. rewrite Hdt2, Hdt1, elem_of_cons. split.
      * intros [[?|[-> ?]]|[? ?]]; auto.
      * intros [?|[[->|?] ?]]; auto.
    + intros b. rewrite Hcheck2, elem_of_cons.
      destruct Hcheck1 as [[Hmarked ->]|[Hmarked ->]].
      * rewrite elem_of_app, list_elem_of_singleton. split.
        -- intros [[?| ->]|[? ?]]; auto.
        -- intros [?|[[->|?] ?]]; auto.
      * split.
        -- intros [?|[? ?]]; auto.
        -- intros [?|[[->|?] ?]]; [auto|done|auto].
Qed.

(** [should_sample_timestamp] compares the mass of the timestamps with the
    best text token of the row. *)
Lemma should_sample_timestamp_spec log_probs b row :
  0 ≤ _timestamp_begin_id self ≤ _timestamp_end_id self + 1 →
  _timestamp_end_id self < SizeT.SIZE_MAX →
  0 ≤ b → log_probs !! Z.to_nat b = Some row →
  _timestamp_end_id self + 1 ≤ Z.of_nat (length row) →
  should_sample_timestamp self log_probs b
  = Ok (float_gt (timestamp_log_prob self row) (max_text_log_prob self row)).
Proof.
  intros Hrange Hend Hb Hrow Hwidth. unfold should_sample_timestamp, StorageView.at1.
  rewrite bool_decide_eq_true_2 by done. rewrite Hrow. simpl.
  assert (SizeT.add (SizeT.sub (_timestamp_end_id self) (_timestamp_begin_id self)) 1
          = _timestamp_end_id self - _timestamp_begin_id self + 1) as ->.
  { unfold SizeT.add, SizeT.sub, SizeT.wrap, SizeT.SIZE_MAX in *.
    destruct (decide (_timestamp_begin_id self = _timestamp_end_id self + 1)) as [->|].
    - replace (_timestamp_end_id self - (_timestamp_end_id self + 1)) with (-1) by lia.
      replace (_timestamp_end_id self - (_timestamp_end_id self + 1) + 1) with 0 by lia.
      reflexivity.
    - rewrite (Z.mod_small (_ - _)) by lia. apply Z.mod_small. lia. }
  rewrite bool_decide_eq_true_2 by lia. done.
Qed.

Lemma check_row_spec log_probs b row disable_tokens :
  0 ≤ _timestamp_begin_id self ≤ _timestamp_end_id self + 1 →
  _timestamp_end_id self < SizeT.SIZE_MAX →
  0 ≤ b → log_probs !! Z.to_nat b = Some row →
  _timestamp_end_id self + 1 ≤ Z.of_nat (length row) →
  check_row self log_probs b disable_tokens
  = Ok (if float_gt (timestamp_log_prob self row) (max_text_log_prob self row)
        then DisableTokens.add_all b (ids_below 0 (_timestamp_begin_id self)) disable_tokens
        else disable_tokens).
Proof.
  intros. unfold check_row.
  rewrite (should_sample_timestamp_spec log_probs b row) by done. simpl.
  by destruct (float_gt _ _).
Qed.

(** The loop over the marked rows. *)
Lemma mass_check_spec log_probs check disable_tokens :
  0 ≤ _timestamp_begin_id self ≤ _timestamp_end_id self + 1 →
  _timestamp_end_id self < SizeT.SIZE_MAX →
  (∀ b, b ∈ check →
        0 ≤ b ∧ ∃ row, log_probs !! Z.to_nat b = Some row
                       ∧ _timestamp_end_id self + 1 ≤ Z.of_nat (length row)) →
  ∃ disable_tokens',
    for_fold (check_row self log_probs) check disable_tokens = Ok disable_tokens'
    ∧ ∀ b i,
        DisableTokens.disabled disable_tokens' b i
        ↔ DisableTokens.disabled disable_tokens b i
          ∨ (b ∈ check
             ∧ ∃ row, log_probs !! Z.to_nat b = Some row
                      ∧ float_gt (timestamp_log_prob self row) (max_text_log_prob self row)
                        = true
                      ∧ 0 ≤ i < _timestamp_begin_id self).
Proof.
  intros Hrange Hend. revert disable_tokens.
  induction check as [|b0 check IH]; intros disable_tokens Hrows.
  - eexists. split; [done|]. intros b i. split; [auto|].
    by intros [?|[?%elem_of_nil _]].
  - destruct (Hrows b0) as (Hb0 & row & Hrow & Hwidth); [by left|].
    rewrite for_fold_cons, (check_row_spec log_probs b0 row) by done.
    destruct (float_gt (timestamp_log_prob self row) (max_text_log_prob self row)) eqn:Hgt.
    + simpl. edestruct IH as (dt' & -> & Hdt'); [intros; apply Hrows; by right|].
      eexists. split; [done|]. intros b i.
      rewrite Hdt', disabled_add_all, elem_of_ids_below, elem_of_cons. split.
      * intros [[[-> ?]|?]|[? ?]]; eauto 10.
      * intros [?|[[->|?] (row' & Hrow' & ? & ?)]]; eauto 10.
    + simpl. edestruct IH as (dt' & -> & Hdt'); [intros; apply Hrows; by right|].
      eexists. split; [done|]. intros b i. rewrite Hdt', elem_of_cons. split.
      * intros [?|[? ?]]; auto.
      * intros [?|[[->|?] (row' & Hrow' & Hgt' & ?)]].
        -- auto.
        -- rewrite Hrow in Hrow'. simplify_eq. congruence.
        -- right. eauto 10.
Qed.

(** The whole call: the loop over the rows, then the mass check on the
    log-softmax of the masked logits when a row is marked. *)
Lemma apply_spec step logits disable_tokens batch_offset prefix :
  well_formed self step sequences logits batch_offset prefix →
  ∃ after_rows check logits' disable_tokens',
    apply_rows self step logits disable_tokens sequences batch_offset prefix
    = Ok (after_rows, check)
    ∧ apply self step logits disable_tokens sequences batch_offset prefix
      = Ok (self, logits', disable_tokens')
    ∧ (∀ b i,
         DisableTokens.disabled after_rows b i
         ↔ DisableTokens.disabled disable_tokens b i
           ∨ (0 ≤ b < StorageView.dim0 logits
              ∧ row_ids self step sequences
                  (get_sample_begin (StorageView.dim0 logits) b batch_offset prefix) b i))
    ∧ (∀ b, b ∈ check
            ↔ 0 ≤ b < StorageView.dim0 logits
              ∧ marked self step sequences
                  (get_sample_begin (StorageView.dim0 logits) b batch_offset prefix) b)
    ∧ (check = [] → logits' = logits ∧ disable_tokens' = after_rows)
    ∧ (check ≠ [] →
       logits' = DisableTokens.apply after_rows logits
       ∧ ∀ b i,
           DisableTokens.disabled disable_tokens' b i
           ↔ DisableTokens.disabled after_rows b i
             ∨ (b ∈ check
                ∧ ∃ row, (LogSoftMax <$> logits') !! Z.to_nat b = Some row
                         ∧ float_gt (timestamp_log_prob self row)
                                    (max_text_log_prob self row) = true
                         ∧ 0 ≤ i < _timestamp_begin_id self)).
Proof.
  intros (Hrange & Hend & Hwidth & Hlsm & Hdef).
  destruct (apply_rows_from step batch_offset prefix (StorageView.dim0 logits)
              (ids_below 0 (StorageView.dim0 logits)) disable_tokens [] Hend)
    as (after_rows & check & Hrows & Hids & Hcheck).
  { intros b t Hb%elem_of_ids_below Ht. by apply Hdef. }
  assert (∀ b, b ∈ check
               ↔ 0 ≤ b < StorageView.dim0 logits
                 ∧ marked self step sequences
                     (get_sample_begin (StorageView.dim0 logits) b batch_offset prefix) b)
    as Hcheck'.
  { intros b. rewrite Hcheck, elem_of_ids_below. split.
    - by intros [?%elem_of_nil|?].
    - auto. }
  exists after_rows, check. unfold apply, apply_rows. rewrite Hrows. simpl.
  destruct (decide (check = [])) as [->|Hne].
  - rewrite bool_decide_eq_false_2 by (by intros []).
    eexists _, _. split; [done|]. split; [done|]. split.
    { intros b i. by rewrite Hids, elem_of_ids_below. }
    split; [done|]. split; [done|]. by intros [].
  - rewrite bool_decide_eq_true_2 by done.
    destruct (mass_check_spec (LogSoftMax <$> DisableTokens.apply after_rows logits)
                check after_rows Hrange Hend) as (dt' & -> & Hdt').
    { intros b [Hb _]%Hcheck'. split; [lia|]. unfold StorageView.dim0 in Hb.
      destruct (lookup_lt_is_Some_2 logits (Z.to_nat b)) as [row0 Hrow0]; [lia|].
      exists (LogSoftMax (DisableTokens.mask_row after_rows (Z.of_nat (Z.to_nat b)) row0)).
      split.
      - rewrite list_lookup_fmap. unfold DisableTokens.apply.
        by rewrite list_lookup_imap, Hrow0.
      - rewrite Hlsm. unfold DisableTokens.mask_row. rewrite length_imap.
        apply Hwidth. by eapply list_elem_of_lookup_2. }
    simpl. eexists _, _. split; [done|]. split; [done|]. split.
    { intros b i. by rewrite Hids, elem_of_ids_below. }
    split; [done|]. split; [done|]. intros _. split; [done|]. done.
Qed.

(** What a call leaves disabled in one row: what it found there, the ids
    of the rules for the row, and the text ids when the row is marked and
    the mass check forces a timestamp. *)
Lemma apply_row_ids step logits disable_tokens batch_offset prefix :
  well_formed self step sequences logits batch_offset prefix →
  ∃ logits' disable_tokens',
    apply self step logits disable_tokens sequences batch_offset prefix
    = Ok (self, logits', disable_tokens')
    ∧ ∀ b i, 0 ≤ b < StorageView.dim0 logits →
        let sample_begin :=
          get_sample_begin (StorageView.dim0 logits) b batch_offset prefix in
        DisableTokens.disabled disable_tokens' b i
        ↔ DisableTokens.disabled disable_tokens b i
          ∨ row_ids self step sequences sample_begin b i
          ∨ (marked self step sequences sample_begin b
             ∧ timestamp_mass_wins self (LogSoftMax <$> logits') b
             ∧ 0 ≤ i < _timestamp_begin_id self).
Proof.
  intros Hwf.
  destruct (apply_spec step logits disable_tokens batch_offset prefix Hwf)
    as (after_rows & check & logits' & dt' & _ & Happly & Hids & Hcheck & Hnil & Hcons).
  exists logits', dt'. split; [done|]. intros b i Hb sample_begin.
  destruct (decide (check = [])) as [->|Hne].
  - destruct Hnil as [-> ->]; [done|]. rewrite Hids. split.
    + intros [?|[_ ?]]; auto.
    + intros [?|[?|(Hmarked & _)]]; [auto|auto|].
      assert (b ∈ []) as ?%elem_of_nil by (apply Hcheck; auto). done.
  - destruct (Hcons Hne) as [-> Hdt']. rewrite Hdt', Hids, Hcheck.
    unfold timestamp_mass_wins. split.
    + intros [[?|[_ ?]]|[[_ ?] (row & ? & ? & ?)]]; eauto 10.
    + intros [?|[?|(? & (row & ? & ?) & ?)]]; eauto 10.
Qed.

(** C2. At a step after the first generated one, for every row: when the
    last generated token and the one before it (the last token itself when
    only one token was generated) are timestamps, every id of
    [[timestamp_begin_id, timestamp_end_id]] is disabled; when the last
    token is a timestamp and the one before is not, every id of
    [[0, eot_id)] is disabled; and the scan from the newest generated token
    down to [sample_begin] disables every id of [[timestamp_begin_id, t)]
    for the most recent timestamp [t], and nothing when the generated tokens
    hold no timestamp. Beside these ids, the call disables only
    [no_timestamps_id] and what the mass check adds. *)
Theorem later_step_rules step logits disable_tokens batch_offset prefix b :
  well_formed self step sequences logits batch_offset prefix →
  0 ≤ b < StorageView.dim0 logits →
  step > get_sample_begin (StorageView.dim0 logits) b batch_offset prefix →
  let sample_begin := get_sample_begin (StorageView.dim0 logits) b batch_offset prefix in
  ∃ logits' disable_tokens' last penultimate,
    apply self step logits disable_tokens sequences batch_offset prefix
    = Ok (self, logits', disable_tokens')
    ∧ last_token step sequences b last
    ∧ penultimate_token step sequences sample_begin b penultimate
    ∧ (step - 1 = sample_begin → penultimate = last)
    ∧ (is_timestamp self last → is_timestamp self penultimate →
       ∀ i, _timestamp_begin_id self ≤ i ≤ _timestamp_end_id self →
            DisableTokens.disabled disable_tokens' b i)
    ∧ (is_timestamp self last → ¬ is_timestamp self penultimate →
       ∀ i, 0 ≤ i < _eot_id self → DisableTokens.disabled disable_tokens' b i)
    ∧ (∀ t, most_recent_timestamp self step sequences sample_begin b t →
       ∀ i, _timestamp_begin_id self ≤ i < t → DisableTokens.disabled disable_tokens' b i)
    ∧ (∀ i, DisableTokens.disabled disable_tokens' b i
            ↔ DisableTokens.disabled disable_tokens b i
              ∨ i = _no_timestamps_id self
              ∨ (is_timestamp self last ∧ is_timestamp self penultimate
                 ∧ _timestamp_begin_id self ≤ i ≤ _timestamp_end_id self)
              ∨ (is_timestamp self last ∧ ¬ is_timestamp self penultimate
                 ∧ 0 ≤ i < _eot_id self)
              ∨ (∃ t, most_recent_timestamp self step sequences sample_begin b t
                      ∧ _timestamp_begin_id self ≤ i < t)
              ∨ (¬ (is_timestamp self last ∧ is_timestamp self penultimate)
                 ∧ timestamp_mass_wins self (LogSoftMax <$> logits') b
                 ∧ 0 ≤ i < _timestamp_begin_id self)).
Proof.
  intros Hwf Hb Hstep sample_begin.
  destruct (apply_row_ids step logits disable_tokens batch_offset prefix Hwf)
    as (logits' & dt' & Happly & Hids).
  destruct Hwf as (_ & _ & _ & _ & Hdef).
  destruct (token_at_defined b (step - 1)) as [last Hlast]; [apply Hdef; [done|lia]|].
  assert (∃ penultimate, penultimate_token step sequences sample_begin b penultimate
                         ∧ (step - 1 = sample_begin → penultimate = last))
    as (penultimate & Hpen & Hsame).
  { unfold penultimate_token. destruct (decide (step - 1 > sample_begin)).
    - destruct (token_at_defined b (step - 2)) as [pen ?];
        [apply Hdef; [done|fold sample_begin; lia]|].
      exists pen. split; [done|lia].
    - by exists last. }
  pose proof (closed_pair_iff step sample_begin b last penultimate Hlast Hpen) as Hclosed.
  pose proof (open_pair_iff step sample_begin b last penultimate Hlast Hpen) as Hopen.
  assert (∀ i, DisableTokens.disabled dt' b i
               ↔ DisableTokens.disabled disable_tokens b i
                 ∨ i = _no_timestamps_id self
                 ∨ (is_timestamp self last ∧ is_timestamp self penultimate
                    ∧ _timestamp_begin_id self ≤ i ≤ _timestamp_end_id self)
                 ∨ (is_timestamp self last ∧ ¬ is_timestamp self penultimate
                    ∧ 0 ≤ i < _eot_id self)
                 ∨ (∃ t, most_recent_timestamp self step sequences sample_begin b t
                         ∧ _timestamp_begin_id self ≤ i < t)
                 ∨ (¬ (is_timestamp self last ∧ is_timestamp self penultimate)
                    ∧ timestamp_mass_wins self (LogSoftMax <$> logits') b
                    ∧ 0 ≤ i < _timestamp_begin_id self)) as Hexact.
  { intros i. rewrite (Hids b i Hb). fold sample_begin.
    unfold row_ids, later_step_ids, marked. rewrite Hclosed, Hopen.
    intuition (auto; try lia). }
  exists logits', dt', last, penultimate.
  split; [done|]. split; [done|]. split; [done|]. split; [done|].
  split; [|split; [|split; [|done]]].
  - intros ? ? i ?. apply Hexact. auto 10.
  - intros ? ? i ?. apply Hexact. auto 10.
  - intros t ? i ?. apply Hexact. eauto 10.
Qed.

(** C3. Whenever at least one row is marked for the mass check, the
    disables accumulated so far are all applied to the logits before the
    log-softmax is computed, and for each marked row, with [M] the maximum
    log-probability over the ids of [[0, timestamp_begin_id)] and [S] the
    log-sum-exp of the log-probabilities over
    [[timestamp_begin_id, timestamp_end_id]], the ids of
    [[0, timestamp_begin_id)] are added to the disabled ids of the row if
    [S > M], and nothing is added otherwise. When no row is marked the call
    computes no log-softmax and adds nothing. *)
Theorem mass_check_after_disables step logits disable_tokens batch_offset prefix :
  well_formed self step sequences logits batch_offset prefix →
  ∃ after_rows check,
    apply_rows self step logits disable_tokens sequences batch_offset prefix
    = Ok (after_rows, check)
    ∧ (∀ b i,
         DisableTokens.disabled after_rows b i
         ↔ DisableTokens.disabled disable_tokens b i
           ∨ (0 ≤ b < StorageView.dim0 logits
              ∧ row_ids self step sequences
                  (get_sample_begin (StorageView.dim0 logits) b batch_offset prefix) b i))
    ∧ (∀ b, b ∈ check
            ↔ 0 ≤ b < StorageView.dim0 logits
              ∧ marked self step sequences
                  (get_sample_begin (StorageView.dim0 logits) b batch_offset prefix) b)
    ∧ (check = [] →
       apply self step logits disable_tokens sequences batch_offset prefix
       = Ok (self, logits, after_rows))
    ∧ (check ≠ [] →
       let masked := DisableTokens.apply after_rows logits in
       let log_probs := LogSoftMax <$> masked in
       ∃ disable_tokens',
         apply self step logits disable_tokens sequences batch_offset prefix
         = Ok (self, masked, disable_tokens')
         ∧ (∀ b i : nat,
              masked !! b ≫= (.!! i)
              = (λ x, if bool_decide (DisableTokens.disabled after_rows
                                        (Z.of_nat b) (Z.of_nat i))
                      then minus_infinity else x) <$> (logits !! b ≫= (.!! i)))
         ∧ (∀ b, b ∈ check →
              ∃ row, log_probs !! Z.to_nat b = Some row
                     ∧ let M := max_text_log_prob self row in
                       let S := timestamp_log_prob self row in
                       (float_gt S M = true →
                        ∀ i, DisableTokens.disabled disable_tokens' b i
                             ↔ DisableTokens.disabled after_rows b i
                               ∨ 0 ≤ i < _timestamp_begin_id self)
                       ∧ (float_gt S M = false →
                          ∀ i, DisableTokens.disabled disable_tokens' b i
                               ↔ DisableTokens.disabled after_rows b i))
         ∧ (∀ b, b ∉ check →
              ∀ i, DisableTokens.disabled disable_tokens' b i
                   ↔ DisableTokens.disabled after_rows b i)).
Proof.
  intros Hwf.
  destruct (apply_spec step logits disable_tokens batch_offset prefix Hwf)
    as (after_rows & check & logits' & dt' & Hrows & Happly & Hids & Hcheck & Hnil & Hcons).
  exists after_rows, check. split; [done|]. split; [done|]. split; [done|]. split.
  { intros Hempty. by destruct (Hnil Hempty) as [<- <-]. }
  intros Hne masked log_probs. destruct (Hcons Hne) as [-> Hdt'].
  exists dt'. split; [done|]. split; [apply lookup_apply|]. split.
  - intros b Hb. pose proof Hb as Hb'. apply Hcheck in Hb' as [Hrange _].
    unfold StorageView.dim0 in Hrange.
    destruct (lookup_lt_is_Some_2 log_probs (Z.to_nat b)) as [row Hrow].
    { unfold log_probs, masked. rewrite length_fmap, length_apply. lia. }
    exists row. split; [done|]. split.
    + intros Hgt i. rewrite Hdt'. split.
      * intros [?|(_ & row' & ? & ? & ?)]; auto.
      * intros [?|?]; [auto|]. right. split; [done|]. by exists row.
    + intros Hgt i. rewrite Hdt'. split; [|auto].
      intros [?|(_ & row' & Hrow' & Hgt' & ?)]; [done|].
      fold masked in Hrow'. fold log_probs in Hrow'. congruence.
  - intros b Hb i. rewrite Hdt'. split; [|auto]. by intros [?|[? _]].
Qed.

(** At the first generated step of a row the call disables
    [no_timestamps_id], the text ids, and the timestamps after the largest
    initial one, and nothing else. *)
Lemma first_step_ids_disabled step logits disable_tokens batch_offset prefix b :
  well_formed self step sequences logits batch_offset prefix →
  0 ≤ b < StorageView.dim0 logits →
  step = get_sample_begin (StorageView.dim0 logits) b batch_offset prefix →
  ∃ logits' disable_tokens',
    apply self step logits disable_tokens sequences batch_offset prefix
    = Ok (self, logits', disable_tokens')
    ∧ ∀ i, DisableTokens.disabled disable_tokens' b i
           ↔ DisableTokens.disabled disable_tokens b i
             ∨ i = _no_timestamps_id self
             ∨ 0 ≤ i < _timestamp_begin_id self
             ∨ SizeT.add (_max_initial_timestamp_id self) 1 ≤ i ≤ _timestamp_end_id self.
Proof.
  intros Hwf Hb Hstep.
  destruct (apply_row_ids step logits disable_tokens batch_offset prefix Hwf)
    as (logits' & dt' & Happly & Hids).
  exists logits', dt'. split; [done|]. intros i. rewrite (Hids b i Hb).
  unfold row_ids, first_step_ids, marked. rewrite <- Hstep. intuition lia.
Qed.

(** The first id of the loop that bounds the initial timestamp is at most
    one past [max_initial_timestamp_id]. *)
Lemma add_one_le z : 0 ≤ z → SizeT.add z 1 ≤ z + 1.
Proof.
  intros. unfold SizeT.add, SizeT.wrap, SizeT.size_modulus.
  apply Z.mod_le; lia.
Qed.

End facts.
End ApplyTimestampRulesFacts.

(** ** The replica *)
Module WhisperReplicaFacts.
Section facts.
Context `{!Numerics} `{!DecodingHelpers} `{!Vocabulary} `{!ModelConfig}
        `{!Layers} `{!BeamDecoder} `{!StdAlgorithm}.
Import WhisperReplica PromptAnalyzer PromptAnalyzerFacts.

Lemma expand_suppress_tokens_flat suppress_tokens :
  expand_suppress_tokens suppress_tokens = suppress_tokens ≫= suppressed_by.
Proof.
  unfold expand_suppress_tokens.
  enough (∀ acc, foldl (λ disable_ids id,
                          if bool_decide (0 ≤ id) then disable_ids ++ [id]
                          else if bool_decide (id = -1)
                               then disable_ids ++ config_suppress_ids
                               else disable_ids) acc suppress_tokens
                 = acc ++ (suppress_tokens ≫= suppressed_by)) as Hacc by apply Hacc.
  induction suppress_tokens as [|id l IH]; intros acc; simpl.
  - by rewrite app_nil_r.
  - rewrite IH. unfold suppressed_by at 2. repeat case_bool_decide.
    + by rewrite <- app_assoc.
    + by rewrite <- app_assoc.
    + done.
Qed.

(** The options that [generate] gives to the decoder, field by field. *)
Lemma make_decoding_options_inv self (prompts : list (list Z)) options si pl start
    decoding_options :
  make_decoding_options self prompts options si pl start = Ok decoding_options →
  ∃ budget processors,
    max_decoding_length options start = Ok budget
    ∧ make_logits_processors self prompts options si pl = Ok processors
    ∧ DecodingOptions.start_step decoding_options = start
    ∧ DecodingOptions.max_length decoding_options = to_max_length budget
    ∧ DecodingOptions.logits_processors decoding_options = processors
    ∧ DecodingOptions.disable_ids decoding_options
      = expand_suppress_tokens (WhisperOptions.suppress_tokens options)
    ∧ DecodingOptions.return_scores decoding_options = WhisperOptions.return_scores options
    ∧ DecodingOptions.return_attention decoding_options
      = WhisperOptions.return_attention options
    ∧ DecodingOptions.num_hypotheses decoding_options
      = WhisperOptions.num_hypotheses options.
Proof.
  unfold make_decoding_options.
  intros (budget & Hbudget & Hrest)%bind_Ok.
  apply bind_Ok in Hrest as (processors & Hprocessors & [= <-]).
  by exists budget, processors.
Qed.

(** C8, as the code has it. The expansion of [suppress_tokens] copies
    exactly the ids of the list that are not negative (0 included) into
    [disable_ids], in order, and appends the [suppress_ids] of the model
    configuration at every [-1] of the list; no other id is added: a
    negative value other than [-1] contributes nothing. *)
Theorem suppress_tokens_expansion :
  (∀ suppress_tokens,
     expand_suppress_tokens suppress_tokens = suppress_tokens ≫= suppressed_by)
  ∧ (∀ suppress_tokens x,
       x ∈ expand_suppress_tokens suppress_tokens
       ↔ (0 ≤ x ∧ x ∈ suppress_tokens)
         ∨ (-1 ∈ suppress_tokens ∧ x ∈ config_suppress_ids))
  ∧ (∀ self prompts options sot_index prompt_length start_step decoding_options,
       make_decoding_options self prompts options sot_index prompt_length start_step
       = Ok decoding_options →
       DecodingOptions.disable_ids decoding_options
       = expand_suppress_tokens (WhisperOptions.suppress_tokens options)).
Proof.
  split; [apply expand_suppress_tokens_flat|]. split.
  - intros l x. rewrite expand_suppress_tokens_flat, list_elem_of_bind. split.
    + intros (id & Hx & Hid). unfold suppressed_by in Hx. repeat case_bool_decide.
      * apply list_elem_of_singleton in Hx as ->. auto.
      * subst id. auto.
      * by apply elem_of_nil in Hx.
    + intros [[Hx Hin]|[Hin Hx]].
      * exists x. split; [|done]. unfold suppressed_by.
        rewrite bool_decide_eq_true_2 by done. by apply list_elem_of_singleton.
      * exists (-1). split; [|done]. unfold suppressed_by.
        rewrite bool_decide_eq_false_2 by lia. by rewrite bool_decide_eq_true_2 by done.
  - intros self prompts options si pl start_step opts Hopts.
    by apply make_decoding_options_inv in Hopts as (? & ? & _ & _ & _ & _ & _ & ? & _).
Qed.

Lemma make_results_Ok options no_speech_probs results :
  Forall (λ result, DecodingResult.token_scores result ≠ []) results →
  (WhisperOptions.return_no_speech_prob options = true →
   (length results ≤ length no_speech_probs)%nat) →
  make_results options no_speech_probs results
  = Ok (imap (result_of options no_speech_probs) results).
Proof.
  intros Hscores Hprobs. unfold make_results.
  rewrite (for_each_Ok _ (λ '(i, result), result_of options no_speech_probs i result)).
  - f_equal. apply list_eq. intros i. rewrite list_lookup_fmap, !list_lookup_imap.
    by destruct (results !! i).
  - apply Forall_forall. intros [i result] Hin.
    apply list_elem_of_lookup in Hin as [k Hk]. rewrite list_lookup_imap in Hk.
    destruct (results !! k) as [r|] eqn:Hr; simplify_eq/=.
    rewrite Forall_forall in Hscores.
    assert (DecodingResult.token_scores result ≠ []) as Hne
      by (by eapply Hscores, list_elem_of_lookup_2).
    unfold make_result, result_of.
    destruct (DecodingResult.token_scores result) as [|first rest]; [done|]. simpl.
    destruct (WhisperOptions.return_no_speech_prob options); [|done].
    destruct (lookup_lt_is_Some_2 no_speech_probs i) as [p Hp].
    { apply lookup_lt_Some in Hr. specialize (Hprobs eq_refl). lia. }
    by rewrite Hp.
Qed.

(** *** Validated batches *)

Lemma check_prompts_Ok_inv prompts sot_id no_timestamps_id s0 p0 si pl :
  prompts ≠ [] →
  check_prompts prompts sot_id no_timestamps_id s0 p0 = Ok (si, pl) →
  Forall (λ prompt, sot_id ∈ prompt
                    ∧ prompt_pair prompt sot_id no_timestamps_id = (si, pl)) prompts.
Proof.
  destruct prompts as [|first rest]; [done|]. intros _. unfold check_prompts. simpl.
  destruct (decide (sot_id ∈ first)) as [Hin|Hin]; last first.
  { by destruct (get_sot_index_missing _ _ Hin) as [what ->]. }
  rewrite get_sot_index_found, get_prompt_length_found by done. simpl.
  destruct (check_prompts_from_rest rest sot_id no_timestamps_id
              (std_find sot_id first)
              (skip_task_tokens sot_id no_timestamps_id
                 (drop (std_find sot_id first) first) (std_find sot_id first)))
    as [[-> Hall]|[[what ->] _]]; [|done].
  intros [= <- <-]. by constructor.
Qed.

Lemma prompt_pair_bounds prompt sot_id no_timestamps_id :
  sot_id ≤ no_timestamps_id → sot_id ∈ prompt →
  ((prompt_pair prompt sot_id no_timestamps_id).1
   < (prompt_pair prompt sot_id no_timestamps_id).2 ≤ length prompt)%nat.
Proof.
  intros Hle Hin. unfold prompt_pair. simpl.
  pose proof (std_find_lookup _ _ Hin) as Hsot.
  pose proof (proj2 (std_find_lt _ _) Hin) as Hlt.
  set (i := std_find sot_id prompt) in *.
  destruct (drop i prompt) as [|tok rest] eqn:Hdrop.
  { apply (f_equal length) in Hdrop. rewrite length_drop in Hdrop. simpl in Hdrop. lia. }
  assert (tok = sot_id) as ->.
  { pose proof (lookup_drop prompt i 0) as Hlook. rewrite Hdrop, Nat.add_0_r in Hlook.
    simpl in Hlook. congruence. }
  simpl. rewrite !bool_decide_eq_true_2 by lia. simpl.
  destruct (skip_task_tokens_spec sot_id no_timestamps_id rest (S i)) as (Hbound & _).
  apply (f_equal length) in Hdrop. rewrite length_drop in Hdrop. simpl in Hdrop. lia.
Qed.

(** The bounds of a validated batch. *)
Lemma validated_bounds prompts sot_id no_timestamps_id s0 p0 si pl :
  sot_id ≤ no_timestamps_id → prompts ≠ [] →
  check_prompts prompts sot_id no_timestamps_id s0 p0 = Ok (si, pl) →
  (si < pl)%nat ∧ Forall (λ prompt, (pl ≤ length prompt)%nat) prompts.
Proof.
  intros Hle Hne Hcheck.
  pose proof (check_prompts_Ok_inv _ _ _ _ _ _ _ Hne Hcheck) as Hall. split.
  - destruct prompts as [|first rest]; [done|].
    apply Forall_cons in Hall as [[Hin Hpair] _].
    pose proof (prompt_pair_bounds first _ _ Hle Hin) as Hb. rewrite Hpair in Hb.
    simpl in Hb. lia.
  - eapply Forall_impl; [done|]. intros prompt [Hin Hpair].
    pose proof (prompt_pair_bounds prompt _ _ Hle Hin) as Hb. rewrite Hpair in Hb.
    simpl in Hb. lia.
Qed.

Lemma split_prompts_Ok prompts pl :
  (1 ≤ pl)%nat → Forall (λ prompt, (pl ≤ length prompt)%nat) prompts →
  for_each (split_prompt pl) prompts
  = Ok ((λ prompt, (take (pl - 1) prompt, drop (pl - 1) prompt)) <$> prompts).
Proof.
  intros Hpl Hall. apply for_each_Ok. eapply Forall_impl; [done|].
  intros prompt Hlen. unfold split_prompt. simpl in *. by rewrite bool_decide_eq_true_2 by lia.
Qed.

Lemma prompt_length_minus_one (prompts : list (list Z)) pl :
  prompts ≠ [] →
  Forall (λ prompt, Z.of_nat (length prompt) < SizeT.size_modulus) prompts →
  (1 ≤ pl)%nat → Forall (λ prompt, (pl ≤ length prompt)%nat) prompts →
  SizeT.sub (Z.of_nat pl) 1 = Z.of_nat pl - 1.
Proof.
  intros Hne Hsize Hpl Hall. destruct prompts as [|first rest]; [done|].
  apply Forall_cons in Hsize as [Hsize _]. apply Forall_cons in Hall as [Hlen _].
  apply SizeTFacts.sub_small; lia.
Qed.

Lemma last_prompt_token_Ok (prompts : list (list Z)) pl :
  prompts ≠ [] →
  Forall (λ prompt, Z.of_nat (length prompt) < SizeT.size_modulus) prompts →
  (1 ≤ pl)%nat → Forall (λ prompt, (pl ≤ length prompt)%nat) prompts →
  ∃ first token, prompts !! 0%nat = Some first
                 ∧ first !! (pl - 1)%nat = Some token
                 ∧ last_prompt_token prompts pl = Ok token.
Proof.
  intros Hne Hsize Hpl Hall.
  pose proof (prompt_length_minus_one prompts pl Hne Hsize Hpl Hall) as Hsub.
  destruct prompts as [|first rest]; [done|].
  apply Forall_cons in Hall as [Hlen _].
  destruct (lookup_lt_is_Some_2 first (pl - 1)) as [token Htoken]; [lia|].
  exists first, token. split; [done|]. split; [done|].
  unfold last_prompt_token, StorageView.at1. simpl. rewrite Hsub.
  rewrite bool_decide_eq_true_2 by lia.
  replace (Z.to_nat (Z.of_nat pl - 1)) with (pl - 1)%nat by lia. by rewrite Htoken.
Qed.

Lemma sot_is_start_token_spec (prompts : list (list Z)) si pl :
  prompts ≠ [] →
  Forall (λ prompt, Z.of_nat (length prompt) < SizeT.size_modulus) prompts →
  (1 ≤ pl)%nat → Forall (λ prompt, (pl ≤ length prompt)%nat) prompts →
  sot_is_start_token si pl = bool_decide (si = pl - 1)%nat.
Proof.
  intros Hne Hsize Hpl Hall. unfold sot_is_start_token.
  rewrite (prompt_length_minus_one prompts pl Hne Hsize Hpl Hall).
  apply bool_decide_ext. lia.
Qed.

(** C10. Under [sot_id <= no_timestamps_id], a prompt that contains
    [sot_id] has [sot_index < prompt_length <= length prompt]; so for every
    validated batch the token [prompts[0][prompt_length - 1]], the split of
    every prompt at [prompt_length - 1] and the test [sot_is_start_token]
    are defined, with all indices inside the prompts and no wrap-around in
    [prompt_length - 1]. *)
Theorem prompt_length_in_bounds (prompts : list (list Z)) (sot_id no_timestamps_id : Z)
    (s0 p0 : nat) :
  sot_id ≤ no_timestamps_id →
  (∀ prompt, sot_id ∈ prompt →
     ∃ si pl, get_sot_index prompt sot_id = Ok si
              ∧ get_prompt_length prompt sot_id no_timestamps_id = Ok pl
              ∧ (si < pl ≤ length prompt)%nat)
  ∧ (∀ si pl,
       prompts ≠ [] →
       Forall (λ prompt, Z.of_nat (length prompt) < SizeT.size_modulus) prompts →
       check_prompts prompts sot_id no_timestamps_id s0 p0 = Ok (si, pl) →
       (si < pl)%nat
       ∧ Forall (λ prompt, (pl ≤ length prompt)%nat) prompts
       ∧ (∃ first token, prompts !! 0%nat = Some first
                         ∧ first !! (pl - 1)%nat = Some token
                         ∧ last_prompt_token prompts pl = Ok token)
       ∧ for_each (split_prompt pl) prompts
         = Ok ((λ prompt, (take (pl - 1) prompt, drop (pl - 1) prompt)) <$> prompts)
       ∧ SizeT.sub (Z.of_nat pl) 1 = Z.of_nat pl - 1
       ∧ sot_is_start_token si pl = bool_decide (si = pl - 1)%nat).
Proof.
  intros Hle. split.
  - intros prompt Hin. eexists _, _.
    split; [by apply get_sot_index_found|]. split; [by apply get_prompt_length_found|].
    apply (prompt_pair_bounds prompt sot_id no_timestamps_id Hle Hin).
  - intros si pl Hne Hsize Hcheck.
    destruct (validated_bounds _ _ _ _ _ _ _ Hle Hne Hcheck) as [Hlt Hall].
    split; [done|]. split; [done|]. split; [|split; [|split]].
    + apply last_prompt_token_Ok; (done || lia).
    + apply split_prompts_Ok; [lia|done].
    + apply (prompt_length_minus_one prompts); (done || lia).
    + apply (sot_is_start_token_spec prompts); (done || lia).
Qed.

(** *** The prefill *)

Lemma at1_Ok {A} (v : list A) (i : Z) (x : A) :
  0 ≤ i → v !! Z.to_nat i = Some x → StorageView.at1 v i = Ok x.
Proof.
  intros Hi Hx. unfold StorageView.at1. rewrite bool_decide_eq_true_2 by done.
  by rewrite Hx.
Qed.

Lemma Gather1_replicate {A} (d : A) (view : list (list A)) (column : Z) :
  has_column view column →
  StorageView.Gather1 view (replicate (length view) column)
  = Ok ((λ row, default d (row !! Z.to_nat column)) <$> view).
Proof.
  unfold StorageView.Gather1. induction 1 as [|row view Hrow _ IH]; simpl; [done|].
  destruct (lookup_lt_is_Some_2 row (Z.to_nat column)) as [x Hx]; [lia|].
  rewrite (at1_Ok row column x) by (done || lia). rewrite Hx. simpl.
  change (for_each (λ '(row0, column0), StorageView.at1 row0 column0)
            (zip view (replicate (length view) column))
          ≫= (λ ys, Ok (x :: ys))
          = Ok (x :: ((λ row0, default d (row0 !! Z.to_nat column)) <$> view))).
  by rewrite IH.
Qed.

Lemma get_no_speech_probs_from_logits_Ok (logits : list (list float)) (no_speech_id : Z) :
  has_column (SoftMax <$> logits) no_speech_id →
  get_no_speech_probs_from_logits logits no_speech_id
  = Ok ((λ row, default float_zero (SoftMax row !! Z.to_nat no_speech_id)) <$> logits).
Proof.
  intros Hcol. unfold get_no_speech_probs_from_logits.
  rewrite (Gather1_replicate float_zero) by done. by rewrite <- list_fmap_compose.
Qed.

Lemma make_sequence_inputs_uniform (ids : list (list Z)) (n : nat) :
  Forall (λ row, length row = n) ids →
  make_sequence_inputs ids = ids
  ∧ (ids ≠ [] → inputs_dim1 (make_sequence_inputs ids) = Z.of_nat n).
Proof.
  intros Hall. unfold make_sequence_inputs.
  assert (ids ≠ [] → foldr (λ row acc, Nat.max (length row) acc) 0%nat ids = n) as Hmax.
  { induction Hall as [|row ids Hrow Hall IH]; [done|]. intros _. simpl.
    destruct ids as [|row' ids']; simpl in *; [lia|]. rewrite IH by done. lia. }
  assert ((λ row, row ++ replicate
                     (foldr (λ row0 acc, Nat.max (length row0) acc) 0%nat ids - length row) 0)
          <$> ids = ids) as Hsame.
  { destruct (decide (ids = [])) as [->|Hne]; [done|]. rewrite (Hmax Hne).
    clear Hmax Hne. induction Hall as [|row ids Hrow Hall IH]; [done|]. csimpl.
    f_equal; [|done]. rewrite Hrow, Nat.sub_diag. apply app_nil_r. }
  split; [done|]. intros Hne. rewrite Hsame.
  destruct Hall as [|row ids Hrow _]; [done|]. simpl. lia.
Qed.

Lemma prefill_Ok (self : WhisperReplica.t) (prompts : list (list Z))
    (options : WhisperOptions.t) (s0 p0 si pl : nat) (state : DecoderState) :
  _sot_id self ≤ _no_timestamps_id self →
  prompts ≠ [] →
  check_prompts prompts (_sot_id self) (_no_timestamps_id self) s0 p0 = Ok (si, pl) →
  (∀ outputs steps,
     has_column (SoftMax <$> compute_logits_for_steps outputs steps) (_no_speech_id self)) →
  ∃ pre,
    prefill self prompts options si pl state = Ok pre
    ∧ (pl = 1%nat →
       start_tokens pre = prompts ∧ start_step pre = 0 ∧ decoder_state pre = state
       ∧ no_speech_probs pre = [])
    ∧ (pl ≠ 1%nat →
       let prefixes := take (pl - 1) <$> prompts in
       Forall (λ prefix, length prefix = (pl - 1)%nat) prefixes
       ∧ start_tokens pre = drop (pl - 1) <$> prompts
       ∧ make_sequence_inputs prefixes = prefixes
       ∧ decoder_state pre = (forward_prompt (make_sequence_inputs prefixes) state).1
       ∧ start_step pre = Z.of_nat (pl - 1)
       ∧ no_speech_probs pre
         = if negb (WhisperOptions.return_no_speech_prob options)
              || sot_is_start_token si pl
           then []
           else (λ row, default float_zero (SoftMax row !! Z.to_nat (_no_speech_id self)))
                  <$> sot_logits prompts si pl state).
Proof.
  intros Hle Hne Hcheck Hcol.
  destruct (validated_bounds _ _ _ _ _ _ _ Hle Hne Hcheck) as [Hlt Hall].
  unfold prefill. case_test.
  { eexists. split; [done|]. split; [done|]. done. }
  rewrite split_prompts_Ok by (done || lia). simpl.
  rewrite <- !list_fmap_compose.
  change (fst ∘ (λ prompt : list Z, (take (pl - 1) prompt, drop (pl - 1) prompt)))
    with (take (A:=Z) (pl - 1)).
  change (snd ∘ (λ prompt : list Z, (take (pl - 1) prompt, drop (pl - 1) prompt)))
    with (drop (A:=Z) (pl - 1)).
  unfold sot_logits.
  set (prefixes := take (pl - 1) <$> prompts).
  assert (Forall (λ prefix, length prefix = (pl - 1)%nat) prefixes) as Hprefixes.
  { apply Forall_fmap. eapply Forall_impl; [done|]. intros prompt Hlen. simpl in *.
    rewrite length_take. lia. }
  assert (prefixes ≠ []) as Hprefixes_ne by (by destruct prompts).
  destruct (make_sequence_inputs_uniform prefixes (pl - 1) Hprefixes) as [Hinputs Hdim].
  rewrite Hinputs in *.
  replace (length prefixes) with (length prompts) by (unfold prefixes; by rewrite length_fmap).
  destruct (negb (WhisperOptions.return_no_speech_prob options) || sot_is_start_token si pl).
  - simpl. eexists. split; [done|]. split; [done|]. intros _. simpl.
    split; [done|]. split; [done|]. split; [done|]. split; [done|]. by rewrite Hdim.
  - destruct (forward_prompt prefixes state) as [state0 outputs] eqn:Hforward.
    rewrite get_no_speech_probs_from_logits_Ok by apply Hcol. simpl.
    eexists. split; [done|]. split; [done|]. intros _. simpl.
    split; [done|]. split; [done|]. split; [done|]. split; [done|]. by rewrite Hdim.
Qed.

(** C6. The prefill split of a validated batch. When [prompt_length] is 1
    there is no prefill: [start_tokens] is the prompts, [start_step] is 0
    and the decoder state is untouched. Otherwise the prefix of every row
    is [prompts[i][0 .. prompt_length - 2]], its start tokens are
    [prompts[i][prompt_length - 1 ..]], the decoder prefill runs on the
    prefixes, and [start_step] is the length of a prefix,
    [prompt_length - 1]. *)
Theorem prefill_split (self : WhisperReplica.t) (prompts : list (list Z))
    (options : WhisperOptions.t) (s0 p0 si pl : nat) (state : DecoderState) :
  _sot_id self ≤ _no_timestamps_id self →
  prompts ≠ [] →
  check_prompts prompts (_sot_id self) (_no_timestamps_id self) s0 p0 = Ok (si, pl) →
  (∀ outputs steps,
     has_column (SoftMax <$> compute_logits_for_steps outputs steps) (_no_speech_id self)) →
  ∃ pre,
    prefill self prompts options si pl state = Ok pre
    ∧ (pl = 1%nat →
       start_tokens pre = prompts ∧ start_step pre = 0 ∧ decoder_state pre = state)
    ∧ (pl ≠ 1%nat →
       let prefixes := take (pl - 1) <$> prompts in
       Forall (λ prefix, length prefix = (pl - 1)%nat) prefixes
       ∧ start_tokens pre = drop (pl - 1) <$> prompts
       ∧ (∀ i prompt, prompts !! i = Some prompt →
            ∃ prefix start, prefixes !! i = Some prefix ∧ start_tokens pre !! i = Some start
                            ∧ prompt = prefix ++ start ∧ start ≠ [])
       ∧ make_sequence_inputs prefixes = prefixes
       ∧ decoder_state pre = (forward_prompt prefixes state).1
       ∧ start_step pre = Z.of_nat (pl - 1)).
Proof.
  intros Hle Hne Hcheck Hcol.
  destruct (validated_bounds _ _ _ _ _ _ _ Hle Hne Hcheck) as [Hlt Hall].
  destruct (prefill_Ok self prompts options s0 p0 si pl state Hle Hne Hcheck Hcol)
    as (pre & Hpre & Hone & Hmore).
  exists pre. split; [done|]. split.
  { intros Hpl. destruct (Hone Hpl) as (? & ? & ? & _). done. }
  intros Hpl prefixes. destruct (Hmore Hpl) as (Hlen & Hstart & Hinputs & Hstate & Hstep & _).
  fold prefixes in Hinputs, Hstate. rewrite Hinputs in Hstate.
  split; [done|]. split; [done|]. split; [|done].
  intros i prompt Hprompt. exists (take (pl - 1) prompt), (drop (pl - 1) prompt).
  unfold prefixes. rewrite Hstart, !list_lookup_fmap, Hprompt. simpl.
  split; [done|]. split; [done|]. split; [by rewrite take_drop|].
  rewrite Forall_forall in Hall.
  assert (pl ≤ length prompt)%nat as Hlen' by (by eapply Hall, list_elem_of_lookup_2).
  intros Hnil%(f_equal length). rewrite length_drop in Hnil. simpl in Hnil. lia.
Qed.

(** *** The processors *)

Lemma get_no_speech_probs_from_logits_inv (logits : list (list float)) no_speech_id probs :
  get_no_speech_probs_from_logits logits no_speech_id = Ok probs →
  length probs = length logits
  ∧ ∀ k x, probs !! k = Some x →
           ∃ row, logits !! k = Some row ∧ SoftMax row !! Z.to_nat no_speech_id = Some x.
Proof.
  unfold get_no_speech_probs_from_logits, StorageView.Gather1.
  intros Hall%for_each_inv. split.
  - apply Forall2_length in Hall. rewrite length_zip, length_replicate, length_fmap in Hall.
    lia.
  - intros k x Hx.
    destruct (Forall2_lookup_r _ _ _ _ _ Hall Hx) as ([row column] & Hzip & Hat).
    apply lookup_zip_with_Some in Hzip as (row' & column' & [= <- <-] & Hrow & Hcolumn).
    apply lookup_replicate in Hcolumn as [-> _].
    rewrite list_lookup_fmap in Hrow. destruct (logits !! k) as [row0|]; simplify_eq/=.
    exists row0. split; [done|]. unfold StorageView.at1 in Hat.
    case_bool_decide; [|done]. by apply of_option_Ok in Hat.
Qed.

(** The call at step 0 appends, for the batch [i], the probability of the
    row [i * beam_size]; it leaves the logits and the accumulator as they
    are. *)
Lemma no_speech_apply_inv (p p' : GetNoSpeechProbs.t) (logits logits' : list (list float))
    dt dt' sequences batch_offset prefix :
  GetNoSpeechProbs.apply p 0 logits dt sequences batch_offset prefix = Ok (p', logits', dt') →
  logits' = logits ∧ dt' = dt
  ∧ GetNoSpeechProbs._no_speech_id p' = GetNoSpeechProbs._no_speech_id p
  ∧ ∃ captured,
      GetNoSpeechProbs._no_speech_probs p'
      = GetNoSpeechProbs._no_speech_probs p ++ captured
      ∧ length captured = length batch_offset
      ∧ ∀ i x, captured !! i = Some x →
          ∃ row,
            logits !! Z.to_nat (Z.of_nat i * (StorageView.dim0 logits
                                              `div` Z.of_nat (length batch_offset)))
            = Some row
            ∧ SoftMax row !! Z.to_nat (GetNoSpeechProbs._no_speech_id p) = Some x.
Proof.
  unfold GetNoSpeechProbs.apply. rewrite bool_decide_eq_true_2 by done.
  intros (probs & Hprobs & Hrest)%bind_Ok. case_bool_decide; [done|].
  apply bind_Ok in Hrest as (captured & Hcaptured & [= <- <- <-]).
  split; [done|]. split; [done|]. split; [done|]. exists captured. split; [done|].
  apply for_each_inv in Hcaptured.
  apply get_no_speech_probs_from_logits_inv in Hprobs as [_ Hprobs]. split.
  - apply Forall2_length in Hcaptured. rewrite length_seqZ in Hcaptured. lia.
  - intros i x Hx.
    destruct (Forall2_lookup_r _ _ _ _ _ Hcaptured Hx) as (k & Hk & Hat).
    apply lookup_seqZ in Hk as [-> _]. unfold StorageView.at1 in Hat.
    case_bool_decide; [|done]. apply of_option_Ok in Hat.
    rewrite Z.add_0_l in Hat. by apply Hprobs.
Qed.

Lemma no_speech_apply_later (p : GetNoSpeechProbs.t) step (logits : list (list float))
    dt sequences batch_offset prefix :
  step ≠ 0 →
  GetNoSpeechProbs.apply p step logits dt sequences batch_offset prefix = Ok (p, logits, dt).
Proof. intros. unfold GetNoSpeechProbs.apply. by rewrite bool_decide_eq_false_2 by done. Qed.

(** The processors of a validated batch: the reader of the no-speech
    probability first, when it is asked for and SOT is the start token,
    then the timestamp rules, when the last prompt token is not
    [<|notimestamps|>]. *)
Lemma make_logits_processors_Ok (self : WhisperReplica.t) (prompts : list (list Z))
    (options : WhisperOptions.t) (si pl : nat) :
  prompts ≠ [] →
  Forall (λ prompt, Z.of_nat (length prompt) < SizeT.size_modulus) prompts →
  (1 ≤ pl)%nat → Forall (λ prompt, (pl ≤ length prompt)%nat) prompts →
  ∃ last,
    last_prompt_token prompts pl = Ok last
    ∧ make_logits_processors self prompts options si pl
      = Ok ((if WhisperOptions.return_no_speech_prob options && sot_is_start_token si pl
             then [NoSpeechProcessor (GetNoSpeechProbs.new (_no_speech_id self))]
             else [])
            ++ (if bool_decide (last ≠ _no_timestamps_id self)
                then [TimestampProcessor (timestamp_rules self options)]
                else [])).
Proof.
  intros Hne Hsize Hpl Hall.
  destruct (last_prompt_token_Ok prompts pl Hne Hsize Hpl Hall) as (first & last & _ & _ & Hlast).
  exists last. split; [done|]. unfold make_logits_processors. rewrite Hlast. simpl.
  case_bool_decide; [done|]. by rewrite app_nil_r.
Qed.

Lemma generate_Ok self features prompts options si pl pre decoding_options results
    processors probs :
  prompts ≠ [] →
  check_prompts prompts (_sot_id self) (_no_timestamps_id self) 0 0 = Ok (si, pl) →
  prefill self prompts options si pl (emplace_memory (encode features) initial_state)
  = Ok pre →
  make_decoding_options self prompts options si pl (start_step pre) = Ok decoding_options →
  decode (decoder_state pre) (start_tokens pre) (_eot_id self) decoding_options
  = Ok (results, processors) →
  read_no_speech_probs
    (WhisperOptions.return_no_speech_prob options && sot_is_start_token si pl)
    processors (no_speech_probs pre) = Ok probs →
  generate self features prompts options = make_results options probs results.
Proof.
  intros Hne Hcheck Hpre Hoptions Hdecode Hprobs. unfold generate.
  destruct prompts as [|first rest]; [done|].
  rewrite Hcheck. simpl. rewrite Hpre. simpl. rewrite Hoptions. simpl.
  rewrite Hdecode. simpl. by rewrite Hprobs.
Qed.

(** After the validation, the prefill and the construction of the
    options, [generate] is the call of [decode] on the state and the start
    tokens of the prefill with these options, followed by [finish]. *)
Lemma generate_decode self features (prompts : list (list Z)) options si pl pre
    decoding_options :
  prompts ≠ [] →
  check_prompts prompts (_sot_id self) (_no_timestamps_id self) 0 0 = Ok (si, pl) →
  prefill self prompts options si pl (emplace_memory (encode features) initial_state)
  = Ok pre →
  make_decoding_options self prompts options si pl (start_step pre) = Ok decoding_options →
  generate self features prompts options
  = decode (decoder_state pre) (start_tokens pre) (_eot_id self) decoding_options
    ≫= finish options si pl pre.
Proof.
  intros Hne Hcheck Hpre Hoptions. unfold generate.
  destruct prompts as [|first rest]; [done|].
  rewrite Hcheck. simpl. rewrite Hpre. simpl. rewrite Hoptions. simpl.
  by destruct (decode _ _ _ _) as [[results processors]| | |].
Qed.

(** C1. For a validated batch, [generate] calls [decode] with the options
    it has built, and the timestamp rules are among the
    [logits_processors] of these options if and only if
    [prompts[0][prompt_length - 1] != no_timestamps_id]; a timestamp
    processor among them is the one built from the replica and the
    options. At the first generated step of a row ([step == sample_begin])
    these rules disable [no_timestamps_id], every id of
    [[0, timestamp_begin_id)] and every id of
    [(max_initial_timestamp_id, timestamp_end_id]], and nothing else: an
    id of the vocabulary that is left enabled is a timestamp not above
    [max_initial_timestamp_id]. *)
Theorem timestamp_rules_first_step (self : WhisperReplica.t) (features : Features)
    (prompts : list (list Z)) (options : WhisperOptions.t) (si pl : nat)
    (pre : Prefill) (decoding_options : DecodingOptions.t) (step : Z)
    (logits : list (list float)) (disable_tokens : DisableTokens.t)
    (sequences : list (list Z)) (batch_offset : list Z)
    (prefix : option (list (list Z))) (b : Z) :
  _sot_id self ≤ _no_timestamps_id self →
  prompts ≠ [] →
  Forall (λ prompt, Z.of_nat (length prompt) < SizeT.size_modulus) prompts →
  check_prompts prompts (_sot_id self) (_no_timestamps_id self) 0 0 = Ok (si, pl) →
  prefill self prompts options si pl (emplace_memory (encode features) initial_state)
  = Ok pre →
  make_decoding_options self prompts options si pl (start_step pre) = Ok decoding_options →
  let rules := timestamp_rules self options in
  TimestampRules.well_formed rules step sequences logits batch_offset prefix →
  0 ≤ b < StorageView.dim0 logits →
  step = get_sample_begin (StorageView.dim0 logits) b batch_offset prefix →
  ∃ first last logits' disable_tokens',
    prompts !! 0%nat = Some first
    ∧ first !! (pl - 1)%nat = Some last
    ∧ generate self features prompts options
      = decode (decoder_state pre) (start_tokens pre) (_eot_id self) decoding_options
        ≫= finish options si pl pre
    ∧ ((∃ p, TimestampProcessor p ∈ DecodingOptions.logits_processors decoding_options)
       ↔ last ≠ _no_timestamps_id self)
    ∧ (∀ p, TimestampProcessor p ∈ DecodingOptions.logits_processors decoding_options →
            p = rules)
    ∧ (∀ k p, DecodingOptions.logits_processors decoding_options !! k
              = Some (TimestampProcessor p) →
              S k = length (DecodingOptions.logits_processors decoding_options))
    ∧ ApplyTimestampRules.apply rules step logits disable_tokens sequences batch_offset prefix
      = Ok (rules, logits', disable_tokens')
    ∧ DisableTokens.disabled disable_tokens' b (ApplyTimestampRules._no_timestamps_id rules)
    ∧ (∀ i, 0 ≤ i < ApplyTimestampRules._timestamp_begin_id rules →
            DisableTokens.disabled disable_tokens' b i)
    ∧ (∀ i, ApplyTimestampRules._max_initial_timestamp_id rules < i
            ≤ ApplyTimestampRules._timestamp_end_id rules →
            DisableTokens.disabled disable_tokens' b i)
    ∧ (∀ i, DisableTokens.disabled disable_tokens' b i
            ↔ DisableTokens.disabled disable_tokens b i
              ∨ i = ApplyTimestampRules._no_timestamps_id rules
              ∨ 0 ≤ i < ApplyTimestampRules._timestamp_begin_id rules
              ∨ SizeT.add (ApplyTimestampRules._max_initial_timestamp_id rules) 1 ≤ i
                ≤ ApplyTimestampRules._timestamp_end_id rules)
    ∧ (∀ i, 0 ≤ i ≤ ApplyTimestampRules._timestamp_end_id rules →
            ¬ DisableTokens.disabled disable_tokens' b i →
            ApplyTimestampRules._timestamp_begin_id rules ≤ i
            ≤ ApplyTimestampRules._max_initial_timestamp_id rules).
Proof.
  intros Hle Hne Hsize Hcheck Hpre Hoptions rules Hwf Hb Hstep.
  destruct (validated_bounds _ _ _ _ _ _ _ Hle Hne Hcheck) as [Hlt Hall].
  destruct (last_prompt_token_Ok prompts pl Hne Hsize) as (first & last & Hfirst & Hlast & Htoken);
    [lia|done|].
  destruct (make_logits_processors_Ok self prompts options si pl Hne Hsize) as
    (last' & Hlast' & Hprocessors); [lia|done|].
  assert (last' = last) as -> by congruence.
  destruct (make_decoding_options_inv _ _ _ _ _ _ _ Hoptions)
    as (budget & processors & _ & Hprocessors' & _ & _ & Hinstalled & _).
  rewrite Hprocessors in Hprocessors'. injection Hprocessors' as <-.
  rewrite Hinstalled.
  destruct (ApplyTimestampRulesFacts.first_step_ids_disabled rules sequences step logits
              disable_tokens batch_offset prefix b Hwf Hb Hstep)
    as (logits' & dt' & Happly & Hids).
  assert (0 ≤ ApplyTimestampRules._max_initial_timestamp_id rules) as Hmax.
  { simpl. apply SizeTFacts.wrap_in_range. }
  pose proof (ApplyTimestampRulesFacts.add_one_le _ Hmax) as Hadd.
  exists first, last, logits', dt'.
  split; [done|]. split; [done|].
  split; [by apply generate_decode|].
  split; [|split; [|split; [|split; [done|]]]].
  - split.
    + intros [p [Hp|Hp]%elem_of_app].
      * destruct (_ && _); [|by apply elem_of_nil in Hp].
        by apply list_elem_of_singleton in Hp.
      * case_bool_decide; [done|]. by apply elem_of_nil in Hp.
    + intros Hlast_ne. exists rules. apply elem_of_app. right.
      rewrite bool_decide_eq_true_2 by done. by apply list_elem_of_singleton.
  - intros p [Hp|Hp]%elem_of_app.
    + destruct (_ && _); [|by apply elem_of_nil in Hp].
      by apply list_elem_of_singleton in Hp.
    + case_bool_decide; [|by apply elem_of_nil in Hp].
      apply list_elem_of_singleton in Hp. by injection Hp.
  - intros k p. destruct (_ && _); case_bool_decide; simpl;
      repeat (destruct k as [|k]; simpl; try done).
  - split; [apply Hids; auto|]. split; [intros; apply Hids; auto|].
    split; [intros i Hi; apply Hids; right; right; right; lia|]. split; [done|].
    intros i Hi Hnot. rewrite Hids in Hnot.
    destruct (decide (ApplyTimestampRules._timestamp_begin_id rules ≤ i));
      [|destruct Hnot; right; right; left; lia].
    destruct (decide (i ≤ ApplyTimestampRules._max_initial_timestamp_id rules)); [lia|].
    destruct Hnot. right. right. right. lia.
Qed.

(** C4. With [return_no_speech_prob] and a non-empty validated batch,
    every row [i] of the result carries the softmax probability of
    [no_speech_id] at the decoder step of SOT, whether or not SOT is the
    last prompt token. When it is not, the probability is read from the
    logits that the prefill gives at the column [sot_index], row [i]. When
    it is, the reader is the first processor of the decode loop, it
    declares [apply_first], and its call at step 0 takes the row
    [i * beam_size] of the logits and changes neither the logits nor the
    accumulator. The value is an entry of a softmax output, so it has
    every property - such as lying in [[0, 1]] - that all entries of a
    softmax output have. The hypotheses on [decode] are the contract of the
    beam decoder: it returns one result per prompt, each with the scores of
    its tokens, and it called the reader at step 0 with one batch offset
    per prompt. *)
Theorem no_speech_prob_at_sot (self : WhisperReplica.t) (features : Features)
    (prompts : list (list Z)) (options : WhisperOptions.t) (si pl : nat)
    (pre : Prefill) (decoding_options : DecodingOptions.t)
    (results : list DecodingResult.t) (processors : list LogitsProcessor)
    (reader : GetNoSpeechProbs.t) (logits logits' : list (list float))
    (disable_tokens disable_tokens' : DisableTokens.t) (sequences : list (list Z))
    (batch_offset : list Z) (prefix : option (list (list Z))) :
  let state := emplace_memory (encode features) initial_state in
  let no_speech_id := _no_speech_id self in
  _sot_id self ≤ _no_timestamps_id self →
  prompts ≠ [] →
  Forall (λ prompt, Z.of_nat (length prompt) < SizeT.size_modulus) prompts →
  check_prompts prompts (_sot_id self) (_no_timestamps_id self) 0 0 = Ok (si, pl) →
  WhisperOptions.return_no_speech_prob options = true →
  (∀ outputs steps,
     has_column (SoftMax <$> compute_logits_for_steps outputs steps) no_speech_id) →
  (∀ outputs steps, length (compute_logits_for_steps outputs steps) = length steps) →
  prefill self prompts options si pl state = Ok pre →
  make_decoding_options self prompts options si pl (start_step pre) = Ok decoding_options →
  decode (decoder_state pre) (start_tokens pre) (_eot_id self) decoding_options
  = Ok (results, processors) →
  length results = length prompts →
  Forall (λ result, DecodingResult.token_scores result ≠ []) results →
  (sot_is_start_token si pl = true →
   processors !! 0%nat = Some (NoSpeechProcessor reader)
   ∧ GetNoSpeechProbs.apply (GetNoSpeechProbs.new no_speech_id) 0 logits disable_tokens
       sequences batch_offset prefix
     = Ok (reader, logits', disable_tokens')
   ∧ length batch_offset = length prompts) →
  ∃ finals,
    generate self features prompts options = Ok finals
    ∧ length finals = length prompts
    ∧ (sot_is_start_token si pl = true →
       S si = pl
       ∧ DecodingOptions.logits_processors decoding_options !! 0%nat
         = Some (NoSpeechProcessor (GetNoSpeechProbs.new no_speech_id))
       ∧ GetNoSpeechProbs.apply_first (GetNoSpeechProbs.new no_speech_id) = true
       ∧ logits' = logits ∧ disable_tokens' = disable_tokens
       ∧ ∀ i final, finals !! i = Some final →
           ∃ row,
             logits !! Z.to_nat (Z.of_nat i * (StorageView.dim0 logits
                                               `div` Z.of_nat (length batch_offset)))
             = Some row
             ∧ SoftMax row !! Z.to_nat no_speech_id
               = Some (WhisperGenerationResult.no_speech_prob final))
    ∧ (sot_is_start_token si pl = false →
       (S si < pl)%nat
       ∧ (∀ p, NoSpeechProcessor p ∉ DecodingOptions.logits_processors decoding_options)
       ∧ ∀ i final, finals !! i = Some final →
           ∃ row,
             sot_logits prompts si pl state !! i = Some row
             ∧ SoftMax row !! Z.to_nat no_speech_id
               = Some (WhisperGenerationResult.no_speech_prob final))
    ∧ (∀ P : float → Prop, (∀ row, Forall P (SoftMax row)) →
       ∀ final, final ∈ finals → P (WhisperGenerationResult.no_speech_prob final)).
Proof.
  intros state no_speech_id Hle Hne Hsize Hcheck Hret Hcol Hrows Hpre Hoptions Hdecode
    Hresults Hscores Hreader. subst no_speech_id.
  destruct (validated_bounds _ _ _ _ _ _ _ Hle Hne Hcheck) as [Hlt Hall].
  pose proof (sot_is_start_token_spec prompts si pl Hne Hsize ltac:(lia) Hall) as Hstart.
  destruct (make_logits_processors_Ok self prompts options si pl Hne Hsize) as
    (last & Hlast & Hprocessors); [lia|done|].
  assert (DecodingOptions.logits_processors decoding_options
          = (if WhisperOptions.return_no_speech_prob options && sot_is_start_token si pl
             then [NoSpeechProcessor (GetNoSpeechProbs.new (_no_speech_id self))]
             else [])
            ++ (if bool_decide (last ≠ _no_timestamps_id self)
                then [TimestampProcessor (timestamp_rules self options)]
                else [])) as Hinstalled.
  { destruct (make_decoding_options_inv _ _ _ _ _ _ _ Hoptions)
      as (budget & processors' & _ & Hprocessors' & _ & _ & -> & _). congruence. }
  rewrite Hret in Hinstalled. simpl in Hinstalled.
  destruct (prefill_Ok self prompts options 0 0 si pl state Hle Hne Hcheck Hcol)
    as (pre' & Hpre' & Hone & Hmore).
  rewrite Hpre in Hpre'. injection Hpre' as <-.
  (* the probabilities that [generate] reads after [decode], and where
     each of them comes from *)
  assert (∃ probs,
            read_no_speech_probs
              (WhisperOptions.return_no_speech_prob options && sot_is_start_token si pl)
              processors (no_speech_probs pre) = Ok probs
            ∧ length probs = length prompts
            ∧ (sot_is_start_token si pl = true →
               logits' = logits ∧ disable_tokens' = disable_tokens
               ∧ ∀ i x, probs !! i = Some x →
                   ∃ row,
                     logits !! Z.to_nat (Z.of_nat i * (StorageView.dim0 logits
                                                       `div` Z.of_nat (length batch_offset)))
                     = Some row
                     ∧ SoftMax row !! Z.to_nat (_no_speech_id self) = Some x)
            ∧ (sot_is_start_token si pl = false →
               ∀ i x, probs !! i = Some x →
                 ∃ row, sot_logits prompts si pl state !! i = Some row
                        ∧ SoftMax row !! Z.to_nat (_no_speech_id self) = Some x))
    as (probs & Hprobs & Hlength & Hdeferred & Heager).
  { rewrite Hret. simpl. destruct (sot_is_start_token si pl) eqn:Hsot.
    - destruct (Hreader eq_refl) as (Hfirst & Happly & Hoffsets).
      apply no_speech_apply_inv in Happly
        as (-> & -> & _ & captured & Hcaptured & Hlen & Hfrom).
      simpl in Hcaptured. exists captured. unfold read_no_speech_probs. rewrite Hfirst.
      unfold GetNoSpeechProbs.get_no_speech_probs. rewrite Hcaptured.
      split; [done|]. split; [lia|]. split; [|done]. intros _. done.
    - symmetry in Hstart. apply bool_decide_eq_false in Hstart.
      assert (pl ≠ 1%nat) as Hpl by lia.
      destruct (Hmore Hpl) as (_ & _ & _ & _ & _ & Hfrom_prefill).
      rewrite Hret in Hfrom_prefill. simpl in Hfrom_prefill.
      eexists. split; [done|]. rewrite Hfrom_prefill. split.
      { unfold sot_logits. by rewrite length_fmap, Hrows, length_replicate. }
      split; [done|]. intros _ i x Hx. rewrite list_lookup_fmap in Hx.
      destruct (sot_logits prompts si pl state !! i) as [row|] eqn:Hrow; [|done].
      exists row. split; [done|]. simpl in Hx. injection Hx as <-.
      specialize (Hcol (forward_prompt (take (pl - 1) <$> prompts) state).2
                    (replicate (length prompts) (Z.of_nat si))).
      unfold has_column in Hcol. rewrite Forall_fmap, Forall_forall in Hcol.
      assert (row ∈ sot_logits prompts si pl state) as Hin
        by (by eapply list_elem_of_lookup_2).
      specialize (Hcol row Hin). simpl in Hcol.
      destruct (lookup_lt_is_Some_2 (SoftMax row) (Z.to_nat (_no_speech_id self)))
        as [y Hy]; [lia|].
      by rewrite Hy. }
  rewrite (generate_Ok self features prompts options si pl pre decoding_options results
             processors probs) by done.
  rewrite make_results_Ok by (done || (intros; lia)).
  assert (∀ i final,
            imap (result_of options probs) results !! i = Some final →
            probs !! i = Some (WhisperGenerationResult.no_speech_prob final)) as Hcarried.
  { intros i final Hfinal. rewrite list_lookup_imap in Hfinal.
    destruct (results !! i) as [result|] eqn:Hresult; [|done]. injection Hfinal as <-.
    unfold result_of. simpl. rewrite Hret.
    destruct (lookup_lt_is_Some_2 probs i) as [x Hx].
    { apply lookup_lt_Some in Hresult. lia. }
    by rewrite Hx. }
  eexists. split; [done|]. split; [by rewrite length_imap|]. split; [|split].
  - intros Hsot. destruct (Hdeferred Hsot) as (-> & -> & Hfrom).
    rewrite Hsot in Hstart, Hinstalled. symmetry in Hstart.
    apply bool_decide_eq_true in Hstart.
    split; [lia|]. split; [by rewrite Hinstalled|]. split; [done|].
    split; [done|]. split; [done|]. intros i final Hfinal. by apply Hfrom, Hcarried.
  - intros Hsot. rewrite Hsot in Hstart, Hinstalled. symmetry in Hstart.
    apply bool_decide_eq_false in Hstart. split; [lia|]. split.
    + intros p. rewrite Hinstalled. simpl. case_bool_decide.
      * by intros ?%list_elem_of_singleton.
      * by intros ?%elem_of_nil.
    + intros i final Hfinal. by apply (Heager Hsot), Hcarried.
  - intros P HP final [i Hfinal]%list_elem_of_lookup.
    apply Hcarried in Hfinal.
    destruct (sot_is_start_token si pl) eqn:Hsot.
    + destruct (Hdeferred eq_refl) as (_ & _ & Hfrom).
      destruct (Hfrom _ _ Hfinal) as (row & _ & Hx).
      specialize (HP row). rewrite Forall_forall in HP.
      by eapply HP, list_elem_of_lookup_2.
    + destruct (Heager eq_refl _ _ Hfinal) as (row & _ & Hx).
      specialize (HP row). rewrite Forall_forall in HP.
      by eapply HP, list_elem_of_lookup_2.
Qed.

(** *** The results *)

Lemma generate_inv self features prompts options finals :
  prompts ≠ [] →
  generate self features prompts options = Ok finals →
  ∃ si pl pre decoding_options results processors probs,
    check_prompts prompts (_sot_id self) (_no_timestamps_id self) 0 0 = Ok (si, pl)
    ∧ prefill self prompts options si pl (emplace_memory (encode features) initial_state)
      = Ok pre
    ∧ make_decoding_options self prompts options si pl (start_step pre) = Ok decoding_options
    ∧ decode (decoder_state pre) (start_tokens pre) (_eot_id self) decoding_options
      = Ok (results, processors)
    ∧ read_no_speech_probs
        (WhisperOptions.return_no_speech_prob options && sot_is_start_token si pl)
        processors (no_speech_probs pre) = Ok probs
    ∧ make_results options probs results = Ok finals.
Proof.
  intros Hne. unfold generate. destruct prompts as [|first rest]; [done|].
  intros ([si pl] & Hcheck & Hrest)%bind_Ok.
  apply bind_Ok in Hrest as (pre & Hpre & Hrest).
  apply bind_Ok in Hrest as (decoding_options & Hoptions & Hrest).
  apply bind_Ok in Hrest as ([results processors] & Hdecode & Hrest).
  apply bind_Ok in Hrest as (probs & Hprobs & Hrest).
  by exists si, pl, pre, decoding_options, results, processors, probs.
Qed.

(** C9, as the code has it. For a validated batch, [generate] calls the
    decoder on the start tokens of the prompts, in the order of the
    prompts: the row [i] of its input is the [i]-th prompt from the position
    [prompt_length - 1] on. It asks it for the scores and for the attention
    exactly when [return_scores] and [return_attention] are set, and for
    [num_hypotheses] hypotheses. When the decoder returns, with the scores
    of the tokens of a first hypothesis in every result, [generate] returns
    one result per decoding result and in the same order - one per prompt
    when the decoder returns one per row - so that the [i]-th result is
    the one of the [i]-th row of the batch: it holds the
    hypotheses of the [i]-th decoding result as ids and, through the
    vocabulary, as tokens, the score of each hypothesis and the attention
    as the decoder returned them, and the per-token scores of the first
    hypothesis only; it holds [no_speech_probs[i]] when
    [return_no_speech_prob] is set and the initial value 0 otherwise. *)
Theorem generate_results_assembly (self : WhisperReplica.t) (features : Features)
    (prompts : list (list Z)) (options : WhisperOptions.t) (si pl : nat)
    (pre : Prefill) (decoding_options : DecodingOptions.t)
    (decoded : list DecodingResult.t) (processors : list LogitsProcessor)
    (no_speech_probs : list float) :
  _sot_id self ≤ _no_timestamps_id self →
  prompts ≠ [] →
  check_prompts prompts (_sot_id self) (_no_timestamps_id self) 0 0 = Ok (si, pl) →
  prefill self prompts options si pl (emplace_memory (encode features) initial_state)
  = Ok pre →
  make_decoding_options self prompts options si pl (start_step pre) = Ok decoding_options →
  decode (decoder_state pre) (start_tokens pre) (_eot_id self) decoding_options
  = Ok (decoded, processors) →
  read_no_speech_probs
    (WhisperOptions.return_no_speech_prob options && sot_is_start_token si pl)
    processors (WhisperReplica.no_speech_probs pre) = Ok no_speech_probs →
  Forall (λ result, DecodingResult.token_scores result ≠ []) decoded →
  (WhisperOptions.return_no_speech_prob options = true →
   (length decoded ≤ length no_speech_probs)%nat) →
  length (start_tokens pre) = length prompts
  ∧ (∀ i prompt, prompts !! i = Some prompt →
                 start_tokens pre !! i = Some (drop (pl - 1) prompt))
  ∧ DecodingOptions.return_scores decoding_options = WhisperOptions.return_scores options
  ∧ DecodingOptions.return_attention decoding_options
    = WhisperOptions.return_attention options
  ∧ DecodingOptions.num_hypotheses decoding_options = WhisperOptions.num_hypotheses options
  ∧ ∃ finals,
      generate self features prompts options = Ok finals
      ∧ length finals = length decoded
      ∧ (length decoded = length (start_tokens pre) → length finals = length prompts)
      ∧ ∀ i result, decoded !! i = Some result →
          ∃ final first,
            finals !! i = Some final
            ∧ DecodingResult.token_scores result !! 0%nat = Some first
            ∧ WhisperGenerationResult.sequences final
              = to_tokens (DecodingResult.hypotheses result)
            ∧ WhisperGenerationResult.sequences_ids final = DecodingResult.hypotheses result
            ∧ WhisperGenerationResult.scores final = DecodingResult.scores result
            ∧ WhisperGenerationResult.token_scores final = first
            ∧ WhisperGenerationResult.attention final = DecodingResult.attention result
            ∧ (if WhisperOptions.return_no_speech_prob options
               then no_speech_probs !! i
                    = Some (WhisperGenerationResult.no_speech_prob final)
               else WhisperGenerationResult.no_speech_prob final = float_zero).
Proof.
  intros Hle Hne Hcheck Hpre Hoptions Hdecode Hread Hscores Hprobs.
  destruct (validated_bounds _ _ _ _ _ _ _ Hle Hne Hcheck) as [Hlt Hall].
  assert (start_tokens pre = drop (pl - 1) <$> prompts) as Hstart.
  { unfold prefill in Hpre. destruct (decide (pl = 1%nat)) as [->|Hpl].
    - rewrite bool_decide_eq_true_2 in Hpre by done. simplify_eq. simpl.
      symmetry. apply list_fmap_id.
    - rewrite bool_decide_eq_false_2 in Hpre by done.
      rewrite split_prompts_Ok in Hpre by (done || lia).
      apply bind_Ok in Hpre as (halves & [= <-] & Hpre).
      apply bind_Ok in Hpre as ([state' probs'] & _ & [= <-]). simpl.
      by rewrite <- list_fmap_compose. }
  split; [by rewrite Hstart, length_fmap|].
  split; [intros i prompt Hi; by rewrite Hstart, list_lookup_fmap, Hi|].
  destruct (make_decoding_options_inv _ _ _ _ _ _ _ Hoptions)
    as (budget & installed & _ & _ & _ & _ & _ & _ & Hreturn_scores & Hreturn_attention
        & Hnum).
  split; [done|]. split; [done|]. split; [done|].
  rewrite (generate_Ok self features prompts options si pl pre decoding_options decoded
             processors no_speech_probs Hne Hcheck Hpre Hoptions Hdecode Hread).
  rewrite make_results_Ok by done. eexists. split; [done|].
  split; [by rewrite length_imap|].
  split; [intros Hlength; rewrite length_imap, Hlength, Hstart; apply length_fmap|].
  intros i result Hresult. rewrite Forall_forall in Hscores.
  assert (DecodingResult.token_scores result ≠ []) as Hne'
    by (by eapply Hscores, list_elem_of_lookup_2).
  destruct (DecodingResult.token_scores result) as [|first rest] eqn:Htoken; [done|].
  exists (result_of options no_speech_probs i result), first.
  rewrite list_lookup_imap, Hresult. simpl. split; [done|]. split; [done|].
  split; [done|]. split; [done|]. split; [done|]. split; [by rewrite Htoken|].
  split; [done|]. destruct (WhisperOptions.return_no_speech_prob options); [|done].
  destruct (lookup_lt_is_Some_2 no_speech_probs i) as [p Hp].
  { apply lookup_lt_Some in Hresult. specialize (Hprobs eq_refl). lia. }
  by rewrite Hp.
Qed.

(** *** Language detection *)

Lemma no_throw_bind {A B} (m : outcome A) (f : A → outcome B) :
  no_throw m → (∀ a, no_throw (f a)) → no_throw (m ≫= f).
Proof.
  intros Hm Hf e. destruct m as [a|e0| |]; simpl; [apply Hf| |done|done].
  intros [= ->]. by apply (Hm e).
Qed.

Lemma no_throw_for_each {A B} (f : A → outcome B) (l : list A) :
  (∀ x, no_throw (f x)) → no_throw (for_each f l).
Proof. intros Hf e. apply for_each_not_Throw. intros x. apply Hf. Qed.

Lemma no_throw_at1 {A} (v : list A) i : no_throw (StorageView.at1 v i).
Proof. intros e. unfold StorageView.at1. case_bool_decide; [|done]. by destruct (v !! _). Qed.

Lemma no_throw_at2 {A} (v : list (list A)) i j : no_throw (StorageView.at2 v i j).
Proof.
  intros e. unfold StorageView.at2. case_bool_decide; [|done].
  by destruct (_ ≫= _).
Qed.

Lemma detect_language_no_throw self features :
  is_multilingual self = true → no_throw (detect_language self features).
Proof.
  intros Hmulti. unfold detect_language. rewrite Hmulti. simpl.
  apply no_throw_bind.
  - unfold language_probs. apply no_throw_bind; [|done].
    apply no_throw_for_each. intros [row columns].
    apply no_throw_for_each. intros column. apply no_throw_at1.
  - intros lang_probs. apply no_throw_for_each. intros i. apply no_throw_bind; [|done].
    unfold language_pairs. apply no_throw_for_each. intros j.
    apply no_throw_bind; [apply no_throw_at1|]. intros lang_id.
    apply no_throw_bind; [apply no_throw_at2|]. done.
Qed.

Lemma Gather_replicate {A} (d : A) (data : list (list A)) (columns : list Z) :
  Forall (has_column data) columns →
  StorageView.Gather data (replicate (length data) columns)
  = Ok ((λ row, (λ c, default d (row !! Z.to_nat c)) <$> columns) <$> data).
Proof.
  intros Hcolumns. unfold StorageView.Gather.
  assert (Forall (λ row, Forall (λ c, 0 ≤ c < Z.of_nat (length row)) columns) data) as Hrows.
  { apply Forall_forall. intros row Hrow. eapply Forall_impl; [done|].
    intros c Hc. unfold has_column in Hc. rewrite Forall_forall in Hc. by apply Hc. }
  clear Hcolumns. induction Hrows as [|row data Hrow _ IH]; [done|].
  change (for_each (StorageView.at1 row) columns
          ≫= (λ y, for_each (λ '(row0, columns0), for_each (StorageView.at1 row0) columns0)
                     (zip data (replicate (length data) columns))
                   ≫= λ ys, Ok (y :: ys))
          = Ok (((λ c, default d (row !! Z.to_nat c)) <$> columns)
                :: ((λ row0, (λ c, default d (row0 !! Z.to_nat c)) <$> columns) <$> data))).
  rewrite (for_each_Ok _ (λ c, default d (row !! Z.to_nat c))).
  - simpl. by rewrite IH.
  - eapply Forall_impl; [done|]. intros c Hc. simpl in Hc.
    destruct (lookup_lt_is_Some_2 row (Z.to_nat c)) as [x Hx]; [lia|].
    rewrite (at1_Ok row c x) by (done || lia). by rewrite Hx.
Qed.

Lemma at2_Ok {A} (view : list (list A)) (i j : Z) (row : list A) (x : A) :
  0 ≤ i → 0 ≤ j → view !! Z.to_nat i = Some row → row !! Z.to_nat j = Some x →
  StorageView.at2 view i j = Ok x.
Proof.
  intros Hi Hj Hrow Hx. unfold StorageView.at2. rewrite bool_decide_eq_true_2 by done.
  rewrite Hrow. simpl. by rewrite Hx.
Qed.

Lemma language_pairs_Ok (lang_ids : list Z) (lang_probs : list (list float)) (i : Z)
    (probs : list float) :
  0 ≤ i → lang_probs !! Z.to_nat i = Some probs →
  length probs = length lang_ids →
  Forall SizeT.in_range lang_ids →
  language_pairs lang_ids lang_probs i = Ok (zip (to_token <$> lang_ids) probs).
Proof.
  intros Hi Hprobs Hlen Hrange. unfold language_pairs, ids_below.
  rewrite (for_each_Ok _ (λ j, (to_token (default 0 (lang_ids !! Z.to_nat j)),
                                default float_zero (probs !! Z.to_nat j)))).
  - f_equal. apply list_eq. intros k. rewrite list_lookup_fmap.
    destruct (decide (k < length lang_ids)%nat) as [Hk|Hk].
    + rewrite lookup_seqZ_lt by lia. simpl. rewrite Z.add_0_l, Nat2Z.id.
      destruct (lookup_lt_is_Some_2 lang_ids k) as [id Hid]; [done|].
      destruct (lookup_lt_is_Some_2 probs k) as [p Hp]; [lia|].
      rewrite Hid, Hp. simpl. symmetry. apply lookup_zip_with_Some.
      exists (to_token id), p. by rewrite list_lookup_fmap, Hid.
    + rewrite lookup_seqZ_ge by lia. simpl. symmetry. apply lookup_ge_None.
      rewrite length_zip, length_fmap. lia.
  - apply Forall_forall. intros j Hj%elem_of_seqZ.
    destruct (lookup_lt_is_Some_2 lang_ids (Z.to_nat j)) as [id Hid]; [lia|].
    destruct (lookup_lt_is_Some_2 probs (Z.to_nat j)) as [p Hp]; [lia|].
    rewrite (at1_Ok lang_ids j id) by (done || lia). simpl.
    rewrite (at2_Ok lang_probs i j probs p) by (done || lia). simpl.
    rewrite Hid, Hp. simpl. rewrite Forall_forall in Hrange.
    rewrite SizeTFacts.wrap_small; [done|]. by eapply Hrange, list_elem_of_lookup_2.
Qed.

Lemma by_probability_strict_weak_order_on (tokens : list string) (probs : list float) :
  strict_weak_order_on float_gt probs →
  strict_weak_order_on by_probability (zip tokens probs).
Proof.
  intros (Hirrefl & Htrans & Hneg). unfold by_probability.
  assert (∀ a : string * float, a ∈ zip tokens probs → a.2 ∈ probs) as Hin.
  { intros [token prob] Ha. by eapply elem_of_zip_r. }
  split; [|split].
  - intros a Ha. apply Hirrefl; auto.
  - intros a b c Ha Hb Hc. apply Htrans; auto.
  - intros a b c Ha Hb Hc. apply Hneg; auto.
Qed.

Lemma strict_weak_order_on_Permutation {A} (comp : A → A → bool) (l l' : list A) :
  l ≡ₚ l' → strict_weak_order_on comp l → strict_weak_order_on comp l'.
Proof.
  intros Hperm (Hirrefl & Htrans & Hneg).
  assert (∀ a, a ∈ l' → a ∈ l) as Hin by (intros a; by rewrite Hperm).
  split; [|split].
  - intros a Ha. apply Hirrefl; auto.
  - intros a b c Ha Hb Hc. apply Htrans; auto.
  - intros a b c Ha Hb Hc. apply Hneg; auto.
Qed.

(** In a list sorted by the comparison of [detect_language] no pair comes
    after a pair of smaller probability. *)
Lemma sorted_by_descending (result : list (string * float)) :
  sorted_by by_probability result → descending_by_probability result.
Proof.
  unfold sorted_by, descending_by_probability, by_probability.
  induction 1 as [|x l _ IH Hx]; intros i j a b Hij Ha Hb; [done|].
  destruct j as [|j]; [lia|]. simpl in Hb. destruct i as [|i]; simpl in Ha.
  - simplify_eq. rewrite Forall_forall in Hx. by eapply Hx, list_elem_of_lookup_2.
  - apply (IH i j); [lia|done..].
Qed.

(** C7. [detect_language] fails with a runtime error if and only if the
    model is not multilingual. On a multilingual model it returns one list
    per batch row; the list of a row holds exactly one pair (token,
    probability) per entry of [lang_ids] - it is a permutation of the
    entries paired with the softmax of the logits gathered at the columns
    [lang_ids], from one decoder step on [sot_id] for every row - and it is
    in the order of the probabilities, the largest first: no pair comes
    after a pair whose probability is smaller, whatever the order of equal
    ones. The hypotheses of this second part are the contracts of the
    collaborators: [std::sort] sorts the values on which its comparison is
    a strict weak ordering, which [>] is on the probabilities of a row
    when none of them is NaN; the decoder returns one row of logits per
    batch row, wide enough for every language id; the softmax keeps the
    length of a row. *)
Theorem detect_language_spec (self : WhisperReplica.t) (features : Features) :
  let batch_size := features_dim0 features in
  let logits :=
    (decoder_forward 0 (replicate (Z.to_nat batch_size) bos_id)
       (emplace_memory (encode features) initial_state)).2 in
  (is_runtime_error (detect_language self features) ↔ is_multilingual self = false)
  ∧ (std_sort_contract →
     0 ≤ batch_size →
     length logits = Z.to_nat batch_size →
     Forall (λ id, SizeT.in_range id ∧ has_column logits id) config_lang_ids →
     (∀ row : list float, length (SoftMax row) = length row) →
     (∀ row, row ∈ logits → strict_weak_order_on float_gt (SoftMax (language_logits row))) →
     is_multilingual self = true →
     ∃ results,
       detect_language self features = Ok results
       ∧ length results = Z.to_nat batch_size
       ∧ ∀ i row, logits !! i = Some row →
           ∃ result,
             Forall2 (λ id x, row !! Z.to_nat id = Some x) config_lang_ids
                     (language_logits row)
             ∧ results !! i = Some result
             ∧ result ≡ₚ zip (to_token <$> config_lang_ids)
                             (SoftMax (language_logits row))
             ∧ length result = length config_lang_ids
             ∧ descending_by_probability result).
Proof.
  intros batch_size logits. split.
  { split.
    - intros [what Hthrow]. destruct (is_multilingual self) eqn:Hmulti; [|done].
      by destruct (detect_language_no_throw self features Hmulti (runtime_error what)).
    - intros Hmulti. unfold detect_language. rewrite Hmulti. by eexists. }
  intros Hsort Hbatch Hlogits Hids Hsoftmax Hswo Hmulti.
  unfold detect_language, language_probs. rewrite Hmulti. simpl.
  fold batch_size. fold logits. rewrite <- Hlogits.
  rewrite (Gather_replicate float_zero); last first.
  { eapply Forall_impl; [done|]. by intros id [_ ?]. }
  simpl. rewrite <- list_fmap_compose.
  change (λ row : list float, (λ c, default float_zero (row !! Z.to_nat c)) <$> config_lang_ids)
    with language_logits.
  set (lang_probs := (SoftMax ∘ language_logits) <$> logits).
  assert (∀ row, row ∈ logits →
            Forall2 (λ id x, row !! Z.to_nat id = Some x) config_lang_ids
                    (language_logits row))
    as Hgather.
  { intros row Hrow. unfold language_logits. apply Forall2_fmap_r, Forall_Forall2_diag.
    eapply Forall_impl; [done|]. intros id [_ Hcol]. simpl.
    unfold has_column in Hcol. rewrite Forall_forall in Hcol. specialize (Hcol row Hrow).
    destruct (lookup_lt_is_Some_2 row (Z.to_nat id)) as [x Hx]; [lia|]. by rewrite Hx. }
  rewrite (for_each_Ok _ (λ i, std_sort by_probability
                                 (zip (to_token <$> config_lang_ids)
                                      (default [] (lang_probs !! Z.to_nat i))))).
  - eexists. split; [done|]. split.
    { unfold ids_below. rewrite length_fmap, length_seqZ. lia. }
    intros i row Hrow. eexists.
    split; [by eapply Hgather, list_elem_of_lookup_2|].
    rewrite list_lookup_fmap. unfold ids_below.
    rewrite lookup_seqZ_lt by (apply lookup_lt_Some in Hrow; lia). simpl.
    rewrite Z.add_0_l, Nat2Z.id. unfold lang_probs at 1. rewrite list_lookup_fmap, Hrow.
    simpl. split; [done|].
    destruct (Hsort _ by_probability
                (zip (to_token <$> config_lang_ids) (SoftMax (language_logits row))))
      as [Hperm Hsorted].
    { apply by_probability_strict_weak_order_on, Hswo. by eapply list_elem_of_lookup_2. }
    split; [done|]. split; [|by apply sorted_by_descending].
    rewrite Hperm, length_zip, length_fmap, Hsoftmax. unfold language_logits.
    rewrite length_fmap. lia.
  - apply Forall_forall. intros i Hi%elem_of_ids_below.
    destruct (lookup_lt_is_Some_2 logits (Z.to_nat i)) as [row Hrow]; [lia|].
    assert (lang_probs !! Z.to_nat i = Some (SoftMax (language_logits row))) as Hprobs.
    { unfold lang_probs. by rewrite list_lookup_fmap, Hrow. }
    rewrite (language_pairs_Ok _ _ _ (SoftMax (language_logits row))).
    + simpl. by rewrite Hprobs.
    + lia.
    + done.
    + rewrite Hsoftmax. unfold language_logits. by rewrite length_fmap.
    + eapply Forall_impl; [done|]. by intros id [? _].
Qed.

End facts.
End WhisperReplicaFacts.

(** ** The small instance meets the contracts *)
Module TinyFacts.

Lemma softmax_length (row : list Z) : length (@SoftMax Tiny.numerics row) = length row.
Proof. simpl. apply length_fmap. Qed.

Lemma log_softmax_length (row : list Z) : length (@LogSoftMax Tiny.numerics row) = length row.
Proof. simpl. apply length_fmap. Qed.

Lemma logits_columns outputs steps column :
  0 ≤ column < 15 →
  has_column (@SoftMax Tiny.numerics
                <$> @compute_logits_for_steps Tiny.numerics Tiny.layers outputs steps)
             column.
Proof.
  intros Hcolumn. unfold has_column. simpl. rewrite !Forall_fmap.
  apply Forall_forall. intros step _. simpl. lia.
Qed.

Lemma gtb_strict_weak_order_on (l : list Z) : strict_weak_order_on Z.gtb l.
Proof.
  split; [|split].
  - intros a _. lia.
  - intros a b c _ _ _. lia.
  - intros a b c _ _ _. lia.
Qed.

Lemma insert_by_Permutation {A} (comp : A → A → bool) (x : A) (l : list A) :
  Tiny.insert_by comp x l ≡ₚ x :: l.
Proof.
  induction l as [|y l IH]; simpl; [done|]. destruct (comp x y); [done|].
  rewrite IH. apply Permutation_swap.
Qed.

Lemma insert_by_sorted {A} (comp : A → A → bool) (x : A) (l : list A) :
  strict_weak_order_on comp (x :: l) → sorted_by comp l →
  sorted_by comp (Tiny.insert_by comp x l).
Proof.
  unfold sorted_by. intros Hswo Hsorted. revert Hswo.
  induction Hsorted as [|y l Hsorted IH Hy]; intros Hswo; simpl.
  - repeat constructor.
  - destruct Hswo as (Hirrefl & Htrans & Hneg).
    assert (x ∈ x :: y :: l) as Hx by left.
    assert (y ∈ x :: y :: l) as Hy' by (right; left).
    destruct (comp x y) eqn:Hxy.
    + constructor; [by constructor|]. constructor.
      * destruct (comp y x) eqn:Hyx; [|done].
        pose proof (Htrans x y x Hx Hy' Hx Hxy Hyx). pose proof (Hirrefl x Hx). congruence.
      * rewrite Forall_forall in Hy |- *. intros z Hz. specialize (Hy z Hz). simpl in Hy.
        assert (z ∈ x :: y :: l) as Hz' by (right; by right).
        destruct (comp z x) eqn:Hzx; [|done].
        destruct (Hneg z y x Hz' Hy' Hx Hzx) as [Hzy|Hyx]; [congruence|].
        pose proof (Htrans x y x Hx Hy' Hx Hxy Hyx). pose proof (Hirrefl x Hx). congruence.
    + constructor.
      * assert (∀ a, a ∈ x :: l → a ∈ x :: y :: l) as Hsub.
        { intros a [->|?]%elem_of_cons; [left|right; by right]. }
        apply IH. split; [|split].
        -- intros a Ha. apply Hirrefl; auto.
        -- intros a b c Ha Hb Hc. apply Htrans; auto.
        -- intros a b c Ha Hb Hc. apply Hneg; auto.
      * rewrite (insert_by_Permutation comp x l). by constructor.
Qed.

Lemma sort_contract : @std_sort_contract Tiny.algorithm.
Proof.
  intros A comp l. simpl. induction l as [|x l IH]; intros Hswo; simpl.
  - split; [done|]. constructor.
  - destruct IH as [IHperm IHsorted].
    { destruct Hswo as (Hirrefl & Htrans & Hneg). split; [|split].
      - intros a Ha. apply Hirrefl. by right.
      - intros a b c Ha Hb Hc. apply Htrans; by right.
      - intros a b c Ha Hb Hc. apply Hneg; by right. }
    split.
    + by rewrite insert_by_Permutation, IHperm.
    + apply insert_by_sorted; [|done].
      eapply WhisperReplicaFacts.strict_weak_order_on_Permutation; [|done].
      by rewrite IHperm.
Qed.

End TinyFacts.

(** ** The statements on concrete inputs *)
Module Examples.

(** The batch [Tiny.batch] has SOT at position 1 and its prompt length is
    5: the last prompt token is [<|notimestamps|>] and SOT is not the start
    token. *)
Lemma prompt_length_in_bounds_example :
  5 ≤ 10
  ∧ PromptAnalyzer.check_prompts Tiny.batch 5 10 0 0 = Ok (1%nat, 5%nat)
  ∧ WhisperReplica.last_prompt_token Tiny.batch 5 = Ok 10
  ∧ WhisperReplica.sot_is_start_token 1 5 = false.
Proof.
  assert (5 ≤ 10) as Hle by lia.
  destruct (WhisperReplicaFacts.prompt_length_in_bounds Tiny.batch 5 10 0 0 Hle)
    as [_ Hbatch].
  destruct (Hbatch 1%nat 5%nat)
    as (_ & _ & (first & token & Hfirst & Htoken & Hlast) & _ & _ & Hstart).
  - done.
  - repeat (constructor; [by vm_compute|]). constructor.
  - reflexivity.
  - split; [done|]. split; [reflexivity|]. split; [|done].
    injection Hfirst as <-. injection Htoken as <-. done.
Defined.

(** The prefill of [Tiny.batch] runs on the four tokens before
    [<|notimestamps|>] and decoding starts at step 4. *)
Lemma prefill_split_example :
  WhisperReplica._sot_id Tiny.replica ≤ WhisperReplica._no_timestamps_id Tiny.replica
  ∧ PromptAnalyzer.check_prompts Tiny.batch 5 10 0 0 = Ok (1%nat, 5%nat)
  ∧ ∃ pre,
      @WhisperReplica.prefill Tiny.numerics Tiny.layers Tiny.replica Tiny.batch
        Tiny.options 1 5 (@initial_state Tiny.numerics Tiny.layers) = Ok pre
      ∧ WhisperReplica.start_tokens pre = [[10; 1]; [10]]
      ∧ WhisperReplica.start_step pre = 4.
Proof.
  split; [by vm_compute|]. split; [reflexivity|].
  destruct (@WhisperReplicaFacts.prefill_split Tiny.numerics Tiny.layers Tiny.replica
              Tiny.batch Tiny.options 0 0 1 5 (@initial_state Tiny.numerics Tiny.layers))
    as (pre & Hpre & _ & Hmore).
  - by vm_compute.
  - done.
  - reflexivity.
  - intros outputs steps. apply TinyFacts.logits_columns. by vm_compute.
  - exists pre. split; [done|].
    destruct Hmore as (_ & Hstart & _ & _ & _ & Hstep); [done|]. by rewrite Hstart, Hstep.
Defined.

(** The two prompts of [Tiny.batch]: the decoder gets their tails in their
    order, [[notimestamps, b]] and [[notimestamps]], and [generate] returns
    two results. *)
Lemma generate_results_assembly_example :
  ∃ pre finals,
    @WhisperReplica.prefill Tiny.numerics Tiny.layers Tiny.replica Tiny.batch
      Tiny.options 1 5 (@initial_state Tiny.numerics Tiny.layers) = Ok pre
    ∧ WhisperReplica.start_tokens pre !! 0%nat = Some [10; 1]
    ∧ WhisperReplica.start_tokens pre !! 1%nat = Some [10]
    ∧ Tiny.generate 2 Tiny.batch Tiny.options = Ok finals
    ∧ length finals = 2%nat.
Proof.
  destruct (@WhisperReplica.prefill Tiny.numerics Tiny.layers Tiny.replica Tiny.batch
              Tiny.options 1 5 (@initial_state Tiny.numerics Tiny.layers))
    as [pre| | |] eqn:Hpre; [|by vm_compute in Hpre..].
  assert (WhisperReplica.start_step pre = 4
          ∧ WhisperReplica.no_speech_probs pre = [1; 1]) as [Hstart Hprobs].
  { vm_compute in Hpre. by injection Hpre as <-. }
  destruct (@WhisperReplica.make_decoding_options Tiny.numerics Tiny.vocabulary Tiny.config
              Tiny.layers Tiny.beam_decoder Tiny.replica Tiny.batch Tiny.options 1 5 4)
    as [decoding_options| | |] eqn:Hoptions; [|by vm_compute in Hoptions..].
  destruct (@decode Tiny.numerics Tiny.layers Tiny.beam_decoder
              (WhisperReplica.decoder_state pre) (WhisperReplica.start_tokens pre) 4
              decoding_options) as [[decoded processors]| | |] eqn:Hdecode;
    [|by vm_compute in Hdecode..].
  assert (length decoded = 2%nat
          ∧ Forall (λ result, DecodingResult.token_scores result ≠ []) decoded)
    as [Hlength Hscores].
  { assert (length (WhisperReplica.start_tokens pre) = 2%nat) as Htails.
    { clear Hdecode. vm_compute in Hpre. by injection Hpre as <-. }
    simpl in Hdecode. injection Hdecode as <- _.
    split; [by rewrite length_fmap|]. apply Forall_fmap, Forall_forall. by intros. }
  destruct (@WhisperReplicaFacts.generate_results_assembly Tiny.numerics Tiny.vocabulary
              Tiny.config Tiny.layers Tiny.beam_decoder Tiny.replica 2%nat Tiny.batch
              Tiny.options 1 5 pre decoding_options decoded processors [1; 1])
    as (_ & Htails & _ & _ & _ & finals & Hfinals & Hcount & _).
  - by vm_compute.
  - done.
  - reflexivity.
  - exact Hpre.
  - rewrite Hstart. exact Hoptions.
  - exact Hdecode.
  - rewrite Hprobs. reflexivity.
  - exact Hscores.
  - intros _. rewrite Hlength. simpl. lia.
  - exists pre, finals. split; [reflexivity|].
    split; [exact (Htails 0%nat _ eq_refl)|]. split; [exact (Htails 1%nat _ eq_refl)|].
    split; [exact Hfinals|]. by rewrite Hcount.
Defined.

(** The id 0 of [suppress_tokens] is copied into [disable_ids] although it
    is not positive, [-1] is not in the list, and 0 is not a default
    suppressed id. *)
Lemma suppress_zero_is_copied :
  0 ∈ @WhisperReplica.expand_suppress_tokens Tiny.config [0]
  ∧ ¬ ((0 < 0 ∧ 0 ∈ [0])
       ∨ (-1 ∈ [0] ∧ 0 ∈ @config_suppress_ids Tiny.config)).
Proof.
  split.
  - vm_compute. by left.
  - intros [[? _]|[Hin _]]; [lia|].
    apply list_elem_of_singleton in Hin. lia.
Qed.

(** The result built from a decoding result with two hypotheses holds the
    per-token scores of the first hypothesis, [[3]], and does not depend on
    the per-token scores of the second. *)
Lemma second_hypothesis_token_scores_dropped :
  DecodingResult.token_scores (Tiny.two_hypotheses 2) !! 1%nat = Some [2]
  ∧ DecodingResult.token_scores (Tiny.two_hypotheses 9) !! 1%nat = Some [9]
  ∧ (∃ final,
       @WhisperReplica.make_results Tiny.numerics Tiny.vocabulary Tiny.options [1]
         [Tiny.two_hypotheses 2] = Ok [final]
       ∧ @WhisperReplica.make_results Tiny.numerics Tiny.vocabulary Tiny.options [1]
           [Tiny.two_hypotheses 9] = Ok [final]
       ∧ WhisperGenerationResult.sequences_ids final = [[11]; [12]]
       ∧ WhisperGenerationResult.token_scores final = [3]).
Proof.
  split; [reflexivity|]. split; [reflexivity|]. eexists.
  split; [reflexivity|]. split; [reflexivity|]. split; reflexivity.
Qed.

(** The rules of the small instance are well formed on one row of logits
    when the generated tokens of the row are in [sequences]. *)
Lemma rules_well_formed (step : Z) (sequences : list (list Z)) :
  (∀ t, 0 ≤ t < step → ∃ token, StorageView.at2 sequences 0 t = Ok token) →
  @TimestampRules.well_formed Tiny.numerics Tiny.helpers Tiny.rules step sequences
    Tiny.one_row [0] None.
Proof.
  intros Hdef. unfold TimestampRules.well_formed.
  split; [split; by vm_compute|]. split; [by vm_compute|]. split; [|split].
  - intros row Hrow. apply list_elem_of_singleton in Hrow as ->. by vm_compute.
  - apply TinyFacts.log_softmax_length.
  - intros b t Hb Ht. simpl in Ht. unfold StorageView.dim0 in Hb. simpl in Hb.
    assert (b = 0) as -> by lia. by apply Hdef.
Qed.

(** With the prompt [[sot, en, transcribe]] the rules are among the
    processors of the options that [decode] gets, and at the first
    generated step the ids left enabled are 11 and 12. *)
Lemma timestamp_rules_first_step_example :
  ∃ decoding_options logits' disable_tokens',
    @WhisperReplica.make_decoding_options Tiny.numerics Tiny.vocabulary Tiny.config
      Tiny.layers Tiny.beam_decoder Tiny.replica [[5; 6; 8]] Tiny.options 0 3 2
    = Ok decoding_options
    ∧ TimestampProcessor Tiny.rules ∈ DecodingOptions.logits_processors decoding_options
    ∧ @ApplyTimestampRules.apply Tiny.numerics Tiny.helpers Tiny.rules 0 Tiny.one_row
        DisableTokens.empty [[]] [0] None
      = Ok (Tiny.rules, logits', disable_tokens')
    ∧ ∀ i, 0 ≤ i ≤ 14 → ¬ DisableTokens.disabled disable_tokens' 0 i → 11 ≤ i ≤ 12.
Proof.
  destruct (@WhisperReplica.prefill Tiny.numerics Tiny.layers Tiny.replica [[5; 6; 8]]
              Tiny.options 0 3 (@initial_state Tiny.numerics Tiny.layers))
    as [pre| | |] eqn:Hpre; [|by vm_compute in Hpre..].
  assert (WhisperReplica.start_step pre = 2) as Hstart.
  { vm_compute in Hpre. by injection Hpre as <-. }
  destruct (@WhisperReplica.make_decoding_options Tiny.numerics Tiny.vocabulary Tiny.config
              Tiny.layers Tiny.beam_decoder Tiny.replica [[5; 6; 8]] Tiny.options 0 3 2)
    as [decoding_options| | |] eqn:Hoptions; [|by vm_compute in Hoptions..].
  destruct (@WhisperReplicaFacts.timestamp_rules_first_step Tiny.numerics Tiny.helpers
              Tiny.vocabulary Tiny.config Tiny.layers Tiny.beam_decoder Tiny.replica 1%nat
              [[5; 6; 8]] Tiny.options 0 3 pre decoding_options 0 Tiny.one_row
              DisableTokens.empty [[]] [0] None 0)
    as (first & last & logits' & dt' & Hfirst & Hlast & _ & Hinstalled & Hrules & _
        & Happly & _ & _ & _ & _ & Hallowed).
  - by vm_compute.
  - done.
  - repeat (constructor; [by vm_compute|]). constructor.
  - reflexivity.
  - exact Hpre.
  - rewrite Hstart. exact Hoptions.
  - apply rules_well_formed. intros t Ht. lia.
  - by vm_compute.
  - reflexivity.
  - exists decoding_options, logits', dt'. split; [reflexivity|]. split.
    + injection Hfirst as <-. injection Hlast as <-.
      destruct Hinstalled as [_ [p Hp]]; [by vm_compute|].
      pose proof (Hrules p Hp) as Heq. subst p. exact Hp.
    + split; [exact Happly|exact Hallowed].
Defined.

(** After the two timestamps 12 and 13 every timestamp is disabled. *)
Lemma later_step_rules_example :
  ∃ logits' disable_tokens',
    @ApplyTimestampRules.apply Tiny.numerics Tiny.helpers Tiny.rules 2 Tiny.one_row
      DisableTokens.empty [[12; 13]] [0] None
    = Ok (Tiny.rules, logits', disable_tokens')
    ∧ ∀ i, 11 ≤ i ≤ 14 → DisableTokens.disabled disable_tokens' 0 i.
Proof.
  destruct (@ApplyTimestampRulesFacts.later_step_rules Tiny.numerics Tiny.helpers Tiny.rules
              [[12; 13]] 2 Tiny.one_row DisableTokens.empty [0] None 0)
    as (logits' & dt' & last & penultimate & Happly & Hlast & Hpen & _ & Hclosed & _).
  - apply rules_well_formed. intros t Ht.
    assert (t = 0 ∨ t = 1) as [-> | ->] by lia; by eexists.
  - by vm_compute.
  - by vm_compute.
  - exists logits', dt'. split; [exact Happly|].
    vm_compute in Hlast. injection Hlast as <-.
    vm_compute in Hpen. injection Hpen as <-.
    apply Hclosed; by vm_compute.
Defined.

(** After the timestamp 12 and the text token 1 the row is marked, and the
    call returns the masked logits. *)
Lemma mass_check_after_disables_example :
  ∃ after_rows disable_tokens',
    @ApplyTimestampRules.apply_rows Tiny.numerics Tiny.helpers Tiny.rules 2 Tiny.one_row
      DisableTokens.empty [[12; 1]] [0] None
    = Ok (after_rows, [0])
    ∧ @ApplyTimestampRules.apply Tiny.numerics Tiny.helpers Tiny.rules 2 Tiny.one_row
        DisableTokens.empty [[12; 1]] [0] None
      = Ok (Tiny.rules, @DisableTokens.apply Tiny.numerics after_rows Tiny.one_row,
            disable_tokens').
Proof.
  destruct (@ApplyTimestampRulesFacts.mass_check_after_disables Tiny.numerics Tiny.helpers
              Tiny.rules [[12; 1]] 2 Tiny.one_row DisableTokens.empty [0] None)
    as (after_rows & check & Hrows & _ & _ & _ & Hmarked).
  - apply rules_well_formed. intros t Ht.
    assert (t = 0 ∨ t = 1) as [-> | ->] by lia; by eexists.
  - assert (check = [0]) as ->.
    { vm_compute in Hrows. by injection Hrows as _ <-. }
    destruct Hmarked as (dt' & Happly & _); [done|].
    exists after_rows, dt'. split; [exact Hrows|exact Happly].
Defined.

(** Two prompts that are SOT alone: the probability is read by the
    processor at step 0, every row of the result has one, and it lies in
    [[0, 1]]. *)
Lemma no_speech_prob_at_sot_example :
  ∃ finals,
    Tiny.generate 2 [[5]; [5]] Tiny.options = Ok finals
    ∧ length finals = 2%nat
    ∧ ∀ final, final ∈ finals → 0 ≤ WhisperGenerationResult.no_speech_prob final ≤ 1.
Proof.
  epose proof (@WhisperReplicaFacts.no_speech_prob_at_sot Tiny.numerics Tiny.vocabulary
                 Tiny.config Tiny.layers Tiny.beam_decoder Tiny.replica 2%nat [[5]; [5]]
                 Tiny.options 0 1 _ _ _ _ _
                 [reverse (seqZ 0 15); reverse (seqZ 0 15)] _ DisableTokens.empty _
                 [] [0; 1] None) as Hthm.
  edestruct Hthm as (finals & Hgenerate & Hlength & _ & _ & Hunit).
  - by vm_compute.
  - done.
  - repeat (constructor; [by vm_compute|]). constructor.
  - reflexivity.
  - reflexivity.
  - intros outputs steps. apply TinyFacts.logits_columns. by vm_compute.
  - intros outputs steps. simpl. apply length_fmap.
  - reflexivity.
  - reflexivity.
  - reflexivity.
  - reflexivity.
  - repeat constructor; done.
  - intros _. split; [reflexivity|]. split; reflexivity.
  - exists finals. split; [exact Hgenerate|]. split; [exact Hlength|].
    apply (Hunit (λ x, 0 ≤ x ≤ 1)). intros row. simpl. apply Forall_fmap, Forall_true.
    intros x. simpl. case_bool_decide; lia.
Defined.

(** On the multilingual replica and two audio segments [detect_language]
    returns two lists. *)
Lemma detect_language_spec_example :
  ∃ results,
    Tiny.detect_language Tiny.multilingual_replica 2 = Ok results
    ∧ length results = 2%nat.
Proof.
  destruct (@WhisperReplicaFacts.detect_language_spec Tiny.numerics Tiny.vocabulary
              Tiny.config Tiny.layers Tiny.algorithm Tiny.multilingual_replica 2%nat)
    as [_ Hmulti].
  destruct Hmulti as (results & Hresults & Hlength & _).
  - apply TinyFacts.sort_contract.
  - by vm_compute.
  - reflexivity.
  - repeat (constructor; [split; [by vm_compute|repeat constructor; by vm_compute]|]).
    constructor.
  - apply TinyFacts.softmax_length.
  - intros row _. apply TinyFacts.gtb_strict_weak_order_on.
  - reflexivity.
  - exists results. split; [exact Hresults|exact Hlength].
Defined.

End Examples.

(** ** The scenarios of the specification on the small instance *)
Module Scenarios.

(** An empty batch returns no result. *)
Example empty_batch : Tiny.generate 0 [] Tiny.options = Ok [].
Proof. reflexivity. Qed.

(** A prompt that is SOT alone: prompt length 1, SOT is the start token,
    and the reader of the no-speech probability is the first processor. *)
Example short_prompt :
  PromptAnalyzer.check_prompts [[5]] 5 10 0 0 = Ok (0%nat, 1%nat)
  ∧ WhisperReplica.sot_is_start_token 0 1 = true
  ∧ @WhisperReplica.make_logits_processors Tiny.numerics Tiny.vocabulary Tiny.replica
      [[5]] Tiny.options 0 1
    = Ok [NoSpeechProcessor (@GetNoSpeechProbs.new Tiny.numerics 9);
          TimestampProcessor Tiny.rules].
Proof. repeat split; reflexivity. Qed.

(** A task prompt that ends with [<|notimestamps|>]: prompt length 4, SOT
    is not the start token, no processor is installed. *)
Example task_prompt :
  PromptAnalyzer.check_prompts [[5; 6; 8; 10]] 5 10 0 0 = Ok (0%nat, 4%nat)
  ∧ WhisperReplica.sot_is_start_token 0 4 = false
  ∧ @WhisperReplica.make_logits_processors Tiny.numerics Tiny.vocabulary Tiny.replica
      [[5; 6; 8; 10]] Tiny.options 0 4
    = Ok [].
Proof. repeat split; reflexivity. Qed.

(** A prompt that asks for timestamps: only the timestamp rules are
    installed, the probability comes from the prefill. *)
Example timestamps_prompt :
  @WhisperReplica.make_logits_processors Tiny.numerics Tiny.vocabulary Tiny.replica
    [[5; 6; 8]] Tiny.options 0 3
  = Ok [TimestampProcessor Tiny.rules].
Proof. reflexivity. Qed.

(** Two prompts with different numbers of task tokens are refused. *)
Example batch_mismatch :
  is_invalid_argument (Tiny.generate 2 [[5; 6]; [5; 6; 8]] Tiny.options).
Proof. by eexists. Qed.

(** Language detection on a model that is not multilingual is refused. *)
Example english_only : is_runtime_error (Tiny.detect_language Tiny.replica 1).
Proof. by eexists. Qed.

(** The eager and the deferred reading of the no-speech probability: after
    a prefill the logits of the small decoder peak at [<|nospeech|>], after
    one step they do not. *)
Example no_speech_prob_values :
  Tiny.generate 1 [[5; 6; 8]] Tiny.options
  = Ok [@WhisperGenerationResult.Build_t Tiny.numerics [["<|0.00|>"]] [[11]] [3] [3] [] 1]
  ∧ Tiny.generate 1 [[5]] Tiny.options
    = Ok [@WhisperGenerationResult.Build_t Tiny.numerics [["<|0.00|>"]] [[11]] [3] [3] [] 0].
Proof. split; reflexivity. Qed.

(** With [sot_id] above [no_timestamps_id] the prompt length is 0 and the
    split of the prompts leaves them. *)
Example sot_above_no_timestamps :
  @WhisperReplica.generate Tiny.numerics Tiny.vocabulary Tiny.config Tiny.layers
    Tiny.beam_decoder
    {| WhisperReplica._sot_id := 5; WhisperReplica._eot_id := 4;
       WhisperReplica._no_timestamps_id := 3; WhisperReplica._no_speech_id := 9;
       WhisperReplica._is_multilingual := false |}
    1%nat [[5]] Tiny.options
  = Undefined.
Proof. reflexivity. Qed.

(** The sort of the language pairs puts the larger probability first. *)
Example detect_two_languages :
  Tiny.detect_language Tiny.multilingual_replica 1 = Ok [[("<|en|>", 1); ("<|fr|>", 0)]].
Proof. reflexivity. Qed.

End Scenarios.

(** ** The shape of a prompt

    What the two indices of a prompt depend on: the tokens before SOT only
    by their number, the tokens after the task tokens not at all. *)
Module PromptShape.
Import PromptAnalyzer PromptAnalyzerFacts.

Lemma std_find_app_l x prompt suffix :
  x ∈ prompt → std_find x (prompt ++ suffix) = std_find x prompt.
Proof.
  induction prompt as [|tok rest IH]; simpl.
  - by intros ?%elem_of_nil.
  - intros Hin. case_bool_decide; [done|]. f_equal. apply IH.
    apply elem_of_cons in Hin as [->|]; done.
Qed.

Lemma std_find_app_r x previous prompt :
  x ∉ previous → std_find x (previous ++ prompt) = (length previous + std_find x prompt)%nat.
Proof.
  induction previous as [|tok rest IH]; simpl; [done|].
  intros Hin. apply not_elem_of_cons in Hin as [? ?].
  rewrite bool_decide_eq_false_2 by done. f_equal. by apply IH.
Qed.

(** The loop stops inside [tokens]: what follows them is not read. *)
Lemma skip_task_tokens_app sot_id no_timestamps_id tokens suffix index :
  (skip_task_tokens sot_id no_timestamps_id tokens index < index + length tokens)%nat →
  skip_task_tokens sot_id no_timestamps_id (tokens ++ suffix) index
  = skip_task_tokens sot_id no_timestamps_id tokens index.
Proof.
  revert index. induction tokens as [|tok rest IH]; simpl; intros index Hlt; [lia|].
  destruct (bool_decide (sot_id ≤ tok) && bool_decide (tok ≤ no_timestamps_id)); [|done].
  apply IH. lia.
Qed.

Lemma skip_task_tokens_shift sot_id no_timestamps_id tokens index n :
  skip_task_tokens sot_id no_timestamps_id tokens (n + index)
  = (n + skip_task_tokens sot_id no_timestamps_id tokens index)%nat.
Proof.
  revert index. induction tokens as [|tok rest IH]; simpl; intros index; [done|].
  destruct (bool_decide (sot_id ≤ tok) && bool_decide (tok ≤ no_timestamps_id)); [|done].
  by rewrite <- IH, Nat.add_succ_r.
Qed.

Lemma prompt_pair_app_l prompt suffix sot_id no_timestamps_id :
  sot_id ∈ prompt →
  ((prompt_pair prompt sot_id no_timestamps_id).2 < length prompt)%nat →
  prompt_pair (prompt ++ suffix) sot_id no_timestamps_id
  = prompt_pair prompt sot_id no_timestamps_id.
Proof.
  intros Hin Hlt. unfold prompt_pair in *. simpl in Hlt.
  rewrite std_find_app_l by done. f_equal.
  pose proof (std_find_le sot_id prompt) as Hle.
  rewrite drop_app_le by done. apply skip_task_tokens_app.
  rewrite length_drop. lia.
Qed.

Lemma prompt_pair_app_r previous prompt sot_id no_timestamps_id :
  sot_id ∉ previous →
  prompt_pair (previous ++ prompt) sot_id no_timestamps_id
  = ((length previous + (prompt_pair prompt sot_id no_timestamps_id).1)%nat,
     (length previous + (prompt_pair prompt sot_id no_timestamps_id).2)%nat).
Proof.
  intros Hin. unfold prompt_pair. simpl. rewrite std_find_app_r by done. f_equal.
  rewrite drop_app_ge by lia.
  replace (length previous + std_find sot_id prompt - length previous)%nat
    with (std_find sot_id prompt) by lia.
  apply skip_task_tokens_shift.
Qed.

(** After a first prompt that holds SOT, the loop goes on with the pair
    of that prompt. *)
Lemma check_prompts_cons first rest sot_id no_timestamps_id sot_index0 prompt_length0 :
  sot_id ∈ first →
  check_prompts (first :: rest) sot_id no_timestamps_id sot_index0 prompt_length0
  = check_prompts_from rest sot_id no_timestamps_id false
      (prompt_pair first sot_id no_timestamps_id).1
      (prompt_pair first sot_id no_timestamps_id).2.
Proof.
  intros Hin. unfold check_prompts. simpl.
  by rewrite get_sot_index_found, get_prompt_length_found by done.
Qed.

(** X1. The tokens after the task tokens do not count: when the prompts of
    a batch are one common head, whose task tokens end before its last
    token, followed by any tokens, [check_prompts] accepts the batch and
    returns the two indices of the head. *)
Theorem check_prompts_ignores_text (head : list Z) (suffixes : list (list Z))
    (sot_id no_timestamps_id : Z) (sot_index0 prompt_length0 : nat) :
  sot_id ∈ head →
  ((prompt_pair head sot_id no_timestamps_id).2 < length head)%nat →
  suffixes ≠ [] →
  check_prompts ((λ suffix, head ++ suffix) <$> suffixes) sot_id no_timestamps_id
    sot_index0 prompt_length0
  = Ok (prompt_pair head sot_id no_timestamps_id)
  ∧ ∀ suffix,
      get_sot_index (head ++ suffix) sot_id = get_sot_index head sot_id
      ∧ get_prompt_length (head ++ suffix) sot_id no_timestamps_id
        = get_prompt_length head sot_id no_timestamps_id.
Proof.
  intros Hin Hlt Hne.
  assert (∀ suffix, sot_id ∈ head ++ suffix) as Hin' by (intros; apply elem_of_app; auto).
  split.
  - destruct suffixes as [|suffix rest]; [done|].
    rewrite fmap_cons, check_prompts_cons, prompt_pair_app_l by done.
    destruct (prompt_pair head sot_id no_timestamps_id) as [si pl] eqn:Hpair. simpl.
    destruct (check_prompts_from_rest ((λ suffix, head ++ suffix) <$> rest)
                sot_id no_timestamps_id si pl) as [[-> _]|[_ Hex]]; [done|].
    apply Exists_exists in Hex as (prompt & (s & -> & _)%list_elem_of_fmap & Hbad).
    destruct Hbad as [Hbad|Hbad]; [by destruct Hbad|].
    rewrite prompt_pair_app_l in Hbad by (by rewrite ?Hpair). done.
  - intros suffix. rewrite !get_sot_index_found, !get_prompt_length_found by done.
    by rewrite prompt_pair_app_l, std_find_app_l.
Qed.

(** X2. The tokens before SOT count only by their number: putting
    [previous] tokens, none of them SOT, in front of a prompt adds their
    number to both indices, and the prompt is rejected with them exactly
    when it is rejected without them. *)
Theorem previous_text_shifts_indices (previous prompt : list Z)
    (sot_id no_timestamps_id : Z) :
  sot_id ∉ previous →
  get_sot_index (previous ++ prompt) sot_id
  = Nat.add (length previous) <$> get_sot_index prompt sot_id
  ∧ get_prompt_length (previous ++ prompt) sot_id no_timestamps_id
    = Nat.add (length previous) <$> get_prompt_length prompt sot_id no_timestamps_id.
Proof.
  intros Hprev. destruct (decide (sot_id ∈ prompt)) as [Hin|Hin].
  - assert (sot_id ∈ previous ++ prompt) as Hin' by (apply elem_of_app; auto).
    rewrite !get_sot_index_found, !get_prompt_length_found by done.
    rewrite prompt_pair_app_r by done. simpl. by rewrite std_find_app_r.
  - assert (sot_id ∉ previous ++ prompt) as Hin'.
    { intros [?|?]%elem_of_app; done. }
    assert (∀ p, sot_id ∉ p → get_sot_index p sot_id
      = Throw (invalid_argument "<|startoftranscript|> token was not found in the prompt"))
      as Hthrow.
    { intros p Hp. unfold get_sot_index. rewrite bool_decide_eq_true_2; [done|].
      pose proof (std_find_le sot_id p). pose proof (std_find_lt sot_id p) as Hlt.
      destruct (decide (std_find sot_id p = length p)); [done|].
      destruct Hp. apply Hlt. lia. }
    unfold get_prompt_length. by rewrite !Hthrow.
Qed.

(** X3. The prompt length of a prompt that holds SOT is above the index of
    SOT exactly when [sot_id <= no_timestamps_id]: otherwise SOT is not a
    task token itself, the loop of [get_prompt_length] stops at once and
    the two indices are equal. *)
Theorem prompt_length_above_sot_index (prompt : list Z) (sot_id no_timestamps_id : Z) :
  sot_id ∈ prompt →
  ∃ sot_index prompt_length,
    get_sot_index prompt sot_id = Ok sot_index
    ∧ get_prompt_length prompt sot_id no_timestamps_id = Ok prompt_length
    ∧ (sot_index ≤ prompt_length ≤ length prompt)%nat
    ∧ ((sot_index < prompt_length)%nat ↔ sot_id ≤ no_timestamps_id)
    ∧ (no_timestamps_id < sot_id → prompt_length = sot_index).
Proof.
  intros Hin. rewrite get_sot_index_found, get_prompt_length_found by done.
  eexists _, _. split; [done|]. split; [done|].
  unfold prompt_pair. simpl.
  set (si := std_find sot_id prompt).
  pose proof (std_find_lookup _ _ Hin) as Hsot. fold si in Hsot.
  pose proof (std_find_le sot_id prompt) as Hle. fold si in Hle.
  destruct (is_prompt_length_skip prompt sot_id no_timestamps_id si Hle)
    as (Hbound & Hin_task & Hout).
  set (pl := skip_task_tokens sot_id no_timestamps_id (drop si prompt) si) in *.
  assert (si < length prompt)%nat by (by apply std_find_lt).
  split; [done|].
  assert ((si < pl)%nat ↔ sot_id ≤ no_timestamps_id) as Hiff.
  { split.
    - intros Hlt. destruct (Hin_task si) as (tok & Hlook & Htask); [lia|].
      rewrite Hsot in Hlook. simplify_eq. unfold task_token in Htask. lia.
    - intros Hord. destruct (decide (si < pl)%nat); [done|].
      destruct Hout as (tok & Hlook & Hno); [lia|].
      replace pl with si in Hlook by lia. rewrite Hsot in Hlook. simplify_eq.
      destruct Hno. unfold task_token. lia. }
  split; [done|]. intros Hgt.
  destruct (decide (si < pl)%nat) as [Hlt|]; [|lia]. apply Hiff in Hlt. lia.
Qed.

End PromptShape.

(** ** What [generate] hands to the decoder, and when it fails *)
Module DecodingSetup.
Section facts.
Context `{!Numerics} `{!DecodingHelpers} `{!Vocabulary} `{!ModelConfig}
        `{!Layers} `{!BeamDecoder} `{!StdAlgorithm}.
Import WhisperReplica PromptAnalyzer PromptAnalyzerFacts WhisperReplicaFacts.

(** A batch with a prompt without SOT, or with a prompt whose indices
    differ from those of the first one, is rejected. *)
Lemma check_prompts_rejects (prompts : list (list Z)) sot_id no_timestamps_id s0 p0 :
  Exists (λ prompt, sot_id ∉ prompt) prompts
  ∨ (∃ first rest,
       prompts = first :: rest
       ∧ Exists (λ prompt, prompt_pair prompt sot_id no_timestamps_id
                           ≠ prompt_pair first sot_id no_timestamps_id) rest) →
  is_invalid_argument (check_prompts prompts sot_id no_timestamps_id s0 p0).
Proof.
  intros Hbad. destruct prompts as [|first rest].
  { destruct Hbad as [?%Exists_nil|(? & ? & [=] & _)]; done. }
  destruct (decide (sot_id ∈ first)) as [Hin|Hin]; last first.
  { unfold check_prompts. simpl.
    by destruct (get_sot_index_missing _ _ Hin) as [what ->]; eexists. }
  rewrite PromptShape.check_prompts_cons by done.
  destruct (prompt_pair first sot_id no_timestamps_id) as [si pl] eqn:Hpair. simpl.
  destruct (check_prompts_from_rest rest sot_id no_timestamps_id si pl)
    as [[_ Hall]|[Hthrow _]]; [|done].
  rewrite Forall_forall in Hall.
  destruct Hbad as [Hlack|(f & r & [= <- <-] & Hdiff)].
  - apply Exists_cons in Hlack as [?|Hlack]; [done|].
    apply Exists_exists in Hlack as (prompt & Hp & ?). by destruct (Hall _ Hp).
  - apply Exists_exists in Hdiff as (prompt & Hp & Hne).
    destruct (Hall _ Hp) as [_ Heq]. rewrite Hpair in Hne. done.
Qed.

Lemma generate_Throw self features prompts options e :
  check_prompts prompts (_sot_id self) (_no_timestamps_id self) 0 0 = Throw e →
  generate self features prompts options = Throw e.
Proof.
  intros Hcheck. unfold generate. destruct prompts as [|first rest]; [done|].
  by rewrite Hcheck.
Qed.

(** X4. [generate] validates the prompts before anything else: on a batch
    where a prompt has no SOT token, or where a prompt's indices differ
    from those of the first prompt, it throws an invalid-argument error,
    whatever the features, the options, the layers and the decoder are; so
    does the overload that takes the prompts as strings. *)
Theorem generate_rejects_invalid_prompts (self : WhisperReplica.t) (features : Features)
    (prompts : list (list Z)) (options : WhisperOptions.t) :
  Exists (λ prompt, _sot_id self ∉ prompt) prompts
  ∨ (∃ first rest,
       prompts = first :: rest
       ∧ Exists (λ prompt,
                   prompt_pair prompt (_sot_id self) (_no_timestamps_id self)
                   ≠ prompt_pair first (_sot_id self) (_no_timestamps_id self)) rest) →
  is_invalid_argument (generate self features prompts options)
  ∧ ∀ tokens, to_ids tokens = prompts →
              is_invalid_argument (generate_tokens self features tokens options).
Proof.
  intros Hbad.
  destruct (check_prompts_rejects prompts (_sot_id self) (_no_timestamps_id self) 0 0 Hbad)
    as [what Hcheck].
  pose proof (generate_Throw self features prompts options _ Hcheck) as Hgen.
  split; [by eexists|]. intros tokens <-. unfold generate_tokens. by eexists.
Qed.

(** What the prefill leaves, whether or not the no-speech probability is
    read during it. *)
Lemma prefill_inv (self : WhisperReplica.t) (prompts : list (list Z))
    (options : WhisperOptions.t) (s0 p0 si pl : nat) (state : DecoderState) pre :
  _sot_id self ≤ _no_timestamps_id self →
  prompts ≠ [] →
  check_prompts prompts (_sot_id self) (_no_timestamps_id self) s0 p0 = Ok (si, pl) →
  prefill self prompts options si pl state = Ok pre →
  start_step pre = Z.of_nat pl - 1
  ∧ start_tokens pre = drop (pl - 1) <$> prompts.
Proof.
  intros Hle Hne Hcheck Hpre.
  destruct (validated_bounds _ _ _ _ _ _ _ Hle Hne Hcheck) as [Hlt Hall].
  unfold prefill in Hpre. destruct (decide (pl = 1%nat)) as [->|Hpl].
  { rewrite bool_decide_eq_true_2 in Hpre by done. simplify_eq. simpl.
    split; [done|]. symmetry. apply list_fmap_id. }
  rewrite bool_decide_eq_false_2 in Hpre by done.
  rewrite split_prompts_Ok in Hpre by (done || lia).
  apply bind_Ok in Hpre as (halves & [= <-] & Hpre).
  apply bind_Ok in Hpre as ([state' probs] & _ & [= <-]). simpl.
  rewrite <- !list_fmap_compose.
  change (fst ∘ (λ prompt : list Z, (take (pl - 1) prompt, drop (pl - 1) prompt)))
    with (take (A:=Z) (pl - 1)).
  change (snd ∘ (λ prompt : list Z, (take (pl - 1) prompt, drop (pl - 1) prompt)))
    with (drop (A:=Z) (pl - 1)).
  split; [|done].
  assert (Forall (λ prefix, length prefix = (pl - 1)%nat) (take (pl - 1) <$> prompts))
    as Hprefixes.
  { apply Forall_fmap. eapply Forall_impl; [done|]. intros prompt Hlen. simpl in *.
    rewrite length_take. lia. }
  destruct (make_sequence_inputs_uniform _ _ Hprefixes) as [_ Hdim].
  rewrite Hdim by (by destruct prompts). lia.
Qed.

(** The conversion of a [size_t] to [dim_t] keeps a value below [2^63]. *)
Lemma of_size_t_small z : 0 ≤ z ≤ DimT.max_value → DimT.of_size_t z = z.
Proof.
  unfold DimT.of_size_t, DimT.max_value, SizeT.size_modulus. intros Hz.
  rewrite Z.mod_small; lia.
Qed.

(** X5. The length budget of a validated batch, for a [max_length] below
    [2^63], which the conversion to [dim_t] keeps. The decoder starts at
    the step [prompt_length - 1], and the value computed for its
    [max_length] is [min(max_length / 2, max_length - start_step)]: never
    more than half of [max_length], never past [max_length] in total, and
    negative exactly when the prompt before its last token is longer than
    [max_length]. When it is not negative, it is the value that the field
    of the options holds, for a field whose type keeps the values from 0
    to [2^63 - 1]. *)
Theorem decoding_length_budget (self : WhisperReplica.t) (prompts : list (list Z))
    (options : WhisperOptions.t) (si pl : nat) (state : DecoderState)
    (pre : Prefill) (decoding_options : DecodingOptions.t) :
  _sot_id self ≤ _no_timestamps_id self →
  prompts ≠ [] →
  check_prompts prompts (_sot_id self) (_no_timestamps_id self) 0 0 = Ok (si, pl) →
  prefill self prompts options si pl state = Ok pre →
  make_decoding_options self prompts options si pl (start_step pre)
  = Ok decoding_options →
  0 ≤ WhisperOptions.max_length options ≤ DimT.max_value →
  (∀ v, 0 ≤ v ≤ DimT.max_value → to_max_length v = v) →
  let start := DecodingOptions.start_step decoding_options in
  let total := WhisperOptions.max_length options in
  ∃ budget,
    max_decoding_length options start = Ok budget
    ∧ DecodingOptions.max_length decoding_options = to_max_length budget
    ∧ start = Z.of_nat pl - 1
    ∧ budget = Z.min (total `quot` 2) (total - start)
    ∧ 2 * budget ≤ total
    ∧ start + budget ≤ total
    ∧ (budget < 0 ↔ total < start)
    ∧ (start ≤ total →
       0 ≤ budget ∧ DecodingOptions.max_length decoding_options = budget).
Proof.
  intros Hle Hne Hcheck Hpre Hoptions Htotal Hfield.
  destruct (prefill_inv _ _ _ _ _ _ _ _ _ Hle Hne Hcheck Hpre) as [Hstart _].
  destruct (make_decoding_options_inv _ _ _ _ _ _ _ Hoptions)
    as (budget & processors & Hbudget & _ & Hstep & Hlength & _).
  simpl. rewrite Hstep. exists budget. split; [done|]. split; [done|].
  split; [done|]. rewrite Hstart in *.
  unfold max_decoding_length in Hbudget. rewrite of_size_t_small in Hbudget by done.
  apply bind_Ok in Hbudget as (remaining & Hremaining & [= <-]).
  unfold DimT.sub in Hremaining. case_bool_decide as Hrange; [|done].
  injection Hremaining as <-.
  pose proof (Z.quot_pos (WhisperOptions.max_length options) 2 ltac:(lia) ltac:(lia)).
  pose proof (Z.mul_quot_le (WhisperOptions.max_length options) 2 ltac:(lia) ltac:(lia)).
  pose proof (Z.quot_le_upper_bound (WhisperOptions.max_length options) 2
                (WhisperOptions.max_length options) ltac:(lia) ltac:(lia)).
  split; [done|]. split; [lia|]. split; [lia|]. split; [lia|]. intros Hfits.
  split; [lia|]. rewrite Hlength. apply Hfield. lia.
Qed.

(** X6. The timestamp rules that [generate] builds are usable as they are:
    when [no_timestamps_id] is an id of the vocabulary and the size of the
    vocabulary fits a [size_t], the timestamps are the ids from
    [no_timestamps_id + 1] to the last id of the vocabulary, and a call at
    any step returns, on logits whose rows cover the vocabulary and
    sequences that hold the generated tokens; it returns as many rows of
    logits as it was given. *)
Theorem timestamp_rules_defined (self : WhisperReplica.t) (options : WhisperOptions.t)
    (step : Z) (logits : list (list float)) (disable_tokens : DisableTokens.t)
    (sequences : list (list Z)) (batch_offset : list Z)
    (prefix : option (list (list Z))) :
  0 ≤ _no_timestamps_id self < vocabulary_size →
  vocabulary_size < SizeT.size_modulus →
  (∀ row, row ∈ logits → vocabulary_size ≤ Z.of_nat (length row)) →
  (∀ row : list float, length (LogSoftMax row) = length row) →
  (∀ b t, 0 ≤ b < StorageView.dim0 logits →
          get_sample_begin (StorageView.dim0 logits) b batch_offset prefix ≤ t < step →
          ∃ token, StorageView.at2 sequences b t = Ok token) →
  let rules := timestamp_rules self options in
  ApplyTimestampRules._timestamp_begin_id rules = _no_timestamps_id self + 1
  ∧ ApplyTimestampRules._timestamp_end_id rules = vocabulary_size - 1
  ∧ TimestampRules.well_formed rules step sequences logits batch_offset prefix
  ∧ ∃ logits' disable_tokens',
      ApplyTimestampRules.apply rules step logits disable_tokens sequences
        batch_offset prefix
      = Ok (rules, logits', disable_tokens')
      ∧ length logits' = length logits.
Proof.
  intros Hid Hsize Hwidth Hlsm Hseq rules.
  assert (ApplyTimestampRules._timestamp_begin_id rules = _no_timestamps_id self + 1) as Hb.
  { simpl. apply SizeTFacts.add_small; lia. }
  assert (ApplyTimestampRules._timestamp_end_id rules = vocabulary_size - 1) as He.
  { simpl. apply SizeTFacts.sub_small; lia. }
  assert (TimestampRules.well_formed rules step sequences logits batch_offset prefix) as Hwf.
  { unfold TimestampRules.well_formed. rewrite Hb, He. unfold SizeT.SIZE_MAX.
    split; [lia|]. split; [lia|]. split; [|by split].
    intros row Hrow. specialize (Hwidth row Hrow). lia. }
  split; [done|]. split; [done|]. split; [done|].
  destruct (ApplyTimestampRulesFacts.apply_spec rules sequences step logits disable_tokens
              batch_offset prefix Hwf)
    as (after_rows & check & logits' & dt' & _ & Happly & _ & _ & Hnil & Hcons).
  exists logits', dt'. split; [done|].
  destruct (decide (check = [])) as [Hc|Hc].
  - by destruct (Hnil Hc) as [-> _].
  - destruct (Hcons Hc) as [-> _]. apply DisableTokensFacts.length_apply.
Qed.

(** A loop whose body returns or is undefined does one of the two. *)
Lemma for_each_Ok_or_Undefined {A B} (f : A → outcome B) (l : list A) :
  (∀ x, f x = Undefined ∨ ∃ y, f x = Ok y) →
  for_each f l = Undefined ∨ ∃ ys, for_each f l = Ok ys.
Proof.
  intros Hf. induction l as [|x l IH]; simpl; [right; by eexists|].
  destruct (Hf x) as [->|[y ->]]; simpl; [by left|].
  destruct IH as [->|[ys ->]]; simpl; [by left|right; by eexists].
Qed.

Lemma make_result_Ok_or_Undefined options (no_speech_probs : list float) i result :
  make_result options no_speech_probs i result = Undefined
  ∨ ∃ final, make_result options no_speech_probs i result = Ok final.
Proof.
  unfold make_result.
  destruct (DecodingResult.token_scores result !! 0%nat); simpl; [|by left].
  destruct (WhisperOptions.return_no_speech_prob options); [|right; by eexists].
  destruct (no_speech_probs !! i); simpl; [right; by eexists|by left].
Qed.

(** X7. The loop that builds the results returns exactly when every
    decoding result has the token scores of a first hypothesis and, if the
    no-speech probability is asked for, there is one probability per
    result; otherwise it reads outside a vector and is undefined. It never
    throws. *)
Theorem make_results_defined (options : WhisperOptions.t) (no_speech_probs : list float)
    (results : list DecodingResult.t) :
  let readable :=
    Forall (λ result, DecodingResult.token_scores result ≠ []) results
    ∧ (WhisperOptions.return_no_speech_prob options = true →
       (length results ≤ length no_speech_probs)%nat) in
  (readable →
   make_results options no_speech_probs results
   = Ok (imap (result_of options no_speech_probs) results))
  ∧ (¬ readable → make_results options no_speech_probs results = Undefined).
Proof.
  intros readable. split.
  { intros [? ?]. by apply make_results_Ok. }
  intros Hbad. unfold make_results.
  destruct (for_each_Ok_or_Undefined
              (λ '(i, result), make_result options no_speech_probs i result)
              (imap pair results)) as [?|[finals Hfinals]]; [|done|].
  { intros [i result]. apply make_result_Ok_or_Undefined. }
  destruct Hbad. apply for_each_inv in Hfinals.
  assert (∀ i result, results !! i = Some result →
            DecodingResult.token_scores result ≠ []
            ∧ (WhisperOptions.return_no_speech_prob options = true →
               (i < length no_speech_probs)%nat)) as Hall.
  { intros i result Hlook.
    assert (imap pair results !! i = Some (i, result)) as Hi
      by (by rewrite list_lookup_imap, Hlook).
    destruct (Forall2_lookup_l _ _ _ _ _ Hfinals Hi) as (final & _ & Hfinal).
    simpl in Hfinal. unfold make_result in Hfinal.
    apply bind_Ok in Hfinal as (scores & Hscores%of_option_Ok & Hfinal).
    apply bind_Ok in Hfinal as (prob & Hprob & _). split.
    - intros Hnil. by rewrite Hnil in Hscores.
    - intros Hret. rewrite Hret in Hprob. apply of_option_Ok in Hprob.
      by eapply lookup_lt_Some. }
  split.
  - apply Forall_lookup. intros i result Hlook. by destruct (Hall i result Hlook).
  - intros Hret. destruct (decide (results = [])) as [->|Hne]; [simpl; lia|].
    destruct (lookup_lt_is_Some_2 results (length results - 1)) as [result Hlook].
    { destruct results; [done|]. simpl. lia. }
    destruct (Hall _ _ Hlook) as [_ Hlt]. specialize (Hlt Hret). lia.
Qed.

(** The column of every row is read, or the read is undefined. *)
Lemma get_no_speech_probs_from_logits_defined (logits : list (list float)) no_speech_id :
  (has_column (SoftMax <$> logits) no_speech_id →
   get_no_speech_probs_from_logits logits no_speech_id
   = Ok ((λ row, default float_zero (SoftMax row !! Z.to_nat no_speech_id)) <$> logits))
  ∧ (¬ has_column (SoftMax <$> logits) no_speech_id →
     get_no_speech_probs_from_logits logits no_speech_id = Undefined).
Proof.
  split; [apply get_no_speech_probs_from_logits_Ok|].
  intros Hbad. unfold get_no_speech_probs_from_logits, StorageView.Gather1.
  destruct (for_each_Ok_or_Undefined
              (λ '(row, column), StorageView.at1 (A:=float) row column)
              (zip (SoftMax <$> logits) (replicate (length (SoftMax <$> logits)) no_speech_id)))
    as [?|[probs Hprobs]]; [|done|].
  { intros [row column]. unfold StorageView.at1. case_bool_decide; [|by left].
    destruct (row !! Z.to_nat column); simpl; [right; by eexists|by left]. }
  destruct Hbad. apply for_each_inv in Hprobs.
  apply Forall_lookup. intros k row Hrow.
  assert (zip (SoftMax <$> logits) (replicate (length (SoftMax <$> logits)) no_speech_id) !! k
          = Some (row, no_speech_id)) as Hk.
  { apply lookup_zip_with_Some. exists row, no_speech_id. split; [done|]. split; [done|].
    apply lookup_replicate_2. by eapply lookup_lt_Some. }
  destruct (Forall2_lookup_l _ _ _ _ _ Hprobs Hk) as (x & _ & Hx).
  simpl in Hx. unfold StorageView.at1 in Hx. case_bool_decide; [|done].
  apply of_option_Ok, lookup_lt_Some in Hx. lia.
Qed.

(** X8. The reader of the no-speech probability, called at step 0, returns
    exactly when the batch is not empty, the logits have a row, and the
    softmax of every row has the column [no_speech_id]; otherwise it is
    undefined (a division by zero or a read outside a vector). When it
    returns, it has appended one probability per batch entry and has left
    the logits and the disabled tokens as they were; a second call at step
    0 appends again. At any other step the call changes nothing. *)
Theorem no_speech_apply_defined (p : GetNoSpeechProbs.t) (logits : list (list float))
    (disable_tokens : DisableTokens.t) (sequences : list (list Z))
    (batch_offset : list Z) (prefix : option (list (list Z))) :
  let r := GetNoSpeechProbs.apply p 0 logits disable_tokens sequences batch_offset prefix in
  let readable :=
    batch_offset ≠ [] ∧ logits ≠ []
    ∧ has_column (SoftMax <$> logits) (GetNoSpeechProbs._no_speech_id p) in
  (readable →
   ∃ captured,
     r = Ok ({| GetNoSpeechProbs._no_speech_id := GetNoSpeechProbs._no_speech_id p;
                GetNoSpeechProbs._no_speech_probs :=
                  GetNoSpeechProbs._no_speech_probs p ++ captured |},
             logits, disable_tokens)
     ∧ length captured = length batch_offset)
  ∧ (¬ readable → r = Undefined)
  ∧ (∀ step, step ≠ 0 →
       GetNoSpeechProbs.apply p step logits disable_tokens sequences batch_offset prefix
       = Ok (p, logits, disable_tokens)).
Proof.
  intros r readable.
  assert (∀ A B C : Prop, A ∧ B → C → A ∧ B ∧ C) as Hsplit by tauto.
  apply Hsplit; [|intros step Hstep; by apply no_speech_apply_later]. clear Hsplit.
  subst r readable. unfold GetNoSpeechProbs.apply.
  rewrite bool_decide_eq_true_2 by done.
  destruct (get_no_speech_probs_from_logits_defined logits (GetNoSpeechProbs._no_speech_id p))
    as [Hok Hundefined].
  destruct (decide (has_column (SoftMax <$> logits) (GetNoSpeechProbs._no_speech_id p)))
    as [Hcol|Hcol]; last first.
  { rewrite Hundefined by done. simpl. split; [by intros (_ & _ & ?)|done]. }
  rewrite Hok by done. simpl.
  set (probs := (λ row, default float_zero (SoftMax row !! Z.to_nat (GetNoSpeechProbs._no_speech_id p)))
                  <$> logits).
  assert (length probs = length logits) as Hlen by (unfold probs; by rewrite length_fmap).
  destruct batch_offset as [|offset batch_offset].
  { simpl. split; [by intros (? & _)|done]. }
  rewrite bool_decide_eq_false_2 by (simpl; lia).
  set (batch_size := Z.of_nat (length (offset :: batch_offset))).
  assert (0 < batch_size) as Hpos by (unfold batch_size; simpl; lia).
  destruct logits as [|row logits].
  { split; [by intros (_ & ? & _)|]. intros _.
    unfold batch_size. simpl length. rewrite Nat2Z.inj_succ, seqZ_cons by lia. done. }
  split; [|intros []; by split]. intros _.
  set (beam_size := StorageView.dim0 (row :: logits) `div` batch_size).
  rewrite (for_each_Ok _ (λ i, default float_zero (probs !! Z.to_nat (i * beam_size)))).
  - eexists. split; [reflexivity|]. rewrite length_fmap, length_seqZ. apply Nat2Z.id.
  - apply Forall_forall. intros i Hi%elem_of_seqZ.
    assert (0 ≤ beam_size) as Hbeam.
    { unfold beam_size, StorageView.dim0. apply Z.div_pos; lia. }
    assert (i * beam_size < Z.of_nat (length probs)) as Hindex.
    { rewrite Hlen. fold (StorageView.dim0 (row :: logits)).
      assert (batch_size * beam_size ≤ StorageView.dim0 (row :: logits)) as Hmul.
      { unfold beam_size. apply Z.mul_div_le. lia. }
      assert (0 < StorageView.dim0 (row :: logits))
        by (unfold StorageView.dim0; simpl; lia).
      destruct (decide (beam_size = 0)) as [->|]; [lia|]. nia. }
    destruct (lookup_lt_is_Some_2 probs (Z.to_nat (i * beam_size))) as [x Hx]; [nia|].
    rewrite Hx. simpl. apply at1_Ok; [nia|done].
Qed.

End facts.
End DecodingSetup.

(** ** What a call of the timestamp rules leaves alone *)
Module TimestampSteps.
Section facts.
Context `{!Numerics} `{!DecodingHelpers}.
Import ApplyTimestampRules TimestampRules DisableTokensFacts ApplyTimestampRulesFacts.

Variables (self : ApplyTimestampRules.t) (sequences : list (list Z)).

(** X9. While the prefix of a row is still being forced
    ([step < sample_begin]) a call disables [no_timestamps_id] for the row
    and nothing else; and when no row of the batch is past its first
    generated step, the call leaves the logits as they are: the masking and
    the log-softmax of the mass check do not run. *)
Theorem forced_steps_only_disable_no_timestamps (step : Z) (logits : list (list float))
    (disable_tokens : DisableTokens.t) (batch_offset : list Z)
    (prefix : option (list (list Z))) :
  well_formed self step sequences logits batch_offset prefix →
  ∃ logits' disable_tokens',
    apply self step logits disable_tokens sequences batch_offset prefix
    = Ok (self, logits', disable_tokens')
    ∧ (∀ b i, 0 ≤ b < StorageView.dim0 logits →
              step < get_sample_begin (StorageView.dim0 logits) b batch_offset prefix →
              (DisableTokens.disabled disable_tokens' b i
               ↔ DisableTokens.disabled disable_tokens b i ∨ i = _no_timestamps_id self))
    ∧ ((∀ b, 0 ≤ b < StorageView.dim0 logits →
             step ≤ get_sample_begin (StorageView.dim0 logits) b batch_offset prefix) →
       logits' = logits).
Proof.
  intros Hwf.
  destruct (apply_spec self sequences step logits disable_tokens batch_offset prefix Hwf)
    as (after_rows & check & logits' & dt' & _ & Happly & Hids & Hcheck & Hnil & Hcons).
  exists logits', dt'. split; [done|]. split.
  - intros b i Hb Hstep.
    assert (b ∉ check) as Hunmarked.
    { rewrite Hcheck. unfold marked. intros [_ [? _]]. lia. }
    assert (DisableTokens.disabled dt' b i ↔ DisableTokens.disabled after_rows b i) as ->.
    { destruct (decide (check = [])) as [Hc|Hc].
      - by destruct (Hnil Hc) as [_ ->].
      - destruct (Hcons Hc) as [_ Hdt']. rewrite Hdt'. split; [|auto].
        intros [?|[? _]]; done. }
    rewrite Hids. unfold row_ids. split.
    + intros [?|[_ [?|[[? _]|[? _]]]]]; auto; lia.
    + intros [?|?]; auto.
  - intros Hall. apply Hnil. destruct check as [|b check]; [done|].
    assert (b ∈ b :: check) as Hb by left.
    apply Hcheck in Hb as [Hb [Hstep _]]. specialize (Hall b Hb). lia.
Qed.

(** X10. A call only adds to the disabled tokens, and only for the rows of
    the batch: what was disabled before stays disabled, and a row outside
    [[0, batch_size)] gets nothing. The logits keep their shape, and an
    entry of the logits is either kept or replaced by minus infinity. *)
Theorem rules_only_add (step : Z) (logits : list (list float))
    (disable_tokens : DisableTokens.t) (batch_offset : list Z)
    (prefix : option (list (list Z))) :
  well_formed self step sequences logits batch_offset prefix →
  ∃ logits' disable_tokens',
    apply self step logits disable_tokens sequences batch_offset prefix
    = Ok (self, logits', disable_tokens')
    ∧ (∀ b i, DisableTokens.disabled disable_tokens b i →
              DisableTokens.disabled disable_tokens' b i)
    ∧ (∀ b i, ¬ 0 ≤ b < StorageView.dim0 logits →
              DisableTokens.disabled disable_tokens' b i →
              DisableTokens.disabled disable_tokens b i)
    ∧ length logits' = length logits
    ∧ (∀ (b : nat) row', logits' !! b = Some row' →
         ∃ row, logits !! b = Some row ∧ length row' = length row
                ∧ ∀ (j : nat) x, row' !! j = Some x →
                                 row !! j = Some x ∨ x = minus_infinity).
Proof.
  intros Hwf.
  destruct (apply_spec self sequences step logits disable_tokens batch_offset prefix Hwf)
    as (after_rows & check & logits' & dt' & _ & Happly & Hids & Hcheck & Hnil & Hcons).
  exists logits', dt'. split; [done|].
  destruct (decide (check = [])) as [Hc|Hc].
  - destruct (Hnil Hc) as [-> ->]. split; [|split; [|split; [done|]]].
    + intros b i ?. apply Hids. auto.
    + intros b i Hb [?|[? _]]%Hids; done.
    + intros b row' Hrow'. exists row'. split; [done|]. split; [done|]. auto.
  - destruct (Hcons Hc) as [-> Hdt']. split; [|split; [|split]].
    + intros b i ?. apply Hdt'. left. apply Hids. auto.
    + intros b i Hb [[?|[? _]]%Hids|[[? _]%Hcheck _]]%Hdt'; done.
    + apply length_apply.
    + intros b row' Hrow'.
      destruct (length_apply_row _ _ _ _ Hrow') as (row & Hrow & Hlen).
      exists row. split; [done|]. split; [done|]. intros j x Hx.
      pose proof (lookup_apply after_rows logits b j) as Hlook.
      rewrite Hrow', Hrow in Hlook. simpl in Hlook. rewrite Hx in Hlook.
      destruct (row !! j) as [y|]; simpl in Hlook; [|done].
      case_bool_decide; simplify_eq; auto.
Qed.

End facts.
End TimestampSteps.

(** ** The sequences that the timestamp rules let through *)
Module SampledSequenceFacts.
Section facts.
Context `{!Numerics} `{!DecodingHelpers}.
Import ApplyTimestampRules TimestampRules ApplyTimestampRulesFacts SampledSequence.

Variables (self : ApplyTimestampRules.t) (sample_begin : Z) (row : list Z).
Hypothesis Hbegin : 0 ≤ sample_begin.
Hypothesis Hadmissible : admissible self sample_begin row.

(** The tokens of the row, as the rules read them in the history of a
    later step. *)
Lemma history_token_at (sequences : list (list Z)) (b step t token : Z) :
  sequences !! Z.to_nat b = Some (take (Z.to_nat step) row) →
  0 ≤ b → sample_begin ≤ t < step →
  row !! Z.to_nat t = Some token →
  token_at sequences b t = Ok token.
Proof.
  intros Hrow Hb Ht Htoken.
  destruct (Hadmissible t token) as [Hrange _]; [lia|done|].
  unfold token_at, StorageView.at2. rewrite bool_decide_eq_true_2 by lia.
  rewrite Hrow. simpl. rewrite lookup_take_lt by lia. rewrite Htoken. simpl.
  by rewrite SizeTFacts.wrap_small.
Qed.

Lemma history_token_at_inv (sequences : list (list Z)) (b step t token : Z) :
  sequences !! Z.to_nat b = Some (take (Z.to_nat step) row) →
  0 ≤ b → sample_begin ≤ t < step →
  (Z.to_nat step ≤ length row)%nat →
  token_at sequences b t = Ok token →
  row !! Z.to_nat t = Some token.
Proof.
  intros Hrow Hb Ht Hlen Htoken.
  destruct (lookup_lt_is_Some_2 row (Z.to_nat t)) as [x Hx]; [lia|].
  rewrite (history_token_at sequences b step t x) in Htoken by done. congruence.
Qed.

(** A sampled token is none of the ids that the rules disable for its
    row at its step. *)
Lemma sampled_not_row_ids (step token : Z) :
  sample_begin ≤ step → row !! Z.to_nat step = Some token →
  SizeT.in_range token
  ∧ 0 ≤ _timestamp_begin_id self
  ∧ ∃ sequences b,
      0 ≤ b ∧ sequences !! Z.to_nat b = Some (take (Z.to_nat step) row)
      ∧ ¬ row_ids self step sequences sample_begin b token.
Proof.
  intros Hstep Htoken.
  destruct (Hadmissible step token Hstep Htoken)
    as (Hrange & logits & dt & sequences & bo & prefix & b & logits' & dt'
        & Hwf & Hb & Hsb & Hrow & Happly & Henabled).
  split; [done|]. split; [destruct Hwf as ([? _] & _); lia|].
  exists sequences, b. split; [lia|]. split; [done|].
  destruct (apply_row_ids self sequences step logits dt bo prefix Hwf)
    as (logits'' & dt'' & Happly' & Hids).
  assert (dt'' = dt') as -> by congruence.
  intros Hrule. apply Henabled. apply (Hids b token Hb). right. left.
  by rewrite Hsb.
Qed.

(** The most recent timestamp of a window that starts at one. *)
Lemma most_recent_exists (n : nat) (s a : Z) :
  sample_begin ≤ s →
  row !! Z.to_nat s = Some a → _timestamp_begin_id self ≤ a →
  (Z.to_nat (s + 1 + Z.of_nat n) ≤ length row)%nat →
  ∃ t x, s ≤ t < s + 1 + Z.of_nat n
         ∧ row !! Z.to_nat t = Some x ∧ _timestamp_begin_id self ≤ x
         ∧ ∀ t' y, t < t' < s + 1 + Z.of_nat n → row !! Z.to_nat t' = Some y →
                   ¬ _timestamp_begin_id self ≤ y.
Proof.
  intros Hs Ha Hts. induction n as [|n IH]; intros Hlen.
  { exists s, a. split; [lia|]. split; [done|]. split; [done|]. intros; lia. }
  destruct (lookup_lt_is_Some_2 row (Z.to_nat (s + 1 + Z.of_nat n))) as [y Hy]; [lia|].
  destruct (decide (_timestamp_begin_id self ≤ y)) as [Hy_ts|Hy_ts].
  - exists (s + 1 + Z.of_nat n), y. split; [lia|]. split; [done|]. split; [done|].
    intros; lia.
  - destruct IH as (t & x & Ht & Hx & Hx_ts & Hafter); [lia|].
    exists t, x. split; [lia|]. split; [done|]. split; [done|].
    intros t' y' Ht' Hy'.
    destruct (decide (t' = s + 1 + Z.of_nat n)) as [->|].
    { by replace y' with y by congruence. }
    apply (Hafter t' y'); [lia|done].
Qed.

(** A timestamp sampled after an earlier timestamp is not below the last
    timestamp before it. *)
Lemma sampled_after_most_recent (s s' a c : Z) :
  sample_begin ≤ s < s' →
  row !! Z.to_nat s = Some a → row !! Z.to_nat s' = Some c →
  _timestamp_begin_id self ≤ a → _timestamp_begin_id self ≤ c →
  ∃ t x, s ≤ t < s' ∧ row !! Z.to_nat t = Some x
         ∧ _timestamp_begin_id self ≤ x ∧ x ≤ c.
Proof.
  intros Hs Ha Hc Ha_ts Hc_ts.
  assert (Z.to_nat s' < length row)%nat as Hlen by (by eapply lookup_lt_Some).
  destruct (most_recent_exists (Z.to_nat (s' - s - 1)) s a) as (t & x & Ht & Hx & Hx_ts & Hafter);
    [lia|done|done|lia|].
  replace (s + 1 + Z.of_nat (Z.to_nat (s' - s - 1))) with s' in * by lia.
  exists t, x. split; [done|]. split; [done|]. split; [done|].
  destruct (sampled_not_row_ids s' c) as (_ & _ & sequences & b & Hb & Hrow & Hno);
    [lia|done|].
  destruct (decide (x ≤ c)) as [|Hlt]; [done|]. destruct Hno.
  right. right. split; [lia|]. right. right. exists x. split; [|lia].
  exists t. split; [lia|]. split.
  { apply (history_token_at sequences b s' t x); [done|done|lia|done]. }
  split; [done|]. intros t' token' Ht' Htoken'.
  apply (history_token_at_inv sequences b s' t' token') in Htoken'; [|done|done|lia|lia].
  apply (Hafter t' token'); [lia|done].
Qed.

End facts.

Section theorems.
Context `{!Numerics} `{!DecodingHelpers}.
Import ApplyTimestampRules TimestampRules ApplyTimestampRulesFacts SampledSequence.

(** X11. Timestamps never go back. In a row whose generated tokens were
    all sampled among the ids that the rules left enabled, a timestamp is
    never below a timestamp generated before it. *)
Theorem sampled_timestamps_never_decrease (self : ApplyTimestampRules.t)
    (sample_begin : Z) (row : list Z) (s s' a c : Z) :
  0 ≤ sample_begin →
  admissible self sample_begin row →
  sample_begin ≤ s < s' →
  row !! Z.to_nat s = Some a → row !! Z.to_nat s' = Some c →
  _timestamp_begin_id self ≤ a → _timestamp_begin_id self ≤ c →
  a ≤ c.
Proof.
  intros Hbegin Hadm.
  assert (∀ (n : nat) s s' a c,
            sample_begin ≤ s < s' → s' - s ≤ Z.of_nat n →
            row !! Z.to_nat s = Some a → row !! Z.to_nat s' = Some c →
            _timestamp_begin_id self ≤ a → _timestamp_begin_id self ≤ c → a ≤ c) as Hgen.
  { clear s s' a c. induction n as [|n IH]; intros s s' a c Hs Hd Ha Hc Ha_ts Hc_ts; [lia|].
    destruct (sampled_after_most_recent self sample_begin row Hbegin Hadm s s' a c)
      as (t & x & Ht & Hx & Hx_ts & Hle); [done..|].
    destruct (decide (t = s)) as [->|Hne].
    - assert (x = a) as -> by congruence. done.
    - assert (a ≤ x); [|lia]. apply (IH s t a x); [lia|lia|done..]. }
  intros Hs. by apply (Hgen (Z.to_nat (s' - s)) s s' a c); [|lia|..].
Qed.

(** X12. Timestamps come alone at the start and in pairs after it. In a
    row whose generated tokens were all sampled among the ids that the
    rules left enabled: [no_timestamps_id] is never generated; the first
    generated token is a timestamp, and not one of the vocabulary above
    [max_initial_timestamp_id]; after a timestamp that follows a timestamp,
    or that is the first generated token, the next token is not a timestamp
    of the vocabulary; and after a timestamp that follows another token,
    the next token is not below [eot_id]. *)
Theorem sampled_timestamps_come_in_pairs (self : ApplyTimestampRules.t)
    (sample_begin : Z) (row : list Z) :
  0 ≤ sample_begin →
  admissible self sample_begin row →
  (∀ step token,
     sample_begin ≤ step → row !! Z.to_nat step = Some token →
     token ≠ _no_timestamps_id self)
  ∧ (∀ token,
       row !! Z.to_nat sample_begin = Some token →
       _timestamp_begin_id self ≤ token
       ∧ ¬ SizeT.add (_max_initial_timestamp_id self) 1 ≤ token ≤ _timestamp_end_id self)
  ∧ (∀ step token last penultimate,
       sample_begin < step →
       row !! Z.to_nat step = Some token →
       row !! Z.to_nat (step - 1) = Some last →
       row !! Z.to_nat (Z.max sample_begin (step - 2)) = Some penultimate →
       _timestamp_begin_id self ≤ last →
       (_timestamp_begin_id self ≤ penultimate →
        ¬ _timestamp_begin_id self ≤ token ≤ _timestamp_end_id self)
       ∧ (penultimate < _timestamp_begin_id self → _eot_id self ≤ token)).
Proof.
  intros Hbegin Hadm. split; [|split].
  - intros step token Hstep Htoken ->.
    destruct (sampled_not_row_ids self sample_begin row Hadm step _ Hstep Htoken)
      as (_ & _ & sequences & b & _ & _ & Hno).
    destruct Hno. by left.
  - intros token Htoken.
    destruct (sampled_not_row_ids self sample_begin row Hadm sample_begin token)
      as ([Hrange _] & Hb & sequences & b & _ & _ & Hno); [lia|done|].
    unfold row_ids, first_step_ids in Hno. split.
    + destruct (decide (_timestamp_begin_id self ≤ token)); [done|].
      destruct Hno. right. left. split; [done|]. left. lia.
    + intros Hlate. destruct Hno. right. left. split; [done|]. by right.
  - intros step token last penultimate Hstep Htoken Hlast Hpen Hlast_ts.
    destruct (sampled_not_row_ids self sample_begin row Hadm step token)
      as ([Hrange _] & _ & sequences & b & Hb & Hrow & Hno); [lia|done|].
    assert (last_token step sequences b last) as Hlast'.
    { apply (history_token_at self sample_begin row Hbegin Hadm sequences b step);
        [done|done|lia|done]. }
    assert (penultimate_token step sequences sample_begin b penultimate) as Hpen'.
    { unfold penultimate_token. destruct (decide (step - 1 > sample_begin)).
      - replace (Z.max sample_begin (step - 2)) with (step - 2) in Hpen by lia.
        apply (history_token_at self sample_begin row Hbegin Hadm sequences b step);
          [done|done|lia|done].
      - replace (Z.max sample_begin (step - 2)) with (step - 1) in Hpen by lia.
        apply (history_token_at self sample_begin row Hbegin Hadm sequences b step);
          [done|done|lia|done]. }
    split.
    + intros Hpen_ts Htoken_ts. destruct Hno. right. right. split; [lia|]. left.
      split; [|done]. by exists last, penultimate.
    + intros Hpen_text. destruct (decide (_eot_id self ≤ token)); [done|].
      destruct Hno. right. right. split; [lia|]. right. left.
      split; [|lia]. exists last, penultimate. unfold is_timestamp.
      split; [done|]. split; [done|]. split; [done|]. lia.
Qed.

End theorems.
End SampledSequenceFacts.

(** ** The model class *)
Module WhisperModelFacts.
Import WhisperModel.

Lemma prefix_occurs (pattern name : string) :
  String.prefix pattern name = true ↔ ∃ after, name = pattern +:+ after.
Proof.
  revert name. induction pattern as [|a pattern IH]; intros name; simpl.
  - destruct name; split; eauto.
  - destruct name as [|b name]; simpl.
    + split; [done|]. by intros [after [=]].
    + destruct (Ascii.ascii_dec a b) as [->|Hne].
      * rewrite IH. split.
        -- intros [after ->]. by exists after.
        -- intros [after [= ->]]. by exists after.
      * split; [done|]. intros [after [= ? _]]. done.
Qed.

(** [find] returns [npos] exactly when the pattern occurs nowhere. *)
Lemma not_found_spec (pattern name : string) :
  pattern ≠ "" → not_found pattern name = true ↔ ¬ occurs pattern name.
Proof.
  intros Hpattern. unfold not_found, occurs. rewrite bool_decide_eq_true.
  induction name as [|b name IH].
  - destruct pattern as [|a pattern]; [done|]. split; [|done].
    intros _ (before & after & Heq). by destruct before.
  - change (String.index 0 pattern (String b name))
      with (if String.prefix pattern (String b name) then Some 0%nat
            else match String.index 0 pattern name with
                 | Some n => Some (S n)
                 | None => None
                 end).
    destruct (String.prefix pattern (String b name)) eqn:Hprefix.
    + split; [done|]. intros Hno. destruct Hno.
      apply prefix_occurs in Hprefix as [after ->]. by exists "", after.
    + destruct (String.index 0 pattern name) as [n|].
      * split; [done|]. intros Hno. exfalso.
        assert (¬ ∃ before after, name = before +:+ pattern +:+ after) as Hname.
        { intros (before & after & ->). destruct Hno.
          by exists (String b before), after. }
        apply IH in Hname. done.
      * split; [|done]. intros _ (before & after & Heq).
        destruct before as [|c before]; simpl in Heq.
        -- assert (String.prefix pattern (String b name) = true) as Hp
             by (apply prefix_occurs; eauto).
           congruence.
        -- injection Heq as _ ->. destruct IH as [IH _]. destruct (IH eq_refl). eauto.
Qed.

(** X13. A variable is quantizable exactly when the base class says so and
    its name does not contain [conv]; it is a linear weight exactly when,
    moreover, its name does not contain [embeddings]. So the weights of the
    convolutions are never quantized, whatever the base class answers, and
    the embeddings are quantized without being linear weights. *)
Theorem quantizable_variables (Model_is_quantizable : string → bool) (name : string) :
  (is_quantizable Model_is_quantizable name = true
   ↔ Model_is_quantizable name = true ∧ ¬ occurs "conv" name)
  ∧ (is_linear_weight Model_is_quantizable name = true
     ↔ Model_is_quantizable name = true ∧ ¬ occurs "conv" name
       ∧ ¬ occurs "embeddings" name).
Proof.
  unfold is_linear_weight, is_quantizable.
  rewrite !andb_true_iff, !not_found_spec by done. tauto.
Qed.

End WhisperModelFacts.

(** ** The Python binding *)
Module PythonBindingFacts.
Section facts.
Context `{!Numerics}.
Import PythonBinding.

(** The loop of copies: it fills the buffer from [it] on with the rows one
    after the other, and is undefined when they do not fit. *)
Lemma copy_rows (rows : list (list float)) (flattened : list float) (it : nat) :
  (it ≤ length flattened)%nat →
  for_fold copy_row rows (flattened, it)
  = if bool_decide (it + length (concat rows) ≤ length flattened)%nat
    then Ok (take it flattened ++ concat rows
               ++ drop (it + length (concat rows)) flattened,
             (it + length (concat rows))%nat)
    else Undefined.
Proof.
  revert flattened it. induction rows as [|row rows IH]; intros flattened it Hit.
  - simpl. rewrite Nat.add_0_r, bool_decide_eq_true_2 by done. by rewrite take_drop.
  - rewrite for_fold_cons.
    change (copy_row row (flattened, it))
      with (if bool_decide (it + length row ≤ length flattened)%nat
            then Ok (take it flattened ++ row ++ drop (it + length row) flattened,
                     (it + length row)%nat)
            else Undefined).
    simpl concat. rewrite length_app.
    destruct (decide (it + length row ≤ length flattened)%nat) as [Hfit|Hfit]; last first.
    { rewrite !bool_decide_eq_false_2 by lia. done. }
    rewrite (bool_decide_eq_true_2 (it + length row ≤ length flattened)%nat) by done.
    simpl.
    set (buffer := take it flattened ++ row ++ drop (it + length row) flattened).
    assert (length buffer = length flattened) as Hlen.
    { unfold buffer. rewrite !length_app, length_take, length_drop. lia. }
    rewrite IH by lia. rewrite Hlen.
    destruct (decide (it + (length row + length (concat rows)) ≤ length flattened)%nat);
      [|rewrite !bool_decide_eq_false_2 by lia; done].
    rewrite !bool_decide_eq_true_2 by lia. f_equal. f_equal; [|lia].
    assert (length (take it flattened) = it) as Htake by (rewrite length_take; lia).
    unfold buffer.
    rewrite (app_assoc (take it flattened) row).
    rewrite take_app_length' by (rewrite length_app; lia).
    rewrite drop_app_ge by (rewrite length_app; lia).
    rewrite length_app, Htake, drop_drop, <- !app_assoc.
    do 4 f_equal. lia.
Qed.

(** The entry [[r, c]] of the rows of a grid laid out one after the
    other. *)
Lemma lookup_concat_grid (rows : list (list float)) (dim2 r c : nat) row x :
  Forall (λ row, length row = dim2) rows →
  rows !! r = Some row → row !! c = Some x →
  concat rows !! (r * dim2 + c)%nat = Some x.
Proof.
  intros Hgrid. revert r. induction Hgrid as [|row0 rows Hrow0 _ IH]; intros r Hr Hc.
  - done.
  - destruct r as [|r]; simpl in *.
    + simplify_eq. by rewrite lookup_app_l by (by eapply lookup_lt_Some).
    + rewrite lookup_app_r by lia.
      replace (dim2 + r * dim2 + c - length row0)%nat with (r * dim2 + c)%nat by lia.
      by apply IH.
Qed.

(** X14. The property [attention] of the binding. It is undefined on a
    result without attention and on one whose first hypothesis has no row;
    it shows the first hypothesis only. For a
    first hypothesis of [dim1] rows whose first row has [dim2] entries it
    is undefined when the rows hold more than [dim1 * dim2] entries in
    all, and otherwise the array of shape [[dim1, dim2]] holds the rows
    one after the other, followed by zeros; when every row has [dim2]
    entries, the entry [[r, c]] of the array is the entry [c] of the row
    [r]. *)
Theorem attention_array (result : WhisperGenerationResult.t) :
  (WhisperGenerationResult.attention result = [] → attention result = Undefined)
  ∧ (∀ others, WhisperGenerationResult.attention result = [] :: others →
               attention result = Undefined)
  ∧ (∀ first_row rows others,
       WhisperGenerationResult.attention result = (first_row :: rows) :: others →
       let first := first_row :: rows in
       let dim1 := length first in
       let dim2 := length first_row in
       let total := length (concat first) in
       ((dim1 * dim2 < total)%nat → attention result = Undefined)
       ∧ ((total ≤ dim1 * dim2)%nat →
          attention result
          = Ok (dim1, dim2, concat first ++ replicate (dim1 * dim2 - total) float_zero))
       ∧ (Forall (λ row, length row = dim2) first →
          attention result = Ok (dim1, dim2, concat first)
          ∧ ∀ r c row x, first !! r = Some row → row !! c = Some x →
                         array_at (dim1, dim2, concat first) r c = Some x)).
Proof.
  unfold attention. split; [by intros ->|]. split; [by intros others ->|].
  intros first_row rows others Hattention. rewrite Hattention.
  set (first := first_row :: rows). set (dim1 := length first).
  set (dim2 := length first_row). set (total := length (concat first)).
  change (of_option ((first :: others) !! 0%nat)) with (Ok first).
  cbn [mbind outcome_bind].
  change (of_option (first !! 0%nat)) with (Ok first_row).
  cbn [mbind outcome_bind]. fold dim1 dim2.
  rewrite copy_rows by lia. fold total.
  rewrite length_replicate, take_0, drop_replicate, app_nil_l.
  assert (∀ n, total ≤ n → bool_decide (0 + total ≤ n) = true)%nat as Hfit
    by (intros; apply bool_decide_eq_true_2; lia).
  split; [|split].
  - intros Hover. by rewrite bool_decide_eq_false_2 by lia.
  - intros Hfits. rewrite Hfit by done. cbn [mbind outcome_bind]. repeat f_equal; lia.
  - intros Hgrid.
    assert (total = dim1 * dim2)%nat as Htotal.
    { unfold total, dim1. clear -Hgrid. induction Hgrid as [|row l Hrow _ IH]; [done|].
      simpl. rewrite length_app, IH, Hrow. lia. }
    split.
    + rewrite Hfit by lia. cbn [mbind outcome_bind].
      replace (dim1 * dim2 - (0 + total))%nat with 0%nat by lia.
      by rewrite app_nil_r.
    + intros r c row x Hr Hc. unfold array_at.
      rewrite bool_decide_eq_true_2.
      * by eapply lookup_concat_grid.
      * split; [by eapply lookup_lt_Some|].
        rewrite Forall_forall in Hgrid. rewrite <- (Hgrid row).
        -- by eapply lookup_lt_Some.
        -- by eapply list_elem_of_lookup_2.
Qed.

End facts.
End PythonBindingFacts.

(** ** The further facts on the small instance *)
Module Walkthrough.

(** Two prompts with the same head [[a, sot, en, transcribe, notimestamps,
    b]] and different text after it are accepted. *)
Lemma check_prompts_ignores_text_example :
  PromptAnalyzer.check_prompts [[0; 5; 6; 8; 10; 1; 2; 3]; [0; 5; 6; 8; 10; 1]] 5 10 0 0
  = Ok (1%nat, 5%nat).
Proof.
  destruct (PromptShape.check_prompts_ignores_text [0; 5; 6; 8; 10; 1] [[2; 3]; []]
              5 10 0 0) as [Hcheck _].
  - apply (bool_decide_unpack _). by vm_compute.
  - vm_compute. lia.
  - done.
  - exact Hcheck.
Defined.

(** Two text tokens in front of [[sot, en, transcribe, notimestamps, c]]
    move SOT from 0 to 2 and the prompt length from 4 to 6. *)
Lemma previous_text_shifts_indices_example :
  PromptAnalyzer.get_sot_index [0; 1; 5; 6; 8; 10; 2] 5 = Ok 2%nat
  ∧ PromptAnalyzer.get_prompt_length [0; 1; 5; 6; 8; 10; 2] 5 10 = Ok 6%nat.
Proof.
  destruct (PromptShape.previous_text_shifts_indices [0; 1] [5; 6; 8; 10; 2] 5 10)
    as [Hsot Hlength].
  - apply (bool_decide_unpack _). by vm_compute.
  - split; [exact Hsot|exact Hlength].
Defined.

(** In [[a, sot, en, transcribe, notimestamps, b]] SOT is at 1 and the
    prompt length 5 is above it. *)
Lemma prompt_length_above_sot_index_example :
  ∃ sot_index prompt_length,
    PromptAnalyzer.get_sot_index [0; 5; 6; 8; 10; 1] 5 = Ok sot_index
    ∧ PromptAnalyzer.get_prompt_length [0; 5; 6; 8; 10; 1] 5 10 = Ok prompt_length
    ∧ (sot_index < prompt_length)%nat.
Proof.
  destruct (PromptShape.prompt_length_above_sot_index [0; 5; 6; 8; 10; 1] 5 10)
    as (sot_index & prompt_length & Hsot & Hlength & _ & Hiff & _).
  - apply (bool_decide_unpack _). by vm_compute.
  - exists sot_index, prompt_length. split; [exact Hsot|]. split; [exact Hlength|].
    apply Hiff. lia.
Defined.

(** A batch whose second prompt has no SOT token is refused. *)
Lemma generate_rejects_invalid_prompts_example :
  is_invalid_argument (Tiny.generate 2 [[5; 6; 8]; [0; 1]] Tiny.options).
Proof.
  destruct (@DecodingSetup.generate_rejects_invalid_prompts Tiny.numerics Tiny.vocabulary
              Tiny.config Tiny.layers Tiny.beam_decoder Tiny.replica 2%nat
              [[5; 6; 8]; [0; 1]] Tiny.options) as [Hgenerate _].
  - left. apply Exists_cons_tl, Exists_cons_hd.
    apply (bool_decide_unpack _). by vm_compute.
  - exact Hgenerate.
Defined.

(** With [Tiny.batch] and at most 448 tokens the decoder starts at step 4
    and may generate 224 tokens. *)
Lemma decoding_length_budget_example :
  ∃ decoding_options,
    @WhisperReplica.make_decoding_options Tiny.numerics Tiny.vocabulary Tiny.config
      Tiny.layers Tiny.beam_decoder Tiny.replica Tiny.batch Tiny.options 1 5 4
    = Ok decoding_options
    ∧ DecodingOptions.start_step decoding_options = 4
    ∧ DecodingOptions.max_length decoding_options = 224.
Proof.
  destruct (@WhisperReplica.prefill Tiny.numerics Tiny.layers Tiny.replica Tiny.batch
              Tiny.options 1 5 (@initial_state Tiny.numerics Tiny.layers))
    as [pre| | |] eqn:Hpre; [|by vm_compute in Hpre..].
  assert (WhisperReplica.start_step pre = 4) as Hstart.
  { vm_compute in Hpre. by injection Hpre as <-. }
  destruct (@WhisperReplica.make_decoding_options Tiny.numerics Tiny.vocabulary Tiny.config
              Tiny.layers Tiny.beam_decoder Tiny.replica Tiny.batch Tiny.options 1 5 4)
    as [decoding_options| | |] eqn:Hoptions; [|by vm_compute in Hoptions..].
  exists decoding_options. split; [reflexivity|].
  destruct (@DecodingSetup.decoding_length_budget Tiny.numerics Tiny.vocabulary Tiny.config
              Tiny.layers Tiny.beam_decoder Tiny.replica Tiny.batch Tiny.options 1 5
              (@initial_state Tiny.numerics Tiny.layers) pre decoding_options)
    as (budget & _ & _ & Hstep & Hbudget & _ & _ & _ & Hfield).
  - by vm_compute.
  - done.
  - reflexivity.
  - exact Hpre.
  - rewrite Hstart. exact Hoptions.
  - by vm_compute.
  - intros v Hv. apply SizeTFacts.wrap_small.
    unfold DimT.max_value in Hv. unfold SizeT.in_range, SizeT.size_modulus. lia.
  - split; [exact Hstep|]. rewrite Hstep in Hbudget, Hfield.
    destruct Hfield as [_ ->]; [by vm_compute|]. rewrite Hbudget. by vm_compute.
Defined.

(** A [max_length] of [2^63] does not fit [dim_t]: the conversion makes it
    [-2^63], which is the budget at the step 0, and the subtraction of a
    later step overflows. *)
Lemma max_decoding_length_wraps :
  let options :=
    @WhisperOptions.Build_t Tiny.numerics 1 1 1 1 0 (2 ^ 63) 1 1 1 true false true 1 true [-1]
  in
  WhisperReplica.max_decoding_length options 0 = Ok (- 2 ^ 63)
  ∧ WhisperReplica.max_decoding_length options 1 = Undefined.
Proof. by vm_compute. Qed.

(** The rules of the small instance have the timestamps 11 to 14, and a
    call at step 0 on one row of logits returns one row. *)
Lemma timestamp_rules_defined_example :
  ApplyTimestampRules._timestamp_begin_id Tiny.rules = 11
  ∧ ApplyTimestampRules._timestamp_end_id Tiny.rules = 14
  ∧ ∃ logits' disable_tokens',
      @ApplyTimestampRules.apply Tiny.numerics Tiny.helpers Tiny.rules 0 Tiny.one_row
        DisableTokens.empty [[]] [0] None
      = Ok (Tiny.rules, logits', disable_tokens')
      ∧ length logits' = 1%nat.
Proof.
  destruct (@DecodingSetup.timestamp_rules_defined Tiny.numerics Tiny.helpers Tiny.vocabulary
              Tiny.replica Tiny.options 0 Tiny.one_row DisableTokens.empty [[]] [0] None)
    as (Hbegin & Hend & _ & Happly).
  - by vm_compute.
  - by vm_compute.
  - intros row Hrow. apply list_elem_of_singleton in Hrow as ->. by vm_compute.
  - apply TinyFacts.log_softmax_length.
  - intros b t _ Ht. simpl in Ht. lia.
  - split; [exact Hbegin|]. split; [exact Hend|]. exact Happly.
Defined.

(** With a forced prefix of two tokens, the call at step 1 disables
    [<|notimestamps|>] alone. *)
Lemma forced_steps_example :
  ∃ logits' disable_tokens',
    @ApplyTimestampRules.apply Tiny.numerics Tiny.helpers Tiny.rules 1 Tiny.one_row
      DisableTokens.empty [[6]] [0] (Some [[6; 8]])
    = Ok (Tiny.rules, logits', disable_tokens')
    ∧ (∀ i, DisableTokens.disabled disable_tokens' 0 i ↔ i = 10)
    ∧ logits' = Tiny.one_row.
Proof.
  destruct (@TimestampSteps.forced_steps_only_disable_no_timestamps Tiny.numerics Tiny.helpers
              Tiny.rules [[6]] 1 Tiny.one_row DisableTokens.empty [0] (Some [[6; 8]]))
    as (logits' & dt' & Happly & Hids & Hlogits).
  - unfold TimestampRules.well_formed.
    split; [split; by vm_compute|]. split; [by vm_compute|]. split; [|split].
    + intros row Hrow. apply list_elem_of_singleton in Hrow as ->. by vm_compute.
    + apply TinyFacts.log_softmax_length.
    + intros b t Hb Ht. assert (b = 0) as -> by (unfold StorageView.dim0 in Hb; simpl in Hb; lia).
      change (2 ≤ t < 1) in Ht. lia.
  - exists logits', dt'. split; [exact Happly|]. split.
    + intros i. rewrite (Hids 0 i); [|by vm_compute|change (1 < 2); lia]. split.
      * intros [Hempty|Hi]; [|exact Hi]. by apply elem_of_nil in Hempty.
      * intros Hi. by right.
    + apply Hlogits. intros b Hb. assert (b = 0) as -> by (unfold StorageView.dim0 in Hb; simpl in Hb; lia).
      change (1 ≤ 2). lia.
Defined.

(** After the timestamp 12 and the text token 1, an id that was disabled
    before the call is disabled after it, and the row of logits keeps its
    fifteen entries. *)
Lemma rules_only_add_example :
  ∃ logits' disable_tokens',
    @ApplyTimestampRules.apply Tiny.numerics Tiny.helpers Tiny.rules 2 Tiny.one_row
      (DisableTokens.add 0 3 DisableTokens.empty) [[12; 1]] [0] None
    = Ok (Tiny.rules, logits', disable_tokens')
    ∧ DisableTokens.disabled disable_tokens' 0 3
    ∧ length logits' = 1%nat.
Proof.
  destruct (@TimestampSteps.rules_only_add Tiny.numerics Tiny.helpers Tiny.rules [[12; 1]] 2
              Tiny.one_row (DisableTokens.add 0 3 DisableTokens.empty)
              [0] None)
    as (logits' & dt' & Happly & Hkept & _ & Hlength & _).
  - apply Examples.rules_well_formed. intros t Ht.
    assert (t = 0 ∨ t = 1) as [-> | ->] by lia; by eexists.
  - exists logits', dt'. split; [exact Happly|]. split; [|exact Hlength].
    apply Hkept. apply (bool_decide_unpack _). by vm_compute.
Defined.

Lemma history_defined (history : list Z) (step : Z) :
  step ≤ Z.of_nat (length history) →
  ∀ t, 0 ≤ t < step → ∃ token, StorageView.at2 [history] 0 t = Ok token.
Proof.
  intros Hstep t Ht.
  destruct (lookup_lt_is_Some_2 history (Z.to_nat t)) as [token Htoken]; [lia|].
  exists token. unfold StorageView.at2. rewrite bool_decide_eq_true_2 by lia.
  simpl. by rewrite Htoken.
Qed.

(** The tokens [[<|0.00|>, b, <|0.02|>, <|0.02|>, c]]: each of them is left
    enabled by the rules of the small instance when it is its turn. *)
Lemma sampled_row_admissible :
  @SampledSequence.admissible Tiny.numerics Tiny.helpers Tiny.rules 0 [11; 1; 12; 12; 2].
Proof.
  intros step token Hstep Htoken.
  assert (Z.to_nat step < 5)%nat as Hlt by (by apply lookup_lt_Some in Htoken).
  assert (step = 0 ∨ step = 1 ∨ step = 2 ∨ step = 3 ∨ step = 4)
    as [-> | [-> | [-> | [-> | ->]]]] by lia.
  all: injection Htoken as <-.
  all: (split; [split; by vm_compute|]).
  all: match goal with
    | |- SampledSequence.allowed _ _ ?history ?step _ =>
        assert (@TimestampRules.well_formed Tiny.numerics Tiny.helpers Tiny.rules step
                  [history] Tiny.one_row [0] None) as Hwf
          by (apply Examples.rules_well_formed, history_defined; by vm_compute);
        assert (0 ≤ 0 < StorageView.dim0 Tiny.one_row) as Hb by (by vm_compute);
        destruct (@ApplyTimestampRules.apply Tiny.numerics Tiny.helpers Tiny.rules step
                    Tiny.one_row DisableTokens.empty [history] [0] None)
          as [[[rules' logits'] dt']| | |] eqn:Happly;
          [|by vm_compute in Happly..];
        pose proof Happly as Hvalue; vm_compute in Hvalue;
        injection Hvalue as <- <- <-;
        exists Tiny.one_row, DisableTokens.empty, [history], [0], None, 0;
        eexists _, _;
        (split; [exact Hwf|]);
        (split; [exact Hb|]);
        (split; [reflexivity|]);
        (split; [reflexivity|]);
        (split; [exact Happly|]);
        apply (bool_decide_unpack _); vm_compute; exact I
    end.
Qed.

(** The timestamp 12 at step 2 is not below the timestamp 11 at step 0. *)
Lemma sampled_timestamps_never_decrease_example :
  [11; 1; 12; 12; 2] !! 0%nat = Some 11 ∧ [11; 1; 12; 12; 2] !! 2%nat = Some 12 ∧ 11 ≤ 12.
Proof.
  split; [reflexivity|]. split; [reflexivity|].
  apply (@SampledSequenceFacts.sampled_timestamps_never_decrease Tiny.numerics Tiny.helpers
           Tiny.rules 0 [11; 1; 12; 12; 2] 0 2 11 12).
  - lia.
  - exact sampled_row_admissible.
  - lia.
  - reflexivity.
  - reflexivity.
  - by vm_compute.
  - by vm_compute.
Defined.

(** The row starts with a timestamp, and the token after the pair of 12s
    is a text token. *)
Lemma sampled_timestamps_come_in_pairs_example :
  11 ≤ 11 ∧ ¬ 11 ≤ 2 ≤ 14.
Proof.
  destruct (@SampledSequenceFacts.sampled_timestamps_come_in_pairs Tiny.numerics
              Tiny.helpers Tiny.rules 0 [11; 1; 12; 12; 2]) as (_ & Hfirst & Hnext).
  - lia.
  - exact sampled_row_admissible.
  - split.
    + by destruct (Hfirst 11 eq_refl) as [Hts _].
    + destruct (Hnext 4 2 12 12) as [Hclosed _]; [lia|reflexivity..|by vm_compute|].
      apply Hclosed. by vm_compute.
Defined.

End Walkthrough.
